(** * Bluesky sentiment analyzer: the recurring-analysis job

    A shallow embedding of the scheduled Lambda handler (the TypeScript
    source [app.ts], with its helpers [getQueryDetails],
    [storeAnalysisResults], [storeSubtopicAnalysisResults],
    [deleteSchedule], [getSubtopics], [analyzeSentimentForTerm],
    [getNextDataId], [triggerEmailNotification] and
    [triggerAddSubtopicLambda]) and of the parts of the JavaScript
    platform it relies on, followed by the properties of the job
    coordinator.

    Conventions.
    - A JavaScript string is the list of its UTF-16 code units.
    - JavaScript numbers that hold identifiers, counts and lengths are
      integers ([Z]); confidence scores are rationals ([Q]); no statement
      below depends on the rounding of doubles.
    - Every call to an external service is recorded, in the order it is
      issued, in the [log] of the world; the [n]-th call of an execution
      succeeds or throws as the environment decides for that call. *)

From Stdlib Require Import ZArith QArith List Bool String Ascii Lia Permutation Sorted.
Import ListNotations.

Local Open Scope Z_scope.

(** * JavaScript strings *)

Module JS.

(** UTF-16 code units. *)
Definition jsstring := list Z.

Definition code_unit (u : Z) : Prop := 0 <= u <= 0xFFFF.

Definition wf_string (s : jsstring) : Prop := Forall code_unit s.

Definition str_eqb (a b : jsstring) : bool :=
  if list_eq_dec Z.eq_dec a b then true else false.

(** A string literal of the source, as code units (ASCII only). *)
Fixpoint lit (s : string) : jsstring :=
  match s with
  | EmptyString => []
  | String c s' => Z.of_N (N_of_ascii c) :: lit s'
  end.

(** [s.length] *)
Definition length (s : jsstring) : Z := Z.of_nat (List.length s).

(** [s.substring(0, n)] for [n >= 0]. *)
Definition substring0 (n : Z) (s : jsstring) : jsstring :=
  firstn (Z.to_nat n) s.

(** Truthiness of a string: [''] is falsy. *)
Definition truthy (s : jsstring) : bool :=
  match s with [] => false | _ => true end.

(** The code units that [String.prototype.trim] strips: ECMAScript
    WhiteSpace and LineTerminator. *)
Definition is_space (u : Z) : bool :=
  (u =? 0x09) || (u =? 0x0A) || (u =? 0x0B) || (u =? 0x0C) || (u =? 0x0D)
  || (u =? 0x20) || (u =? 0xA0) || (u =? 0x1680)
  || ((0x2000 <=? u) && (u <=? 0x200A))
  || (u =? 0x2028) || (u =? 0x2029) || (u =? 0x202F) || (u =? 0x205F)
  || (u =? 0x3000) || (u =? 0xFEFF).

Fixpoint trimStart (s : jsstring) : jsstring :=
  match s with
  | u :: s' => if is_space u then trimStart s' else s
  | [] => []
  end.

Definition trimEnd (s : jsstring) : jsstring := rev (trimStart (rev s)).

(** [s.trim()] *)
Definition trim (s : jsstring) : jsstring := trimEnd (trimStart s).

(** The guard [!text || text.trim() === ''] on an optional string. *)
Definition blank (t : option jsstring) : bool :=
  match t with
  | None => true
  | Some s => negb (truthy s) || negb (truthy (trim s))
  end.

End JS.

Export JS(jsstring).

(** * UTF-8, as Node's [Buffer] encodes and decodes it *)

Module Utf8.

Definition REPLACEMENT : Z := 0xFFFD.

Definition is_high (u : Z) : bool := (0xD800 <=? u) && (u <=? 0xDBFF).
Definition is_low (u : Z) : bool := (0xDC00 <=? u) && (u <=? 0xDFFF).

(** Unicode scalar values: code points that are not surrogates. *)
Definition scalar (c : Z) : Prop :=
  0 <= c <= 0x10FFFF /\ ~ (0xD800 <= c <= 0xDFFF).

(** The code points of a string, as the UTF-8 encoder reads them: a
    surrogate pair is one code point, a lone surrogate is encoded as
    U+FFFD. *)
Fixpoint code_points (s : jsstring) : list Z :=
  match s with
  | [] => []
  | u :: s' =>
      if is_high u then
        match s' with
        | l :: s'' =>
            if is_low l
            then (0x10000 + (u - 0xD800) * 0x400 + (l - 0xDC00)) :: code_points s''
            else REPLACEMENT :: code_points s'
        | [] => [REPLACEMENT]
        end
      else if is_low u then REPLACEMENT :: code_points s'
      else u :: code_points s'
  end.

(** The code units of a list of code points (surrogate pairs above the
    basic plane). *)
Definition code_units_of (c : Z) : jsstring :=
  if c <? 0x10000 then [c]
  else [0xD800 + (c - 0x10000) / 0x400; 0xDC00 + (c - 0x10000) mod 0x400].

Definition of_code_points (cs : list Z) : jsstring := flat_map code_units_of cs.

Definition encode_cp (c : Z) : list Z :=
  if c <? 0x80 then [c]
  else if c <? 0x800 then [0xC0 + c / 64; 0x80 + c mod 64]
  else if c <? 0x10000
       then [0xE0 + c / 4096; 0x80 + (c / 64) mod 64; 0x80 + c mod 64]
       else [0xF0 + c / 262144; 0x80 + (c / 4096) mod 64;
             0x80 + (c / 64) mod 64; 0x80 + c mod 64].

Definition encode (cs : list Z) : list Z := flat_map encode_cp cs.

(** Decoder state: at a character boundary, or inside a sequence: the
    number of continuation bytes expected after the next one, the code
    point accumulated so far and the range allowed for the next byte. *)
Inductive dstate :=
| Start
| Cont (more : nat) (cp lower upper : Z).

(** A byte read at a character boundary. *)
Definition lead (b : Z) : list Z * dstate :=
  if b <=? 0x7F then ([b], Start)
  else if (0xC2 <=? b) && (b <=? 0xDF) then ([], Cont 0 (b - 0xC0) 0x80 0xBF)
  else if (0xE0 <=? b) && (b <=? 0xEF)
       then ([], Cont 1 (b - 0xE0) (if b =? 0xE0 then 0xA0 else 0x80)
                                    (if b =? 0xED then 0x9F else 0xBF))
  else if (0xF0 <=? b) && (b <=? 0xF4)
       then ([], Cont 2 (b - 0xF0) (if b =? 0xF0 then 0x90 else 0x80)
                                    (if b =? 0xF4 then 0x8F else 0xBF))
  else ([REPLACEMENT], Start).

(** Decoding with replacement: an ill-formed or truncated sequence yields
    one U+FFFD, and the byte that ended it is read again at a boundary. *)
Fixpoint decode_from (st : dstate) (bs : list Z) : list Z :=
  match bs with
  | [] => match st with Start => [] | Cont _ _ _ _ => [REPLACEMENT] end
  | b :: bs' =>
      match st with
      | Start => let (out, st') := lead b in out ++ decode_from st' bs'
      | Cont n cp lo hi =>
          if (lo <=? b) && (b <=? hi) then
            match n with
            | O => (cp * 64 + (b - 0x80)) :: decode_from Start bs'
            | S n' => decode_from (Cont n' (cp * 64 + (b - 0x80)) 0x80 0xBF) bs'
            end
          else
            let (out, st') := lead b in
            REPLACEMENT :: out ++ decode_from st' bs'
      end
  end.

Definition decode (bs : list Z) : list Z := decode_from Start bs.

(** [Buffer.from(s, 'utf8')] *)
Definition Buffer_from (s : jsstring) : list Z := encode (code_points s).

(** [Buffer.byteLength(s, 'utf8')] *)
Definition Buffer_byteLength (s : jsstring) : Z :=
  Z.of_nat (List.length (Buffer_from s)).

(** [buffer.slice(0, n)] for [n >= 0]. *)
Definition Buffer_slice0 (n : Z) (buf : list Z) : list Z :=
  firstn (Z.to_nat n) buf.

(** [buffer.toString('utf8')] *)
Definition Buffer_toString (buf : list Z) : jsstring :=
  of_code_points (decode buf).

(** Bytes that are the encoding of scalar values. *)
Definition valid_utf8 (bs : list Z) : Prop :=
  exists cs, Forall scalar cs /\ bs = encode cs.

End Utf8.

(** * Text preparation for the sentiment scorer *)

Definition MAX_COMPREHEND_BYTES : Z := 4990.

(** The text handed to Comprehend, in [analyzeSentimentForTerm] and in the
    key-phrase step of [handler]:
    [let textToAnalyze = postText;
     if (Buffer.byteLength(postText, 'utf8') > MAX_COMPREHEND_BYTES)
       textToAnalyze = Buffer.from(postText, 'utf8')
                         .slice(0, MAX_COMPREHEND_BYTES).toString('utf8');] *)
Definition textToAnalyze (postText : jsstring) : jsstring :=
  if Utf8.Buffer_byteLength postText >? MAX_COMPREHEND_BYTES
  then Utf8.Buffer_toString
         (Utf8.Buffer_slice0 MAX_COMPREHEND_BYTES (Utf8.Buffer_from postText))
  else postText.

(** * Data model *)

(** Errors thrown by the platform and by the handler: [error.name] and
    [error.message]. *)
Record JsError := mkError { name : string; message : string }.

(** [new Error(msg)] *)
Definition Error (msg : string) : JsError := mkError "Error" msg.

(** [interface QueryDetails]: a record of the Queries table. *)
Record QueryDetails := {
  QueryID : Z;
  Topic : jsstring;
  Email : jsstring;
  NumIntervals : Z;
  PostsToAnalyze : Z;
  IntervalLength : Z;
  IntervalUnit : jsstring;
  CreatedAt : Z;
  Status : option jsstring
}.

(** A post returned by the feed search: its [uri] and [record.text]. *)
Record PostView := { uri : jsstring; text : option jsstring }.

(** The reply of [DetectSentimentCommand]. *)
Record SentimentScore := {
  Positive : option Q;
  Negative : option Q;
  Neutral : option Q;
  Mixed : option Q
}.

Record DetectSentimentResponse := {
  Sentiment : option jsstring;
  SentimentScore_ : option SentimentScore
}.

(** [PostWithAnalysis.sentimentAnalysis] and [.keyPhraseAnalysis]. *)
Record SentimentAnalysis := {
  sentiment : option jsstring;
  scores : option SentimentScore;
  error : option string
}.

Record KeyPhraseAnalysis := {
  phrases : option (list jsstring);
  kp_error : option string
}.

Record PostWithAnalysis := {
  post : PostView;
  sentimentAnalysis : option SentimentAnalysis;
  keyPhraseAnalysis : option KeyPhraseAnalysis
}.

(** [interface SentimentSummary] *)
Record SentimentSummary := {
  queryId : Z;
  topic : jsstring;
  timestamp : Z;
  totalPostsAnalyzed : Z;
  positivePosts : Z;
  negativePosts : Z;
  neutralPosts : Z;
  mixedPosts : Z;
  avgPositiveScore : Q;
  avgNegativeScore : Q;
  avgNeutralScore : Q;
  avgMixedScore : Q
}.

(** An item of the Data table (the Result Store).  [MainTopic] is set on
    subtopic items only; [IsSubtopic] is optional because the filter of
    the run-count scan tests [attribute_exists(IsSubtopic)]. *)
Record DataItem := {
  DataID : Z;
  item_QueryID : Z;
  AnalysisTimestamp : Z;
  item_Topic : jsstring;
  MainTopic : option jsstring;
  PostsAnalyzed : Z;
  PositivePosts : Z;
  NegativePosts : Z;
  NeutralPosts : Z;
  MixedPosts : Z;
  AvgPositiveScore : Q;
  AvgNegativeScore : Q;
  AvgNeutralScore : Q;
  AvgMixedScore : Q;
  item_CreatedAt : Z;
  IsSubtopic : option bool
}.

(** JSON values, as [JSON.parse] returns them. *)
#[local] Unset Elimination Schemes.
Inductive json :=
| JNull
| JBool (b : bool)
| JNumber (q : Q)
| JString (s : jsstring)
| JArray (items : list json)
| JObject (fields : list (jsstring * json)).
#[local] Set Elimination Schemes.

(** The reply of a synchronous Lambda invocation; [Payload] is the text
    that [textDecoder.decode(response.Payload)] yields. *)
Record InvokeResponse := {
  FunctionError : option jsstring;
  Payload : option jsstring
}.

(** The invocation event: an EventBridge Scheduler event with its
    [detail.queryId] and [detail.topic], an API Gateway event with its
    [queryStringParameters] ([queryId] and [topic]), or anything else. *)
Inductive LambdaEvent :=
| ScheduledEvent (detail_queryId : option Z) (detail_topic : option jsstring)
| ApiGatewayEvent (queryStringParameters : option (option jsstring * option jsstring))
| OtherEvent.

(** The body of the handler's HTTP results, before [JSON.stringify]. *)
Inductive ResponseBody :=
| MessageOnly (msg : string)
| IntervalReport (msg : string) (mainTopicAnalyzed mainTopicStored : bool)
                 (runCountAfter intervalsNeeded : Z).

Record APIGatewayProxyResult := { statusCode : Z; body : ResponseBody }.

(** * External services *)

(** The requests the handler sends to external services. *)
Inductive Call :=
| QueriesGet (qid : Z) (topicKey : jsstring)
| QueriesQuery (qid : Z)
| DataScanCount (qid : Z)
| DataPut (item : DataItem)
| CounterUpdate (counterName : string)
| CounterGet (counterName : string)
| CounterPutIfAbsent (counterName : string)
| BskyLogin
| SearchPosts (q : jsstring) (limit : Z)
| DetectSentiment (txt : jsstring)
| DetectKeyPhrases (txt : jsstring)
| SnsSubscribe (endpoint : jsstring)
| SnsPublish (recipient : jsstring) (qid : Z)
| SchedulerDelete (qid : Z)
| LambdaGetSubtopics (qid : Z)
| LambdaAddSubtopic (qid : Z) (subtopic : jsstring).

(** What the handler cannot control: the process environment, the outcome
    of each external call and the built-in functions of the runtime.  The
    outcomes are indexed by the number of calls issued before, so that two
    calls with the same arguments may end differently. *)
Record Env := {
  (* process.env: is the variable set to a non-empty string *)
  QUERIES_TABLE_NAME : bool;
  DATA_TABLE_NAME : bool;
  BLUESKY_HANDLE : bool;
  BLUESKY_APP_PASSWORD : bool;
  (* the call throws this error *)
  fault : nat -> Call -> option JsError;
  (* replies of the calls that do not throw *)
  posts_found : nat -> jsstring -> Z -> list PostView;
  sentiment_reply : nat -> jsstring -> DetectSentimentResponse;
  key_phrases_reply : nat -> jsstring -> option (list (option jsstring));
  subtopics_reply : nat -> Z -> InvokeResponse;
  counter_reply_numeric : nat -> bool;
  (* Date.now() *)
  now : nat -> Z;
  (* built-ins *)
  toLowerCase : jsstring -> jsstring;
  JSON_parse : jsstring -> option json;
  ToNumber : json -> option Q;
  parseInt10 : jsstring -> option Z
}.

(** The stores and the requests issued so far, most recent first.  The
    counters table holds the single counter the handler uses. *)
Record World := {
  queries : list QueryDetails;
  data : list DataItem;
  counter : option Z;
  log : list Call
}.

Definition record_call (c : Call) (w : World) : World :=
  {| queries := queries w; data := data w; counter := counter w;
     log := c :: log w |}.

Definition set_counter (v : Z) (w : World) : World :=
  {| queries := queries w; data := data w; counter := Some v; log := log w |}.

(** Items are appended: the key [(DataID, AnalysisTimestamp)] of a new
    item is taken to be fresh. *)
Definition append_item (it : DataItem) (w : World) : World :=
  {| queries := queries w; data := data w ++ [it]; counter := counter w;
     log := log w |}.

(** * Computations of the handler: state and exceptions *)

Inductive outcome (A : Type) :=
| Ok (a : A)
| Throw (e : JsError).

Arguments Ok {A} a.
Arguments Throw {A} e.

Definition M (A : Type) : Type := World -> outcome A * World.

Definition ret {A} (a : A) : M A := fun w => (Ok a, w).

Definition throw {A} (e : JsError) : M A := fun w => (Throw e, w).

Definition bind {A B} (c : M A) (k : A -> M B) : M B :=
  fun w => match c w with
           | (Ok a, w') => k a w'
           | (Throw e, w') => (Throw e, w')
           end.

(** [try { c } catch (e) { h e }] *)
Definition try_catch {A} (c : M A) (h : JsError -> M A) : M A :=
  fun w => match c w with
           | (Ok a, w') => (Ok a, w')
           | (Throw e, w') => h e w'
           end.

Declare Scope m_scope.
Delimit Scope m_scope with M.
Notation "x <- c ;; k" := (bind c (fun x => k))
  (at level 61, c at next level, right associativity) : m_scope.
Notation "c ;; k" := (bind c (fun _ => k))
  (at level 61, right associativity) : m_scope.
Local Open Scope m_scope.

(** [for (const x of l) { f x }] and the sequential reading of
    [Promise.all(l.map(f))]: the calls are issued in list order. *)
Fixpoint mapM {A B} (f : A -> M B) (l : list A) : M (list B) :=
  match l with
  | [] => ret []
  | x :: l' => y <- f x ;; ys <- mapM f l' ;; ret (y :: ys)
  end.

Fixpoint forM_ {A} (f : A -> M unit) (l : list A) : M unit :=
  match l with
  | [] => ret tt
  | x :: l' => f x ;; forM_ f l'
  end.

(** * The handler and its helpers *)

Definition DATA_COUNTER_NAME : string := "DataCounter".
Definition SUBTOPIC_COUNT : Z := 3.
Definition MAX_SUBTOPIC_LENGTH : Z := 255.

(** Truthiness of optional values. *)
Definition truthy_opt (s : option jsstring) : bool :=
  match s with Some x => JS.truthy x | None => false end.

Definition truthy_msg (s : option string) : bool :=
  match s with Some EmptyString => false | Some _ => true | None => false end.

(** [x || 0] on an optional score. *)
Definition or0 (x : option Q) : Q :=
  match x with Some q => q | None => 0%Q end.

(** [scores?.Positive || 0] and its siblings. *)
Definition score_of (f : SentimentScore -> option Q) (s : option SentimentScore) : Q :=
  match s with Some sc => or0 (f sc) | None => 0%Q end.

Section Lambda.

Variable env : Env.

(** An external call: it is recorded; it throws when the environment
    says so, and otherwise [reply] gives its result and its effect on the
    stores. *)
Definition request {A} (c : Call) (reply : nat -> World -> outcome A * World) : M A :=
  fun w =>
    let t := List.length (log w) in
    let w' := record_call c w in
    match fault env t c with
    | Some e => (Throw e, w')
    | None => reply t w'
    end.

(** [Date.now()] *)
Definition Date_now : M Z := fun w => (Ok (now env (List.length (log w))), w).

(** ** The Queries table *)

Definition has_key (qid : Z) (tp : jsstring) (q : QueryDetails) : bool :=
  (QueryID q =? qid) && JS.str_eqb (Topic q) tp.

(** [GetCommand] with key [(QueryID, Topic)]: [result.Item]. *)
Definition send_QueriesGet (qid : Z) (tp : jsstring) : M (option QueryDetails) :=
  request (QueriesGet qid tp)
          (fun _ w => (Ok (find (has_key qid tp) (queries w)), w)).

(** [QueryCommand] on [QueryID] with [Limit: 1]: [result.Items]. *)
Definition send_QueriesQuery (qid : Z) : M (list QueryDetails) :=
  request (QueriesQuery qid)
          (fun _ w => (Ok (firstn 1 (filter (fun q => QueryID q =? qid) (queries w))), w)).

(** [getQueryDetails(queryId, topicHint)]; messages are abbreviated. *)
Definition getQueryDetails (queryId : Z) (topicHint : option jsstring) : M QueryDetails :=
  if negb (QUERIES_TABLE_NAME env)
  then throw (Error "QUERIES_TABLE_NAME environment variable is not set.")
  else
    byKey <- (if truthy_opt topicHint
              then try_catch
                     (send_QueriesGet queryId (match topicHint with Some h => h | None => [] end))
                     (fun _ => ret None)
              else ret None) ;;
    match byKey with
    | Some item => ret item
    | None =>
        try_catch
          (items <- send_QueriesQuery queryId ;;
           match items with
           | item :: _ => ret item
           | [] => throw (Error "Query details not found using QueryCommand.")
           end)
          (fun e => throw (Error ("Failed to fetch query details: " ++ message e)))
    end.

(** ** The counter *)

(** [UpdateCommand] with [SET CurrentValue = if_not_exists(CurrentValue, 0) + 1]
    and [ReturnValues: 'UPDATED_NEW']: the result is
    [result.Attributes.CurrentValue] when it is a number. *)
Definition send_CounterUpdate (counterName : string) : M (option Z) :=
  request (CounterUpdate counterName)
          (fun t w =>
             let v := match counter w with Some c => c | None => 0 end + 1 in
             (Ok (if counter_reply_numeric env t then Some v else None),
              set_counter v w)).

(** [GetCommand] on the counter: [getResult.Item.CurrentValue] when it is a
    number. *)
Definition send_CounterGet (counterName : string) : M (option Z) :=
  request (CounterGet counterName) (fun _ w => (Ok (counter w), w)).

(** [PutCommand] of [CurrentValue: 1] under
    [attribute_not_exists(CounterName)]. *)
Definition send_CounterPutIfAbsent (counterName : string) : M unit :=
  request (CounterPutIfAbsent counterName)
          (fun _ w =>
             match counter w with
             | None => (Ok tt, set_counter 1 w)
             | Some _ =>
                 (Throw (mkError "ConditionalCheckFailedException"
                                 "The conditional request failed"), w)
             end).

(** [getNextDataId(counterName)]; [COUNTERS_TABLE_NAME] has a default and
    is always set. *)
Definition getNextDataId (counterName : string) : M Z :=
  try_catch
    (result <- send_CounterUpdate counterName ;;
     match result with
     | Some nextId => ret nextId
     | None =>
         recovered <-
           try_catch
             (getResult <- send_CounterGet counterName ;;
              match getResult with
              | Some _ => send_CounterUpdate counterName
              | None => ret None
              end)
             (fun _ => ret None) ;;
         match recovered with
         | Some v => ret v
         | None =>
             try_catch
               (send_CounterPutIfAbsent counterName ;; ret 1)
               (fun initError =>
                  if String.eqb (name initError) "ConditionalCheckFailedException"
                  then finalRetryResult <- send_CounterUpdate counterName ;;
                       match finalRetryResult with
                       | Some v => ret v
                       | None =>
                           throw (Error "Failed to update counter even after initialization race condition.")
                       end
                  else throw (Error ("Failed to initialize counter: " ++ message initError)))
         end
     end)
    (fun e => throw (Error ("Failed to get next ID: " ++ message e))).

(** ** The Data table *)

Definition send_DataPut (item : DataItem) : M unit :=
  request (DataPut item) (fun _ w => (Ok tt, append_item item w)).

(** The filter of the run-count scan:
    [QueryID = :qid AND attribute_exists(IsSubtopic) AND IsSubtopic = :isfalse]. *)
Definition is_main_run (qid : Z) (it : DataItem) : bool :=
  (item_QueryID it =? qid)
  && match IsSubtopic it with Some b => negb b | None => false end.

(** [ScanCommand] with [Select: 'COUNT'], read as one page:
    [countResult.Count ?? 0]. *)
Definition send_DataScanCount (qid : Z) : M Z :=
  request (DataScanCount qid)
          (fun _ w => (Ok (Z.of_nat (List.length (filter (is_main_run qid) (data w)))), w)).

Definition main_item (dataId createdAt : Z) (summary : SentimentSummary) : DataItem :=
  {| DataID := dataId;
     item_QueryID := queryId summary;
     AnalysisTimestamp := timestamp summary;
     item_Topic := topic summary;
     MainTopic := None;
     PostsAnalyzed := totalPostsAnalyzed summary;
     PositivePosts := positivePosts summary;
     NegativePosts := negativePosts summary;
     NeutralPosts := neutralPosts summary;
     MixedPosts := mixedPosts summary;
     AvgPositiveScore := avgPositiveScore summary;
     AvgNegativeScore := avgNegativeScore summary;
     AvgNeutralScore := avgNeutralScore summary;
     AvgMixedScore := avgMixedScore summary;
     item_CreatedAt := createdAt / 1000;
     IsSubtopic := Some false |}.

Definition subtopic_item (dataId createdAt : Z) (summary : SentimentSummary)
           (subtopic mainTopic : jsstring) : DataItem :=
  {| DataID := dataId;
     item_QueryID := queryId summary;
     AnalysisTimestamp := timestamp summary;
     item_Topic := subtopic;
     MainTopic := Some mainTopic;
     PostsAnalyzed := totalPostsAnalyzed summary;
     PositivePosts := positivePosts summary;
     NegativePosts := negativePosts summary;
     NeutralPosts := neutralPosts summary;
     MixedPosts := mixedPosts summary;
     AvgPositiveScore := avgPositiveScore summary;
     AvgNegativeScore := avgNegativeScore summary;
     AvgNeutralScore := avgNeutralScore summary;
     AvgMixedScore := avgMixedScore summary;
     item_CreatedAt := createdAt / 1000;
     IsSubtopic := Some true |}.

(** [storeAnalysisResults(summary)] *)
Definition storeAnalysisResults (summary : SentimentSummary) : M unit :=
  if negb (DATA_TABLE_NAME env)
  then throw (Error "DATA_TABLE_NAME environment variable is not set.")
  else
    dataId <- getNextDataId DATA_COUNTER_NAME ;;
    try_catch
      (createdAt <- Date_now ;;
       send_DataPut (main_item dataId createdAt summary))
      (fun e => throw (Error ("Failed to store analysis results: " ++ message e))).

(** [storeSubtopicAnalysisResults(summary, subtopic, mainTopic)] *)
Definition storeSubtopicAnalysisResults (summary : SentimentSummary)
           (subtopic mainTopic : jsstring) : M unit :=
  if negb (DATA_TABLE_NAME env)
  then throw (Error "DATA_TABLE_NAME environment variable is not set.")
  else
    dataId <- getNextDataId DATA_COUNTER_NAME ;;
    try_catch
      (createdAt <- Date_now ;;
       send_DataPut (subtopic_item dataId createdAt summary subtopic mainTopic))
      (fun e => throw (Error ("Failed to store subtopic analysis results: " ++ message e))).

(** ** Schedule and notification *)

(** [deleteSchedule(queryId)]: the schedule name is derived from the id;
    both branches of the catch only log. *)
Definition deleteSchedule (queryId : Z) : M unit :=
  try_catch
    (request (SchedulerDelete queryId) (fun _ w => (Ok tt, w)))
    (fun _ => ret tt).

(** [triggerEmailNotification(queryDetails)] *)
Definition triggerEmailNotification (queryDetails : QueryDetails) : M unit :=
  if negb (JS.truthy (Email queryDetails))
  then ret tt
  else request (SnsPublish (Email queryDetails) (QueryID queryDetails))
               (fun _ w => (Ok tt, w)).

(** [triggerAddSubtopicLambda(queryId, subtopic)]; the function name has a
    default and is always set. *)
Definition triggerAddSubtopicLambda (queryId : Z) (subtopic : jsstring) : M unit :=
  let truncatedSubtopic :=
    if JS.length subtopic >? MAX_SUBTOPIC_LENGTH
    then JS.substring0 MAX_SUBTOPIC_LENGTH subtopic
    else subtopic in
  if negb (JS.truthy truncatedSubtopic)
  then ret tt
  else
    try_catch
      (request (LambdaAddSubtopic queryId truncatedSubtopic) (fun _ w => (Ok tt, w)))
      (fun _ => ret tt).

(** ** The subtopic list *)

(** Property access [v.key] on a parsed value: [None] is [undefined].
    The last of several bindings of a key is the one [JSON.parse] keeps. *)
Fixpoint assoc_last (key : jsstring) (fields : list (jsstring * json)) : option json :=
  match fields with
  | [] => None
  | (k, v) :: rest =>
      match assoc_last key rest with
      | Some x => Some x
      | None => if JS.str_eqb k key then Some v else None
      end
  end.

Definition prop (key : jsstring) (v : json) : option json :=
  match v with
  | JObject fields => assoc_last key fields
  | _ => None
  end.

Definition json_truthy (v : json) : bool :=
  match v with
  | JNull => false
  | JBool b => b
  | JNumber q => negb (Qeq_bool q 0)
  | JString s => JS.truthy s
  | JArray _ | JObject _ => true
  end.

Definition is_string (v : json) : bool :=
  match v with JString _ => true | _ => false end.

(** [s.trim() !== ''] *)
Definition nonblank (s : jsstring) : bool := JS.truthy (JS.trim s).

(** The strings of an array that pass [(s) => s && s.trim() !== '']. *)
Definition nonblank_strings (items : list json) : list jsstring :=
  flat_map (fun v => match v with
                     | JString s => if JS.truthy s && nonblank s then [s] else []
                     | _ => []
                     end) items.

(** [bodyPayload.map((item) => item?.Subtopic)
       .filter((s) => typeof s === 'string' && s.trim() !== '')] *)
Definition subtopic_fields (items : list json) : list jsstring :=
  flat_map (fun item => match prop (JS.lit "Subtopic") item with
                        | Some (JString s) => if nonblank s then [s] else []
                        | _ => []
                        end) items.

(** The number a value is compared as; [None] is [NaN]. *)
Definition number_of (v : option json) : option Q :=
  match v with
  | None => None
  | Some (JNumber q) => Some q
  | Some JNull => Some 0%Q
  | Some (JBool b) => Some (if b then 1%Q else 0%Q)
  | Some other => ToNumber env other
  end.

(** [sc === 200 || (sc >= 200 && sc < 300)] *)
Definition status_2xx (sc : option json) : bool :=
  match sc with Some (JNumber q) => Qeq_bool q 200 | _ => false end
  || match number_of sc with
     | Some q => Qle_bool 200 q && negb (Qle_bool 300 q)
     | None => false
     end.

(** [responsePayload && typeof responsePayload.body === 'string' &&
     (statusCode === 200 || (statusCode >= 200 && statusCode < 300))] *)
Definition api_gateway_like (responsePayload : json) : bool :=
  json_truthy responsePayload
  && match prop (JS.lit "body") responsePayload with
     | Some b => is_string b
     | None => false
     end
  && status_2xx (prop (JS.lit "statusCode") responsePayload).

Definition body_of (responsePayload : json) : jsstring :=
  match prop (JS.lit "body") responsePayload with
  | Some (JString b) => b
  | _ => []
  end.

(** [JSON.parse(s)], which throws on text that is not JSON. *)
Definition parse (s : jsstring) : M json :=
  match JSON_parse env s with
  | Some v => ret v
  | None => throw (mkError "SyntaxError" "Unexpected token in JSON")
  end.

(** [getSubtopics(queryId)]; the function name has a default and is
    always set. *)
Definition getSubtopics (queryId : Z) : M (list jsstring) :=
  try_catch
    (response <- request (LambdaGetSubtopics queryId)
                         (fun t w => (Ok (subtopics_reply env t queryId), w)) ;;
     if truthy_opt (FunctionError response) then ret []
     else
       match Payload response with
       | Some responsePayloadString =>
           responsePayload <- parse responsePayloadString ;;
           match responsePayload with
           | JArray items =>
               if forallb is_string items then ret (nonblank_strings items)
               else ret []
           | _ =>
               if api_gateway_like responsePayload then
                 try_catch
                   (bodyPayload <- parse (body_of responsePayload) ;;
                    match bodyPayload with
                    | JArray items => ret (subtopic_fields items)
                    | _ => ret []
                    end)
                   (fun _ => ret [])
               else if api_gateway_like responsePayload then
                 try_catch
                   (bodyPayload <- parse (body_of responsePayload) ;;
                    match bodyPayload with
                    | JArray items =>
                        if forallb is_string items then ret (nonblank_strings items)
                        else ret []
                    | _ => ret []
                    end)
                   (fun _ => ret [])
               else ret []
           end
       | None => ret []
       end)
    (fun _ => ret []).

(** ** Sentiment analysis of a search term *)

(** The callback mapped over the posts in [analyzeSentimentForTerm]. *)
Definition scorePost (postView : PostView) : M PostWithAnalysis :=
  match text postView with
  | Some postText =>
      if JS.blank (Some postText)
      then ret {| post := postView; sentimentAnalysis := None; keyPhraseAnalysis := None |}
      else
        try_catch
          (sentimentData <- request (DetectSentiment (textToAnalyze postText))
                                    (fun t w => (Ok (sentiment_reply env t (textToAnalyze postText)), w)) ;;
           ret {| post := postView;
                  sentimentAnalysis :=
                    Some {| sentiment := Sentiment sentimentData;
                            scores := SentimentScore_ sentimentData;
                            error := None |};
                  keyPhraseAnalysis := None |})
          (fun comprehendError =>
             ret {| post := postView;
                    sentimentAnalysis :=
                      Some {| sentiment := None;
                              scores := None;
                              error := Some (message comprehendError) |};
                    keyPhraseAnalysis := None |})
  | None => ret {| post := postView; sentimentAnalysis := None; keyPhraseAnalysis := None |}
  end.

(** The running totals of the summary loop. *)
Record Tally := {
  analyzedCount : Z;
  n_positive : Z;
  n_negative : Z;
  n_neutral : Z;
  n_mixed : Z;
  totalPositiveScore : Q;
  totalNegativeScore : Q;
  totalNeutralScore : Q;
  totalMixedScore : Q
}.

Definition tally0 : Tally :=
  {| analyzedCount := 0; n_positive := 0; n_negative := 0; n_neutral := 0;
     n_mixed := 0; totalPositiveScore := 0%Q; totalNegativeScore := 0%Q;
     totalNeutralScore := 0%Q; totalMixedScore := 0%Q |}.

(** [p.sentimentAnalysis && !p.sentimentAnalysis.error &&
     p.sentimentAnalysis.sentiment] *)
Definition counted (p : PostWithAnalysis) : bool :=
  match sentimentAnalysis p with
  | Some a => negb (truthy_msg (error a)) && truthy_opt (sentiment a)
  | None => false
  end.

Definition is_label (l : string) (s : option jsstring) : bool :=
  match s with Some x => JS.str_eqb x (JS.lit l) | None => false end.

Definition bump (b : bool) (n : Z) : Z := if b then n + 1 else n.

(** The body of [postsWithSentiment.forEach]. *)
Definition tally_post (acc : Tally) (p : PostWithAnalysis) : Tally :=
  match sentimentAnalysis p with
  | Some a =>
      if negb (truthy_msg (error a)) && truthy_opt (sentiment a) then
        {| analyzedCount := analyzedCount acc + 1;
           n_positive := bump (is_label "POSITIVE" (sentiment a)) (n_positive acc);
           n_negative := bump (is_label "NEGATIVE" (sentiment a)) (n_negative acc);
           n_neutral := bump (is_label "NEUTRAL" (sentiment a)) (n_neutral acc);
           n_mixed := bump (is_label "MIXED" (sentiment a)) (n_mixed acc);
           totalPositiveScore := (totalPositiveScore acc + score_of Positive (scores a))%Q;
           totalNegativeScore := (totalNegativeScore acc + score_of Negative (scores a))%Q;
           totalNeutralScore := (totalNeutralScore acc + score_of Neutral (scores a))%Q;
           totalMixedScore := (totalMixedScore acc + score_of Mixed (scores a))%Q |}
      else acc
  | None => acc
  end.

(** [analyzedCount > 0 ? total / analyzedCount : 0] *)
Definition average (total : Q) (count : Z) : Q :=
  if count >? 0 then (total / inject_Z count)%Q else 0%Q.

(** The summary computed from the analysed posts, or [null] when none
    could be analysed. *)
Definition summarize (queryIdForContext : Z) (term : jsstring) (time : Z)
           (postsWithSentiment : list PostWithAnalysis) : option SentimentSummary :=
  let t := fold_left tally_post postsWithSentiment tally0 in
  if analyzedCount t =? 0 then None
  else Some {| queryId := queryIdForContext;
               topic := term;
               timestamp := time;
               totalPostsAnalyzed := analyzedCount t;
               positivePosts := n_positive t;
               negativePosts := n_negative t;
               neutralPosts := n_neutral t;
               mixedPosts := n_mixed t;
               avgPositiveScore := average (totalPositiveScore t) (analyzedCount t);
               avgNegativeScore := average (totalNegativeScore t) (analyzedCount t);
               avgNeutralScore := average (totalNeutralScore t) (analyzedCount t);
               avgMixedScore := average (totalMixedScore t) (analyzedCount t) |}.

(** [analyzeSentimentForTerm(agent, term, limit, queryIdForContext)]:
    the summary and the posts found. *)
Definition analyzeSentimentForTerm (term : jsstring) (limit : Z) (queryIdForContext : Z)
  : M (option SentimentSummary * list PostView) :=
  try_catch
    (posts <- request (SearchPosts term limit)
                      (fun t w => (Ok (posts_found env t term limit), w)) ;;
     match posts with
     | [] => ret (None, [])
     | _ =>
         postsWithSentiment <- mapM scorePost posts ;;
         time <- Date_now ;;
         ret (summarize queryIdForContext term time postsWithSentiment, posts)
     end)
    (fun _ => ret (None, [])).

(** ** Key phrases and the choice of subtopics *)

(** [keyPhraseData.KeyPhrases?.map((kp) => kp.Text ?? '').filter((text) => text) ?? []] *)
Definition phrase_texts (keyPhrases : option (list (option jsstring))) : list jsstring :=
  match keyPhrases with
  | Some kps => filter JS.truthy (map (fun kp => match kp with Some t => t | None => [] end) kps)
  | None => []
  end.

(** The callback mapped over the main topic's posts on the first run. *)
Definition keyPhrasePost (postView : PostView) : M PostWithAnalysis :=
  match text postView with
  | Some postText =>
      if JS.blank (Some postText)
      then ret {| post := postView; sentimentAnalysis := None; keyPhraseAnalysis := None |}
      else
        try_catch
          (keyPhraseData <- request (DetectKeyPhrases (textToAnalyze postText))
                                    (fun t w => (Ok (key_phrases_reply env t (textToAnalyze postText)), w)) ;;
           ret {| post := postView;
                  sentimentAnalysis := None;
                  keyPhraseAnalysis :=
                    Some {| phrases := Some (phrase_texts keyPhraseData);
                            kp_error := None |} |})
          (fun comprehendError =>
             ret {| post := postView;
                    sentimentAnalysis := None;
                    keyPhraseAnalysis :=
                      Some {| phrases := Some [];
                              kp_error := Some (message comprehendError) |} |})
  | None => ret {| post := postView; sentimentAnalysis := None; keyPhraseAnalysis := None |}
  end.

(** [phrase.toLowerCase().trim()] *)
Definition normalize (phrase : jsstring) : jsstring := JS.trim (toLowerCase env phrase).

(** [normalizedPhrase && normalizedPhrase.length > 2 &&
     normalizedPhrase !== mainTopic.toLowerCase().trim()] *)
Definition acceptable (mainTopic normalizedPhrase : jsstring) : bool :=
  JS.truthy normalizedPhrase
  && (JS.length normalizedPhrase >? 2)
  && negb (JS.str_eqb normalizedPhrase (normalize mainTopic)).

(** [phraseCounts[k] = (phraseCounts[k] || 0) + 1] on an object used as a
    map, its string keys in insertion order.  Keys that name a member of
    [Object.prototype] are not told apart from other keys. *)
Fixpoint increment (k : jsstring) (counts : list (jsstring * Z)) : list (jsstring * Z) :=
  match counts with
  | [] => [(k, 1)]
  | (k', n) :: rest =>
      if JS.str_eqb k' k then (k', n + 1) :: rest else (k', n) :: increment k rest
  end.

Definition count_phrase (mainTopic : jsstring) (counts : list (jsstring * Z))
           (phrase : jsstring) : list (jsstring * Z) :=
  if acceptable mainTopic (normalize phrase)
  then increment (normalize phrase) counts
  else counts.

Definition count_post (mainTopic : jsstring) (counts : list (jsstring * Z))
           (p : PostWithAnalysis) : list (jsstring * Z) :=
  match keyPhraseAnalysis p with
  | Some a =>
      if negb (truthy_msg (kp_error a))
      then match phrases a with
           | Some ps => fold_left (count_phrase mainTopic) ps counts
           | None => counts
           end
      else counts
  | None => counts
  end.

Definition phraseCounts (mainTopic : jsstring) (postsWithKeyPhrases : list PostWithAnalysis)
  : list (jsstring * Z) :=
  fold_left (count_post mainTopic) postsWithKeyPhrases [].

(** A stable insertion sort: [ahead y x] says that [y] must come before
    [x] although [x] was met first. *)
Fixpoint insert_by {A} (ahead : A -> A -> bool) (x : A) (l : list A) : list A :=
  match l with
  | [] => [x]
  | y :: l' => if ahead y x then y :: insert_by ahead x l' else x :: y :: l'
  end.

Definition sort_by {A} (ahead : A -> A -> bool) (l : list A) : list A :=
  fold_right (insert_by ahead) [] l.

(** Keys that are array indices: canonical decimal numerals below
    [2^32 - 1]. *)
Definition digit (u : Z) : option Z :=
  if (48 <=? u) && (u <=? 57) then Some (u - 48) else None.

Fixpoint decimal (acc : Z) (s : jsstring) : option Z :=
  match s with
  | [] => Some acc
  | u :: s' => match digit u with
               | Some d => decimal (acc * 10 + d) s'
               | None => None
               end
  end.

Definition array_index (k : jsstring) : option Z :=
  match k with
  | [] => None
  | [u] => digit u
  | u :: _ =>
      if u =? 48 then None
      else match decimal 0 k with
           | Some n => if n <? 4294967295 then Some n else None
           | None => None
           end
  end.

Definition is_index (e : jsstring * Z) : bool :=
  match array_index (fst e) with Some _ => true | None => false end.

Definition index_ahead (y x : jsstring * Z) : bool :=
  match array_index (fst y), array_index (fst x) with
  | Some a, Some b => a <? b
  | _, _ => false
  end.

(** [Object.entries(counts)]: array-index keys in ascending order, then
    the other keys in insertion order. *)
Definition Object_entries (counts : list (jsstring * Z)) : list (jsstring * Z) :=
  sort_by index_ahead (filter is_index counts)
  ++ filter (fun e => negb (is_index e)) counts.

(** [entries.sort(([, countA], [, countB]) => countB - countA)] *)
Definition count_ahead (y x : jsstring * Z) : bool := snd x <? snd y.

Definition sortedPhrases (counts : list (jsstring * Z)) : list (jsstring * Z) :=
  sort_by count_ahead (Object_entries counts).

(** [sortedPhrases.slice(0, SUBTOPIC_COUNT + 1).map(([phrase]) => phrase)] *)
Definition potentialSubtopics (counts : list (jsstring * Z)) : list jsstring :=
  map fst (firstn (Z.to_nat (SUBTOPIC_COUNT + 1)) (sortedPhrases counts)).

(** [phrase.toLowerCase().trim() !== normalizedMainTopic] *)
Definition not_main_topic (mainTopic phrase : jsstring) : bool :=
  negb (JS.str_eqb (normalize phrase) (normalize mainTopic)).

(** [potentialSubtopics.filter(...).slice(0, SUBTOPIC_COUNT)] *)
Definition finalSubtopics (mainTopic : jsstring) (counts : list (jsstring * Z)) : list jsstring :=
  firstn (Z.to_nat SUBTOPIC_COUNT)
         (filter (not_main_topic mainTopic) (potentialSubtopics counts)).

(** ** The blocks of [handler] *)

(** The block under [if (currentRunCount === 0)]: the owner's
    subscription, then key phrases and subtopics. *)
Definition firstRunActions (queryDetails : QueryDetails) (queryId : Z)
           (mainTopicPosts : list PostView) : M unit :=
  request (SnsSubscribe (Email queryDetails)) (fun _ w => (Ok tt, w)) ;;
  match mainTopicPosts with
  | [] => ret tt
  | _ =>
      postsWithKeyPhrases <- mapM keyPhrasePost mainTopicPosts ;;
      forM_ (triggerAddSubtopicLambda queryId)
            (finalSubtopics (Topic queryDetails)
                            (phraseCounts (Topic queryDetails) postsWithKeyPhrases))
  end.

(** Step 6a, the [try] around the main topic's analysis; the result is
    [mainTopicStoredSuccessfullyThisRun].  The flag is set right after
    [storeAnalysisResults] returns, so an exception of the first-run block
    reaches the [catch] with the flag set. *)
Definition analyzeMainTopic (queryDetails : QueryDetails) (queryId currentRunCount : Z) : M bool :=
  try_catch
    (mainTopicAnalysisResult <-
       analyzeSentimentForTerm (Topic queryDetails) (PostsToAnalyze queryDetails) queryId ;;
     match fst mainTopicAnalysisResult with
     | Some summary =>
         storeAnalysisResults summary ;;
         try_catch
           (if currentRunCount =? 0
            then firstRunActions queryDetails queryId (snd mainTopicAnalysisResult)
            else ret tt)
           (fun _ => ret tt) ;;
         ret true
     | None => ret false
     end)
    (fun _ => ret false).

(** The body of the loop over the subtopics in step 6c. *)
Definition analyzeSubtopic (queryDetails : QueryDetails) (queryId : Z) (subtopic : jsstring) : M unit :=
  try_catch
    (subtopicAnalysisResult <-
       analyzeSentimentForTerm subtopic (PostsToAnalyze queryDetails) queryId ;;
     match fst subtopicAnalysisResult with
     | Some summary => storeSubtopicAnalysisResults summary subtopic (Topic queryDetails)
     | None => ret tt
     end)
    (fun _ => ret tt).

(** Step 6c. *)
Definition analyzeSubtopics (queryDetails : QueryDetails) (queryId currentRunCount : Z) : M unit :=
  if currentRunCount >? 0 then
    subtopics <- getSubtopics queryId ;;
    forM_ (analyzeSubtopic queryDetails queryId) subtopics
  else ret tt.

(** Step 7; the result is [effectiveRunCountAfterThisExecution]. *)
Definition finalCheckAndCleanup (queryDetails : QueryDetails) (queryId currentRunCount : Z)
           (mainTopicStoredSuccessfullyThisRun : bool) : M Z :=
  let effectiveRunCountAfterThisExecution :=
    currentRunCount + (if mainTopicStoredSuccessfullyThisRun then 1 else 0) in
  (if effectiveRunCountAfterThisExecution >=? NumIntervals queryDetails
   then triggerEmailNotification queryDetails ;; deleteSchedule queryId
   else ret tt) ;;
  ret effectiveRunCountAfterThisExecution.

Definition isScheduledEvent (event : LambdaEvent) : bool :=
  match event with ScheduledEvent _ _ => true | _ => false end.

Definition is_status (l : string) (st : option jsstring) : bool :=
  match st with Some x => JS.str_eqb x (JS.lit l) | None => false end.

(** Steps 4 and 5: the credentials and the login. *)
Definition authenticate : M unit :=
  if negb (BLUESKY_HANDLE env) || negb (BLUESKY_APP_PASSWORD env)
  then throw (Error "Server configuration error: Missing Bluesky credentials.")
  else
    try_catch
      (request BskyLogin (fun _ w => (Ok tt, w)))
      (fun loginError => throw (Error ("Bluesky authentication failed: " ++ message loginError))).

(** Steps 6 to 8: analysis, cleanup and the result. *)
Definition analyzeInterval (event : LambdaEvent) (queryDetails : QueryDetails)
           (queryId currentRunCount : Z) : M (option APIGatewayProxyResult) :=
  mainTopicStoredSuccessfullyThisRun <- analyzeMainTopic queryDetails queryId currentRunCount ;;
  analyzeSubtopics queryDetails queryId currentRunCount ;;
  effectiveRunCountAfterThisExecution <-
    finalCheckAndCleanup queryDetails queryId currentRunCount mainTopicStoredSuccessfullyThisRun ;;
  if isScheduledEvent event then ret None
  else ret (Some {| statusCode := 200;
                    body := IntervalReport
                              (if mainTopicStoredSuccessfullyThisRun
                               then "Analysis complete for interval (main topic stored)."
                               else "Analysis attempted for interval (main topic not stored).")
                              true
                              mainTopicStoredSuccessfullyThisRun
                              effectiveRunCountAfterThisExecution
                              (NumIntervals queryDetails) |}).

(** Step 3: the run count, read from the Data table. *)
Definition checkRunCount (queryId : Z) : M Z :=
  try_catch
    (send_DataScanCount queryId)
    (fun e => throw (Error ("Failed to fetch run count: " ++ message e))).

(** Steps 2 to 8, once the event gave a query id; of the three table
    names tested first, [COUNTERS_TABLE_NAME] has a default and is always
    set. *)
Definition processQuery (event : LambdaEvent) (queryId : Z) (topicFromEvent : option jsstring)
  : M (option APIGatewayProxyResult) :=
  if negb (QUERIES_TABLE_NAME env) || negb (DATA_TABLE_NAME env)
  then throw (Error "Server configuration error: Missing table names.")
  else
    queryDetails <- getQueryDetails queryId topicFromEvent ;;
    if is_status "COMPLETED" (Status queryDetails) || is_status "CANCELLED" (Status queryDetails)
    then deleteSchedule queryId ;; ret None
    else
      currentRunCount <- checkRunCount queryId ;;
      if currentRunCount >=? NumIntervals queryDetails
      then triggerEmailNotification queryDetails ;;
           deleteSchedule queryId ;;
           ret None
      else authenticate ;;
           analyzeInterval event queryDetails queryId currentRunCount.

(** Step 1: the query id and the topic hint of the event; [Ok None] is
    the manual invocation without a usable [queryId] parameter. *)
Definition extractQueryInfo (event : LambdaEvent) : outcome (option (Z * option jsstring)) :=
  match event with
  | ScheduledEvent (Some queryId) topicFromEvent => Ok (Some (queryId, topicFromEvent))
  | ScheduledEvent None _ => Throw (Error "Invalid scheduled event payload: Missing queryId.")
  | ApiGatewayEvent (Some (Some queryIdParam, topicFromEvent)) =>
      match (if JS.truthy queryIdParam then parseInt10 env queryIdParam else None) with
      | Some queryId => Ok (Some (queryId, topicFromEvent))
      | None => Ok None
      end
  | _ => Ok None
  end.

(** [handler(event)]; the result [None] is a handler that returns
    nothing. *)
Definition handler (event : LambdaEvent) : M (option APIGatewayProxyResult) :=
  match extractQueryInfo event with
  | Ok (Some (queryId, topicFromEvent)) => processQuery event queryId topicFromEvent
  | Ok None =>
      ret (Some {| statusCode := 400;
                   body := MessageOnly "Manual invocation requires 'queryId' parameter." |})
  | Throw e => throw e
  end.

End Lambda.

(** * Notions used in the statements *)

(** ** Runs of the main topic *)

(** A Result record of the main topic of [queryId]. *)
Definition tagged_main (queryId : Z) (it : DataItem) : bool :=
  (item_QueryID it =? queryId)
  && match IsSubtopic it with Some false => true | _ => false end.

(** The run count of the spec: the number of Result records of the query
    with [isSubtopic = false]. *)
Definition main_runs (queryId : Z) (items : list DataItem) : Z :=
  Z.of_nat (List.length (filter (tagged_main queryId) items)).

Definition is_subtopic_item (it : DataItem) : Prop := IsSubtopic it = Some true.


(** ** Calls and stores *)

Inductive Service :=
| SvcQueries | SvcScan | SvcPut | SvcCounter | SvcLogin | SvcSearch
| SvcSentiment | SvcKeyPhrases | SvcSubscribe | SvcPublish | SvcScheduler
| SvcGetSubtopics | SvcAddSubtopic.

Definition service (c : Call) : Service :=
  match c with
  | QueriesGet _ _ | QueriesQuery _ => SvcQueries
  | DataScanCount _ => SvcScan
  | DataPut _ => SvcPut
  | CounterUpdate _ | CounterGet _ | CounterPutIfAbsent _ => SvcCounter
  | BskyLogin => SvcLogin
  | SearchPosts _ _ => SvcSearch
  | DetectSentiment _ => SvcSentiment
  | DetectKeyPhrases _ => SvcKeyPhrases
  | SnsSubscribe _ => SvcSubscribe
  | SnsPublish _ _ => SvcPublish
  | SchedulerDelete _ => SvcScheduler
  | LambdaGetSubtopics _ => SvcGetSubtopics
  | LambdaAddSubtopic _ _ => SvcAddSubtopic
  end.

Definition Service_eqb (a b : Service) : bool :=
  match a, b with
  | SvcQueries, SvcQueries | SvcScan, SvcScan | SvcPut, SvcPut
  | SvcCounter, SvcCounter | SvcLogin, SvcLogin | SvcSearch, SvcSearch
  | SvcSentiment, SvcSentiment | SvcKeyPhrases, SvcKeyPhrases
  | SvcSubscribe, SvcSubscribe | SvcPublish, SvcPublish
  | SvcScheduler, SvcScheduler | SvcGetSubtopics, SvcGetSubtopics
  | SvcAddSubtopic, SvcAddSubtopic => true
  | _, _ => false
  end.

(** The services of a list, as a test. *)
Definition only (l : list Service) (s : Service) : bool :=
  existsb (fun x => Service_eqb x s) l.

(** The calls to the services of [l], among [calls]. *)
Definition calls_to (l : list Service) (calls : list Call) : list Call :=
  filter (fun c => only l (service c)) calls.

(** From [w] to [w']: the calls issued, most recent first, and the items
    stored. *)
Definition grows (w w' : World) (new : list Call) (added : list DataItem) : Prop :=
  log w' = new ++ log w /\ data w' = data w ++ added /\ queries w' = queries w.

(** A computation that calls only the services [allowed] and stores only
    items that satisfy [PI]. *)
Definition footprint {A} (allowed : Service -> bool) (PI : DataItem -> Prop) (c : M A) : Prop :=
  forall w, exists new added,
    grows w (snd (c w)) new added /\
    Forall (fun c => allowed (service c) = true) new /\ Forall PI added.

Definition nothing (it : DataItem) : Prop := False.

Definition same_stores (w w' : World) : Prop :=
  queries w' = queries w /\ data w' = data w /\ counter w' = counter w.

(** Computations that never throw. *)
Definition safe {A} (c : M A) : Prop := forall w, exists a, fst (c w) = Ok a.

(** The services of step 6a; the first-run services are called only when
    [first_run_stored]. *)
Definition allowed_main (first_run_stored : bool) (s : Service) : bool :=
  match s with
  | SvcSearch | SvcSentiment | SvcCounter | SvcPut => true
  | SvcSubscribe | SvcKeyPhrases | SvcAddSubtopic => first_run_stored
  | _ => false
  end.

(** Key-phrase extraction and subtopic registration. *)
Definition discovery (c : Call) : Prop :=
  service c = SvcKeyPhrases \/ service c = SvcAddSubtopic.

(** ** Entry of an invocation *)

Definition active (qd : QueryDetails) : bool :=
  negb (is_status "COMPLETED" (Status qd) || is_status "CANCELLED" (Status qd)).

(** The invocation found its topic record, still active, and computed the
    run count [rc]; [w2] is the world at that point. *)
Definition reaches_run_count (env : Env) (event : LambdaEvent) (w : World)
           (queryId : Z) (qd : QueryDetails) (rc : Z) (w2 : World) : Prop :=
  exists hint w1,
    extractQueryInfo env event = Ok (Some (queryId, hint)) /\
    DATA_TABLE_NAME env = true /\
    getQueryDetails env queryId hint w = (Ok qd, w1) /\
    active qd = true /\
    checkRunCount env queryId w1 = (Ok rc, w2).

(** The invocation passed the entry guards and logged in: the analysis
    starts in [w3]. *)
Definition enters (env : Env) (event : LambdaEvent) (w : World)
           (queryId : Z) (qd : QueryDetails) (rc : Z) (w3 : World) : Prop :=
  exists w2,
    reaches_run_count env event w queryId qd rc w2 /\
    rc < NumIntervals qd /\
    authenticate env w2 = (Ok tt, w3).

(** [effectiveRunCountAfterThisExecution] *)
Definition effective (rc : Z) (stored : bool) : Z := rc + (if stored then 1 else 0).

(** The result of an invocation that ran to the end of step 8. *)
Definition report (event : LambdaEvent) (qd : QueryDetails) (stored : bool) (eff : Z)
  : option APIGatewayProxyResult :=
  if isScheduledEvent event then None
  else Some {| statusCode := 200;
               body := IntervalReport
                         (if stored
                          then "Analysis complete for interval (main topic stored)."
                          else "Analysis attempted for interval (main topic not stored).")
                         true stored eff (NumIntervals qd) |}.

(** The world after a sequence of invocations. *)
Fixpoint run_all (env : Env) (events : list LambdaEvent) (w : World) : World :=
  match events with
  | [] => w
  | event :: rest => run_all env rest (snd (handler env event w))
  end.

(** ** Successfully scored posts *)

(** The replies of the scorer for the posts that were successfully
    scored: the post has text, the call did not fail and the reply names a
    sentiment.  [t] is the number of calls issued before the first post is
    handled. *)
Fixpoint successfully_scored (env : Env) (t : nat) (posts : list PostView)
  : list DetectSentimentResponse :=
  match posts with
  | [] => []
  | p :: rest =>
      if JS.blank (text p) then successfully_scored env t rest
      else
        let txt := textToAnalyze (match text p with Some x => x | None => [] end) in
        match fault env t (DetectSentiment txt) with
        | Some _ => successfully_scored env (S t) rest
        | None =>
            if truthy_opt (Sentiment (sentiment_reply env t txt))
            then sentiment_reply env t txt :: successfully_scored env (S t) rest
            else successfully_scored env (S t) rest
        end
  end.

Definition label_count (l : string) (rs : list DetectSentimentResponse) : Z :=
  Z.of_nat (List.length (filter (fun r => is_label l (Sentiment r)) rs)).

Definition score_sum (f : SentimentScore -> option Q) (rs : list DetectSentimentResponse) : Q :=
  fold_left Qplus (map (fun r => score_of f (SentimentScore_ r)) rs) 0%Q.

Definition mean (f : SentimentScore -> option Q) (rs : list DetectSentimentResponse) : Q :=
  (score_sum f rs / inject_Z (Z.of_nat (List.length rs)))%Q.

(** The scorer's reply recorded in an analysed post. *)
Definition reply_of (p : PostWithAnalysis) : DetectSentimentResponse :=
  match sentimentAnalysis p with
  | Some a => {| Sentiment := sentiment a; SentimentScore_ := scores a |}
  | None => {| Sentiment := None; SentimentScore_ := None |}
  end.


(** ** The reply of the subtopic list *)

Definition is_string_array (v : json) : bool :=
  match v with JArray items => forallb is_string items | _ => false end.

Definition is_array (v : json) : bool :=
  match v with JArray _ => true | _ => false end.

(** What [getSubtopics] returns for a payload that parses. *)
Definition parsed_result (env : Env) (v : json) : list jsstring :=
  if is_string_array v
  then match v with JArray items => nonblank_strings items | _ => [] end
  else if is_array v then []
  else if api_gateway_like env v
       then match JSON_parse env (body_of v) with
            | Some (JArray items) => subtopic_fields items
            | _ => []
            end
       else [].

(** ** Key phrases and registrations *)

(** The key phrases extracted from the posts, in order. *)
Definition extracted (postsWithKeyPhrases : list PostWithAnalysis) : list jsstring :=
  flat_map (fun p => match keyPhraseAnalysis p with
                     | Some a => if negb (truthy_msg (kp_error a))
                                 then match phrases a with Some ps => ps | None => [] end
                                 else []
                     | None => []
                     end) postsWithKeyPhrases.

(** The aggregated frequency: how many of the phrases have the normal
    form [k]. *)
Definition occurrences (env : Env) (k : jsstring) (phrases : list jsstring) : Z :=
  Z.of_nat (List.length (filter (fun ph => JS.str_eqb (normalize env ph) k) phrases)).

(** [counts[k] || 0] *)
Definition count_of (k : jsstring) (counts : list (jsstring * Z)) : Z :=
  match find (fun e => JS.str_eqb (fst e) k) counts with
  | Some e => snd e
  | None => 0
  end.

(** [x] occurs before [y] in [l]. *)
Definition before {A} (x y : A) (l : list A) : Prop :=
  exists l1 l2 l3, l = l1 ++ x :: l2 ++ y :: l3.


(** The entries behind [finalSubtopics]: the phrases with their counts. *)
Definition finalEntries (env : Env) (mainTopic : jsstring) (counts : list (jsstring * Z))
  : list (jsstring * Z) :=
  firstn (Z.to_nat SUBTOPIC_COUNT)
         (filter (fun e => not_main_topic env mainTopic (fst e))
                 (firstn (Z.to_nat (SUBTOPIC_COUNT + 1)) (sortedPhrases counts))).

(** The counts after the [phrases] were counted. *)
Definition counted_from (env : Env) (mainTopic : jsstring) (phrases : list jsstring)
           (counts : list (jsstring * Z)) : Prop :=
  NoDup (map fst counts) /\
  Forall (fun e => 0 < snd e) counts /\
  (forall k, In k (map fst counts) ->
             acceptable env mainTopic k = true /\
             exists phrase, In phrase phrases /\ k = normalize env phrase) /\
  (forall k, acceptable env mainTopic k = true ->
             count_of k counts = occurrences env k phrases).

(** The label sent to the subtopic registry for a phrase. *)
Definition truncated (subtopic : jsstring) : jsstring :=
  if JS.length subtopic >? MAX_SUBTOPIC_LENGTH
  then JS.substring0 MAX_SUBTOPIC_LENGTH subtopic
  else subtopic.

(** The registrations among the calls, oldest first: query id and label. *)
Definition registrations (calls : list Call) : list (Z * jsstring) :=
  flat_map (fun c => match c with
                     | LambdaAddSubtopic q s => [(q, s)]
                     | _ => []
                     end) (rev calls).


(** The registrations of a first run: none, or the labels of the phrases
    chosen from the key phrases of [posts], in order. *)
Definition first_run_registrations (env : Env) (qd : QueryDetails) (queryId : Z)
           (posts : list PostView) (regs : list (Z * jsstring)) : Prop :=
  regs = [] \/
  exists w0 w1 postsWithKeyPhrases,
    mapM (keyPhrasePost env) posts w0 = (Ok postsWithKeyPhrases, w1) /\
    regs = map (fun e => (queryId, truncated (fst e)))
               (finalEntries env (Topic qd)
                             (phraseCounts env (Topic qd) postsWithKeyPhrases)).


(** * Scenarios

    Concrete environments and worlds on which the statements below are
    run. *)

Module Scenario.

(** Lower case of the ASCII letters. *)
Definition lower (s : jsstring) : jsstring :=
  map (fun u => if (65 <=? u) && (u <=? 90) then u + 32 else u) s.

Definition positive_reply : DetectSentimentResponse :=
  {| Sentiment := Some (JS.lit "POSITIVE");
     SentimentScore_ := Some {| Positive := Some (9 # 10); Negative := Some (1 # 20);
                                Neutral := Some (1 # 20); Mixed := Some 0%Q |} |}.

Definition three_posts : list PostView :=
  [ {| uri := JS.lit "at://1"; text := Some (JS.lit "I love the Music tour") |};
    {| uri := JS.lit "at://2"; text := Some (JS.lit "  ") |};
    {| uri := JS.lit "at://3"; text := Some (JS.lit "music rocks") |} ].

(** Every service answers; the registry lists the subtopics ["tour"] and
    ["rock"]. *)
Definition env : Env :=
  {| QUERIES_TABLE_NAME := true;
     DATA_TABLE_NAME := true;
     BLUESKY_HANDLE := true;
     BLUESKY_APP_PASSWORD := true;
     fault := fun _ _ => None;
     posts_found := fun _ _ _ => three_posts;
     sentiment_reply := fun _ _ => positive_reply;
     key_phrases_reply := fun _ _ =>
       Some [Some (JS.lit "the Music tour"); Some (JS.lit "Rock"); None;
             Some (JS.lit "It"); Some (JS.lit "rock")];
     subtopics_reply := fun _ _ =>
       {| FunctionError := None; Payload := Some (JS.lit "[...]") |};
     counter_reply_numeric := fun _ => true;
     now := fun t => 1700000000000 + Z.of_nat t;
     toLowerCase := lower;
     JSON_parse := fun _ => Some (JArray [JString (JS.lit "tour"); JString (JS.lit "rock")]);
     ToNumber := fun _ => None;
     parseInt10 := fun _ => Some 7 |}.

(** The same, with a feed search that finds nothing. *)
Definition quiet_env : Env :=
  {| QUERIES_TABLE_NAME := true;
     DATA_TABLE_NAME := true;
     BLUESKY_HANDLE := true;
     BLUESKY_APP_PASSWORD := true;
     fault := fun _ _ => None;
     posts_found := fun _ _ _ => [];
     sentiment_reply := sentiment_reply env;
     key_phrases_reply := key_phrases_reply env;
     subtopics_reply := subtopics_reply env;
     counter_reply_numeric := fun _ => true;
     now := now env;
     toLowerCase := lower;
     JSON_parse := JSON_parse env;
     ToNumber := fun _ => None;
     parseInt10 := fun _ => Some 7 |}.



(** A topic record. *)
Definition query (topicName email : jsstring) (numIntervals : Z) : QueryDetails :=
  {| QueryID := 7;
     Topic := topicName;
     Email := email;
     NumIntervals := numIntervals;
     PostsToAnalyze := 10;
     IntervalLength := 1;
     IntervalUnit := JS.lit "hours";
     CreatedAt := 1699999999;
     Status := None |}.

Definition owner : jsstring := JS.lit "a@b.c".

Definition music (numIntervals : Z) : QueryDetails :=
  query (JS.lit "Music") owner numIntervals.

(** A topic record without an address. *)
Definition no_address (numIntervals : Z) : QueryDetails :=
  query (JS.lit "Music") [] numIntervals.


(** A world with one topic and no result yet. *)
Definition fresh (qd : QueryDetails) : World :=
  {| queries := [qd]; data := []; counter := None; log := [] |}.

(** A Result record of the main topic. *)
Definition a_run : DataItem :=
  {| DataID := 1;
     item_QueryID := 7;
     AnalysisTimestamp := 1700000000000;
     item_Topic := JS.lit "Music";
     MainTopic := None;
     PostsAnalyzed := 2;
     PositivePosts := 2;
     NegativePosts := 0;
     NeutralPosts := 0;
     MixedPosts := 0;
     AvgPositiveScore := 9 # 10;
     AvgNegativeScore := 1 # 20;
     AvgNeutralScore := 1 # 20;
     AvgMixedScore := 0;
     item_CreatedAt := 1700000000;
     IsSubtopic := Some false |}.

(** A world with one topic and one completed run. *)
Definition after_one_run (qd : QueryDetails) : World :=
  {| queries := [qd]; data := [a_run]; counter := Some 1; log := [] |}.

Definition tick : LambdaEvent := ScheduledEvent (Some 7) None.

Definition manual : LambdaEvent := ApiGatewayEvent (Some (Some (JS.lit "7"), None)).

(** The world when the run count has been read, and when the login is
    done. *)
Definition counted (w : World) : World :=
  record_call (DataScanCount 7) (record_call (QueriesQuery 7) w).

Definition logged_in (w : World) : World := record_call BskyLogin (counted w).

(** The result and the new calls of a run. *)
Definition result_of (r : outcome (option APIGatewayProxyResult) * World)
  : option APIGatewayProxyResult :=
  match fst r with Ok x => x | Throw _ => None end.

Definition calls_since (w w' : World) : list Call :=
  firstn (List.length (log w') - List.length (log w)) (log w').

(** A text of 1664 characters of three bytes each. *)
Definition long_text : jsstring := repeat 0x4E2D 1664.

(** A text whose 4990th and 4991st bytes are one character. *)
Definition split_text : jsstring := repeat 97 4989 ++ [233; 97].

End Scenario.

(** * Invariants of the stores and of the calls *)

(** The value of the counter; 0 before the first id is drawn. *)
Definition counter_value (w : World) : Z :=
  match counter w with Some c => c | None => 0 end.

(** The Result records have distinct ids, none above the counter. *)
Definition ids_fresh (w : World) : Prop :=
  NoDup (map DataID (data w)) /\
  Forall (fun it => DataID it <= counter_value w) (data w).

(** A computation started where [P] holds ends where [Q] holds of its
    result, or throws where [E] holds of its error. *)
Definition triple {A} (P : World -> Prop) (c : M A)
           (Q : A -> World -> Prop) (E : JsError -> World -> Prop) : Prop :=
  forall w, P w ->
    match c w with
    | (Ok a, w') => Q a w'
    | (Throw e, w') => E e w'
    end.

(** [I] holds after [c] whenever it holds before, however [c] ends. *)
Definition invariant {A} (I : World -> Prop) (c : M A) : Prop :=
  triple I c (fun _ => I) (fun _ => I).

(** The calls issued since the log was [l0] all satisfy [PC]. *)
Definition logged (PC : Call -> Prop) (l0 : list Call) (w : World) : Prop :=
  exists new, log w = new ++ l0 /\ Forall PC new.

(** The id just drawn from the counter: it is the counter's value and
    above the id of every Result record. *)
Definition drawn (id : Z) (w : World) : Prop :=
  ids_fresh w /\ counter w = Some id /\ Forall (fun it => DataID it < id) (data w).

(** A post that some feed search returned. *)
Definition found (env : Env) (p : PostView) : Prop :=
  exists t term limit, In p (posts_found env t term limit).

(** The calls an invocation for [queryId] may issue: lookups, scan,
    schedule, registry and records of that query only; labels that are
    not empty and within the registry's limit; texts that are the
    prepared text of a post found, never of a blank one. *)
Definition invocation_call (env : Env) (queryId : Z) (c : Call) : Prop :=
  match c with
  | QueriesGet q _ | QueriesQuery q | DataScanCount q | SchedulerDelete q
  | LambdaGetSubtopics q | SnsPublish _ q => q = queryId
  | LambdaAddSubtopic q label =>
      q = queryId /\ 0 < JS.length label <= MAX_SUBTOPIC_LENGTH
  | DataPut item => item_QueryID item = queryId
  | CounterUpdate n | CounterGet n | CounterPutIfAbsent n => n = DATA_COUNTER_NAME
  | DetectSentiment txt | DetectKeyPhrases txt =>
      exists p postText,
        found env p /\ text p = Some postText /\
        JS.blank (Some postText) = false /\ txt = textToAnalyze postText
  | BskyLogin | SearchPosts _ _ | SnsSubscribe _ => True
  end.

(** What holds of every summary the analysis produces for [q]: at least
    one post was scored and the four categories do not count more posts
    than were scored. *)
Definition summary_ok (q : Z) (s : SentimentSummary) : Prop :=
  queryId s = q /\ 1 <= totalPostsAnalyzed s /\
  0 <= positivePosts s /\ 0 <= negativePosts s /\
  0 <= neutralPosts s /\ 0 <= mixedPosts s /\
  positivePosts s + negativePosts s + neutralPosts s + mixedPosts s
    <= totalPostsAnalyzed s.

(** The same of a Result record, which is tagged as a main-topic record or
    as a subtopic record with its main topic. *)
Definition record_ok (q : Z) (it : DataItem) : Prop :=
  item_QueryID it = q /\ 1 <= PostsAnalyzed it /\
  0 <= PositivePosts it /\ 0 <= NegativePosts it /\
  0 <= NeutralPosts it /\ 0 <= MixedPosts it /\
  PositivePosts it + NegativePosts it + NeutralPosts it + MixedPosts it
    <= PostsAnalyzed it /\
  ((IsSubtopic it = Some false /\ MainTopic it = None) \/
   (IsSubtopic it = Some true /\ exists mainTopic, MainTopic it = Some mainTopic)).

(** * More scenarios *)

Module Cases.

(** A topic whose analysis is over. *)
Definition completed : QueryDetails :=
  {| QueryID := 7;
     Topic := JS.lit "Music";
     Email := Scenario.owner;
     NumIntervals := 3;
     PostsToAnalyze := 10;
     IntervalLength := 1;
     IntervalUnit := JS.lit "hours";
     CreatedAt := 1699999999;
     Status := Some (JS.lit "COMPLETED") |}.

(** The same as [Scenario.env], with a table of topics whose reads by key
    fail. *)
Definition no_get_env : Env :=
  {| QUERIES_TABLE_NAME := true;
     DATA_TABLE_NAME := true;
     BLUESKY_HANDLE := true;
     BLUESKY_APP_PASSWORD := true;
     fault := fun _ c =>
       match c with
       | QueriesGet _ _ => Some (Error "read failed")
       | _ => None
       end;
     posts_found := posts_found Scenario.env;
     sentiment_reply := sentiment_reply Scenario.env;
     key_phrases_reply := key_phrases_reply Scenario.env;
     subtopics_reply := subtopics_reply Scenario.env;
     counter_reply_numeric := fun _ => true;
     now := now Scenario.env;
     toLowerCase := Scenario.lower;
     JSON_parse := JSON_parse Scenario.env;
     ToNumber := fun _ => None;
     parseInt10 := fun _ => Some 7 |}.

(** The same as [Scenario.env], with a notification channel that
    fails. *)
Definition no_mail_env : Env :=
  {| QUERIES_TABLE_NAME := true;
     DATA_TABLE_NAME := true;
     BLUESKY_HANDLE := true;
     BLUESKY_APP_PASSWORD := true;
     fault := fun _ c =>
       match c with
       | SnsPublish _ _ => Some (Error "publish failed")
       | _ => None
       end;
     posts_found := posts_found Scenario.env;
     sentiment_reply := sentiment_reply Scenario.env;
     key_phrases_reply := key_phrases_reply Scenario.env;
     subtopics_reply := subtopics_reply Scenario.env;
     counter_reply_numeric := fun _ => true;
     now := now Scenario.env;
     toLowerCase := Scenario.lower;
     JSON_parse := JSON_parse Scenario.env;
     ToNumber := fun _ => None;
     parseInt10 := fun _ => Some 7 |}.

(** The same as [Scenario.env], with a subtopic registry that answers in
    the shape of an HTTP reply whose body is an array of plain strings. *)
Definition wrapped_env : Env :=
  {| QUERIES_TABLE_NAME := true;
     DATA_TABLE_NAME := true;
     BLUESKY_HANDLE := true;
     BLUESKY_APP_PASSWORD := true;
     fault := fun _ _ => None;
     posts_found := posts_found Scenario.env;
     sentiment_reply := sentiment_reply Scenario.env;
     key_phrases_reply := key_phrases_reply Scenario.env;
     subtopics_reply := fun _ _ =>
       {| FunctionError := None; Payload := Some (JS.lit "{...}") |};
     counter_reply_numeric := fun _ => true;
     now := now Scenario.env;
     toLowerCase := Scenario.lower;
     JSON_parse := fun s =>
       if JS.str_eqb s (JS.lit "[...]")
       then Some (JArray [JString (JS.lit "tour"); JString (JS.lit "rock")])
       else Some (JObject [(JS.lit "statusCode", JNumber 200);
                           (JS.lit "body", JString (JS.lit "[...]"))]);
     ToNumber := fun _ => None;
     parseInt10 := fun _ => Some 7 |}.

(** A scheduled event with a topic hint. *)
Definition hinted : LambdaEvent := ScheduledEvent (Some 7) (Some (JS.lit "music")).

(** A scheduled event for a query that has no record. *)
Definition stray : LambdaEvent := ScheduledEvent (Some 8) None.

End Cases.

(** The texts sent to the sentiment scorer and to the key-phrase
    extractor stay under the limit of 5000 bytes. *)
Definition within_scorer_limit (c : Call) : Prop :=
  match c with
  | DetectSentiment txt | DetectKeyPhrases txt =>
      Utf8.Buffer_byteLength txt <= MAX_COMPREHEND_BYTES + 2
  | _ => True
  end.

(** The calls of the analysis: everything but the lookups, the scan, the
    login, the notification and the schedule. *)
Definition analysis_call (c : Call) : bool :=
  only [SvcSearch; SvcSentiment; SvcKeyPhrases; SvcPut; SvcCounter; SvcSubscribe;
        SvcGetSubtopics; SvcAddSubtopic] (service c).

(** The scoring calls for a list of posts: one for each post with text,
    in order. *)
Definition scoring_calls (posts : list PostView) : list Call :=
  flat_map (fun p => match text p with
                     | Some postText =>
                         if JS.blank (Some postText) then []
                         else [DetectSentiment (textToAnalyze postText)]
                     | None => []
                     end) posts.

(** Texts of one byte per character. *)
Definition ascii_text (s : jsstring) : Prop := Forall (fun u => 0 <= u < 0x80) s.

(** * The earlier version of the handler *)

(** [terraform/api-lambda/functions/blueskyLambda.js]: the analysis of the
    main topic only, without subtopics and without notification.  It uses
    the tables, the counter, the schedule and the services of the handler
    above; its requests are recorded as the same calls. *)
Module Legacy.

(** The body of the HTTP results, before [JSON.stringify]. *)
Inductive Body :=
| Message (msg : string)
| Summary (summary : SentimentSummary).

Record Result := { statusCode : Z; body : Body }.

Section Lambda.

Variable env : Env.

(** The read by key for an event without topic, whose key is
    [{ QueryID: queryId, Topic: undefined }]: what the document client
    does with it is not in the source. *)
Variable get_without_topic : Z -> M (option QueryDetails).

(** [getQueryDetails(queryId, topic)]; messages are abbreviated. *)
Definition getQueryDetails (queryId : Z) (topic : option jsstring) : M QueryDetails :=
  if negb (QUERIES_TABLE_NAME env)
  then throw (Error "QUERIES_TABLE_NAME environment variable is not set.")
  else
    try_catch
      (item <- match topic with
               | Some tp => send_QueriesGet env queryId tp
               | None => get_without_topic queryId
               end ;;
       match item with
       | Some queryDetails => ret queryDetails
       | None => throw (Error "Query details not found")
       end)
      (fun error => throw (Error ("Failed to fetch query details: " ++ message error))).

(** [getNextDataId(counterName)]: the table of counters is a constant. *)
Definition getNextDataId (counterName : string) : M Z :=
  try_catch
    (result <- send_CounterUpdate env counterName ;;
     match result with
     | Some nextId => ret nextId
     | None => throw (Error "Failed to parse CurrentValue from UpdateCommand response.")
     end)
    (fun error => throw (Error ("Failed to get next ID: " ++ message error))).

(** The item of [storeAnalysisResults]: it has no [IsSubtopic] and no
    [MainTopic]. *)
Definition item (dataId createdAt : Z) (summary : SentimentSummary) : DataItem :=
  {| DataID := dataId;
     item_QueryID := queryId summary;
     AnalysisTimestamp := timestamp summary;
     item_Topic := topic summary;
     MainTopic := None;
     PostsAnalyzed := totalPostsAnalyzed summary;
     PositivePosts := positivePosts summary;
     NegativePosts := negativePosts summary;
     NeutralPosts := neutralPosts summary;
     MixedPosts := mixedPosts summary;
     AvgPositiveScore := avgPositiveScore summary;
     AvgNegativeScore := avgNegativeScore summary;
     AvgNeutralScore := avgNeutralScore summary;
     AvgMixedScore := avgMixedScore summary;
     item_CreatedAt := createdAt / 1000;
     IsSubtopic := None |}.

(** [storeAnalysisResults(summary)] *)
Definition storeAnalysisResults (summary : SentimentSummary) : M unit :=
  if negb (DATA_TABLE_NAME env)
  then throw (Error "DATA_TABLE_NAME environment variable is not set.")
  else
    dataId <- getNextDataId DATA_COUNTER_NAME ;;
    try_catch
      (createdAt <- Date_now env ;;
       send_DataPut env (item dataId createdAt summary))
      (fun error => throw (Error ("Failed to store analysis results: " ++ message error))).

(** The filter of the run-count scan: [QueryID = :qid]. *)
Definition of_query (qid : Z) (it : DataItem) : bool := item_QueryID it =? qid.

(** [ScanCommand] with [Select: 'COUNT'], read as one page:
    [countResult.Count ?? 0]. *)
Definition send_DataScanCount (qid : Z) : M Z :=
  request env (DataScanCount qid)
          (fun _ w => (Ok (Z.of_nat (List.length (filter (of_query qid) (data w)))), w)).

(** Step 3: the run count. *)
Definition checkRunCount (queryId : Z) : M Z :=
  try_catch
    (send_DataScanCount queryId)
    (fun error => throw (Error ("Failed to fetch run count: " ++ message error))).

(** Step 6: the search, whose failure ends the invocation. *)
Definition searchPosts (searchTerm : jsstring) (postLimit : Z) : M (list PostView) :=
  try_catch
    (request env (SearchPosts searchTerm postLimit)
             (fun t w => (Ok (posts_found env t searchTerm postLimit), w)))
    (fun searchError =>
       throw (Error ("Failed to search Bluesky posts: " ++ message searchError))).

(** Step 8: the summary, with the loop and the averages of
    [analyzeSentimentForTerm]; it is built whatever the number of posts
    analysed. *)
Definition summarize (queryId : Z) (searchTerm : jsstring) (time : Z)
           (postsWithSentiment : list PostWithAnalysis) : SentimentSummary :=
  let t := fold_left tally_post postsWithSentiment tally0 in
  {| queryId := queryId;
     topic := searchTerm;
     timestamp := time;
     totalPostsAnalyzed := analyzedCount t;
     positivePosts := n_positive t;
     negativePosts := n_negative t;
     neutralPosts := n_neutral t;
     mixedPosts := n_mixed t;
     avgPositiveScore := average (totalPositiveScore t) (analyzedCount t);
     avgNegativeScore := average (totalNegativeScore t) (analyzedCount t);
     avgNeutralScore := average (totalNeutralScore t) (analyzedCount t);
     avgMixedScore := average (totalMixedScore t) (analyzedCount t) |}.

(** Steps 6 to 11; the callback of step 7 is the one of
    [analyzeSentimentForTerm]. *)
Definition analyzeInterval (event : LambdaEvent) (queryDetails : QueryDetails)
           (queryId currentRunCount : Z) : M (option Result) :=
  let searchTerm := Topic queryDetails in
  let postLimit := PostsToAnalyze queryDetails in
  posts <- searchPosts searchTerm postLimit ;;
  postsWithSentiment <- mapM (scorePost env) posts ;;
  time <- Date_now env ;;
  let summary := summarize queryId searchTerm time postsWithSentiment in
  storeAnalysisResults summary ;;
  (if currentRunCount + 1 >=? NumIntervals queryDetails
   then deleteSchedule env queryId
   else ret tt) ;;
  if isScheduledEvent event then ret None
  else ret (Some {| statusCode := 200; body := Summary summary |}).

(** Steps 2 to 11, once the event gave a query id. *)
Definition processQuery (event : LambdaEvent) (queryId : Z) (topicFromEvent : option jsstring)
  : M (option Result) :=
  if negb (QUERIES_TABLE_NAME env) || negb (DATA_TABLE_NAME env)
  then throw (Error "Server configuration error: Missing table names.")
  else
    queryDetails <- getQueryDetails queryId topicFromEvent ;;
    if is_status "COMPLETED" (Status queryDetails) || is_status "CANCELLED" (Status queryDetails)
    then deleteSchedule env queryId ;; ret None
    else
      currentRunCount <- checkRunCount queryId ;;
      if currentRunCount >=? NumIntervals queryDetails
      then deleteSchedule env queryId ;; ret None
      else authenticate env ;;
           analyzeInterval event queryDetails queryId currentRunCount.

(** Step 1: the query id and the topic of the event, or the result of an
    invocation that stops there. *)
Definition extractQueryInfo (event : LambdaEvent)
  : outcome (Z * option jsstring + Result) :=
  match event with
  | ScheduledEvent (Some queryId) topicFromEvent => Ok (inl (queryId, topicFromEvent))
  | ScheduledEvent None _ => Throw (Error "Invalid scheduled event payload: Missing queryId.")
  | ApiGatewayEvent (Some (queryIdParam, Some topicFromEvent)) =>
      if JS.truthy topicFromEvent then
        match match queryIdParam with
              | Some p => if JS.truthy p then parseInt10 env p else None
              | None => None
              end with
        | Some queryId => Ok (inl (queryId, Some topicFromEvent))
        | None =>
            Ok (inr {| statusCode := 400;
                       body := Message "Manual invocation requires 'queryId' parameter." |})
        end
      else Ok (inr {| statusCode := 400;
                      body := Message "Unsupported event type or missing parameters." |})
  | _ => Ok (inr {| statusCode := 400;
                    body := Message "Unsupported event type or missing parameters." |})
  end.

(** [handler(event)]; the result [None] is a handler that returns
    nothing. *)
Definition handler (event : LambdaEvent) : M (option Result) :=
  match extractQueryInfo event with
  | Ok (inl (queryId, topicFromEvent)) => processQuery event queryId topicFromEvent
  | Ok (inr result) => ret (Some result)
  | Throw e => throw e
  end.

End Lambda.

(** The run count of this version: the number of Result records of the
    query, of whatever kind. *)
Definition runs (queryId : Z) (items : list DataItem) : Z :=
  Z.of_nat (List.length (filter (of_query queryId) items)).

(** The events that do not lead to a read without topic. *)
Definition with_topic (event : LambdaEvent) : bool :=
  match event with
  | ScheduledEvent (Some _) None => false
  | _ => true
  end.

(** The services this version calls. *)
Definition services : list Service :=
  [SvcQueries; SvcScan; SvcScheduler; SvcLogin; SvcSearch; SvcSentiment; SvcCounter; SvcPut].

(** A record as this version stores it for [queryId]. *)
Definition untagged (queryId : Z) (it : DataItem) : Prop :=
  item_QueryID it = queryId /\ IsSubtopic it = None /\ MainTopic it = None.

(** A scheduled event that names the topic. *)
Definition keyed : LambdaEvent := ScheduledEvent (Some 7) (Some (JS.lit "Music")).

(** A manual invocation with both parameters. *)
Definition manual : LambdaEvent :=
  ApiGatewayEvent (Some (Some (JS.lit "7"), Some (JS.lit "Music"))).

(** A document client that rejects a key without topic. *)
Definition rejecting (queryId : Z) : M (option QueryDetails) :=
  throw (Error "undefined key attribute").

End Legacy.

(** The two tables hold [d] and [qs]. *)
Definition stores_are (d : list DataItem) (qs : list QueryDetails) (w : World) : Prop :=
  data w = d /\ queries w = qs.
(** * Proofs *)

(** ** Tactics *)

(** Decides the integer tests of the goal, by [lia] where it can. *)
Ltac zbool :=
  repeat match goal with
  | |- context [Z.leb ?a ?b] =>
      first [ replace (Z.leb a b) with true by (symmetry; apply Z.leb_le; lia)
            | replace (Z.leb a b) with false by (symmetry; apply Z.leb_gt; lia)
            | destruct (Z.leb_spec a b) ]
  | |- context [Z.ltb ?a ?b] =>
      first [ replace (Z.ltb a b) with true by (symmetry; apply Z.ltb_lt; lia)
            | replace (Z.ltb a b) with false by (symmetry; apply Z.ltb_ge; lia)
            | destruct (Z.ltb_spec a b) ]
  | |- context [Z.eqb ?a ?b] =>
      first [ replace (Z.eqb a b) with true by (symmetry; apply Z.eqb_eq; lia)
            | replace (Z.eqb a b) with false by (symmetry; apply Z.eqb_neq; lia)
            | destruct (Z.eqb_spec a b) ]
  end; cbn [andb orb negb].

(** ** Strings *)

Lemma str_eqb_eq a b : JS.str_eqb a b = true <-> a = b.
Proof.
  unfold JS.str_eqb; destruct (list_eq_dec Z.eq_dec a b); split; congruence.
Qed.

Lemma str_eqb_refl a : JS.str_eqb a a = true.
Proof. now apply str_eqb_eq. Qed.

Lemma str_eqb_neq a b : JS.str_eqb a b = false <-> a <> b.
Proof.
  unfold JS.str_eqb; destruct (list_eq_dec Z.eq_dec a b); split; congruence.
Qed.

Lemma In_firstn {A} (x : A) k l : In x (firstn k l) -> In x l.
Proof.
  intros I. rewrite <- (firstn_skipn k l). apply in_or_app. now left.
Qed.

Lemma Forall_firstn {A} (P : A -> Prop) k l : Forall P l -> Forall P (firstn k l).
Proof.
  intros H. revert k. induction H; intros [|k]; cbn; constructor; auto.
Qed.

(** ** UTF-8: what survives a cut of the encoded text *)

Section Utf8Facts.
Import Utf8.

(** The base-64 digits of a code point. *)
Lemma digits2 c : 0 <= c ->
  exists q r, c / 64 = q /\ c mod 64 = r /\ c = 64 * q + r /\ 0 <= r < 64 /\ 0 <= q.
Proof.
  intros. exists (c / 64), (c mod 64). repeat split; try lia.
  - apply Z.div_mod; lia.
  - apply Z.mod_pos_bound; lia.
  - apply Z.mod_pos_bound; lia.
  - apply Z.div_pos; lia.
Qed.

Lemma digits3 c : 0 <= c ->
  exists q r1 r0, c / 4096 = q /\ (c / 64) mod 64 = r1 /\ c mod 64 = r0 /\
    c = 4096 * q + 64 * r1 + r0 /\ 0 <= r1 < 64 /\ 0 <= r0 < 64 /\ 0 <= q.
Proof.
  intros Hc.
  destruct (digits2 c Hc) as (q1 & r0 & E1 & E0 & Hc1 & Hr0 & Hq1).
  destruct (digits2 q1 Hq1) as (q & r1 & E2 & E3 & Hc2 & Hr1 & Hq).
  exists q, r1, r0. rewrite E1, E0, E3.
  change 4096 with (64 * 64). rewrite <- Z.div_div, E1, E2 by lia.
  repeat split; lia.
Qed.

Lemma digits4 c : 0 <= c ->
  exists q r2 r1 r0, c / 262144 = q /\ (c / 4096) mod 64 = r2 /\
    (c / 64) mod 64 = r1 /\ c mod 64 = r0 /\
    c = 262144 * q + 4096 * r2 + 64 * r1 + r0 /\
    0 <= r2 < 64 /\ 0 <= r1 < 64 /\ 0 <= r0 < 64 /\ 0 <= q.
Proof.
  intros Hc.
  destruct (digits2 c Hc) as (q1 & r0 & E1 & E0 & Hc1 & Hr0 & Hq1).
  destruct (digits3 q1 Hq1) as (q & r2 & r1 & E2 & E3 & E4 & Hc2 & Hr2 & Hr1 & Hq).
  assert (A1 : c / 262144 = q1 / 4096).
  { change 262144 with (64 * 4096). rewrite <- Z.div_div by lia. now rewrite E1. }
  assert (A2 : c / 4096 = q1 / 64).
  { change 4096 with (64 * 64). rewrite <- Z.div_div by lia. now rewrite E1. }
  exists q, r2, r1, r0. rewrite A1, A2, E0, E1, E2, E3, E4.
  repeat split; lia.
Qed.

(** Decoding reads back an encoded scalar value and is again at a
    boundary. *)
Lemma decode_encode_cp c rest :
  scalar c ->
  decode_from Start (encode_cp c ++ rest) = c :: decode_from Start rest.
Proof.
  intros [Hr Hs]. unfold encode_cp.
  destruct (Z.ltb_spec c 0x80).
  { cbn [app decode_from]. unfold lead. zbool. reflexivity. }
  destruct (Z.ltb_spec c 0x800).
  { destruct (digits2 c) as (q & r & -> & -> & Hc & Hr0 & Hq); [lia|].
    cbn [app decode_from]. unfold lead. zbool. cbn [app decode_from]. zbool.
    f_equal. lia. }
  destruct (Z.ltb_spec c 0x10000).
  { destruct (digits3 c) as (q & r1 & r0 & -> & -> & -> & Hc & Hr1 & Hr0 & Hq); [lia|].
    cbn [app decode_from]. unfold lead. zbool; cbn [app decode_from]; zbool;
      f_equal; lia. }
  destruct (digits4 c)
    as (q & r2 & r1 & r0 & -> & -> & -> & -> & Hc & Hr2 & Hr1 & Hr0 & Hq); [lia|].
  cbn [app decode_from]. unfold lead. zbool; cbn [app decode_from]; zbool;
      f_equal; lia.
Qed.

Lemma encode_cp_length c : (1 <= List.length (encode_cp c) <= 4)%nat.
Proof.
  unfold encode_cp.
  destruct (c <? 0x80), (c <? 0x800), (c <? 0x10000); cbn; lia.
Qed.

(** A proper, non-empty prefix of an encoded scalar value decodes to one
    replacement character. *)
Lemma decode_partial c n :
  scalar c -> (0 < n < List.length (encode_cp c))%nat ->
  decode (firstn n (encode_cp c)) = [REPLACEMENT].
Proof.
  intros [Hr Hs]. unfold encode_cp, decode.
  destruct (Z.ltb_spec c 0x80); [cbn; lia|].
  destruct (Z.ltb_spec c 0x800).
  { destruct (digits2 c) as (q & r & -> & -> & Hc & Hr0 & Hq); [lia|].
    cbn [List.length]. intros Hn. assert (n = 1%nat) as -> by lia.
    cbn [firstn decode_from]. unfold lead. zbool. reflexivity. }
  destruct (Z.ltb_spec c 0x10000).
  { destruct (digits3 c) as (q & r1 & r0 & -> & -> & -> & Hc & Hr1 & Hr0 & Hq); [lia|].
    cbn [List.length]. intros Hn.
    assert (n = 1 \/ n = 2)%nat as [-> | ->] by lia;
      cbn [firstn decode_from]; unfold lead; zbool; cbn [app decode_from]; zbool;
        reflexivity. }
  destruct (digits4 c)
    as (q & r2 & r1 & r0 & -> & -> & -> & -> & Hc & Hr2 & Hr1 & Hr0 & Hq); [lia|].
  cbn [List.length]. intros Hn.
  assert (n = 1 \/ n = 2 \/ n = 3)%nat as [-> | [-> | ->]] by lia;
    cbn [firstn decode_from]; unfold lead; zbool; cbn [app decode_from]; zbool;
      reflexivity.
Qed.

(** The first [n] bytes of an encoded text decode to some of its first
    characters, followed by a replacement character when the cut falls
    inside a character. *)
Lemma decode_encode_prefix cs : Forall scalar cs -> forall n,
  exists k,
    (decode (firstn n (encode cs)) = firstn k cs /\
     (List.length (encode (firstn k cs)) <= n)%nat) \/
    (decode (firstn n (encode cs)) = firstn k cs ++ [REPLACEMENT] /\
     (List.length (encode (firstn k cs)) < n)%nat).
Proof.
  induction 1 as [|c cs Hc Hcs IH]; intros n.
  - exists 0%nat. left. cbn. rewrite firstn_nil. split; [reflexivity | lia].
  - change (encode (c :: cs)) with (encode_cp c ++ encode cs).
    rewrite firstn_app.
    destruct (Nat.le_gt_cases (List.length (encode_cp c)) n) as [Hle | Hgt].
    + rewrite firstn_all2 by exact Hle.
      unfold decode. rewrite decode_encode_cp by exact Hc.
      destruct (IH (n - List.length (encode_cp c))%nat) as [k [[E L] | [E L]]];
        exists (S k); [left | right]; cbn [firstn];
        change (encode (c :: firstn k cs)) with (encode_cp c ++ encode (firstn k cs));
        rewrite length_app;
        fold (decode (firstn (n - List.length (encode_cp c)) (encode cs)));
        rewrite E; (split; [reflexivity | lia]).
    + replace (n - List.length (encode_cp c))%nat with 0%nat by lia.
      cbn [firstn]. rewrite app_nil_r.
      exists 0%nat. destruct n as [|n].
      * left. cbn. split; [reflexivity | lia].
      * right. rewrite decode_partial by (exact Hc || lia).
        cbn. split; [reflexivity | lia].
Qed.

Lemma scalar_REPLACEMENT : scalar REPLACEMENT.
Proof. unfold scalar, REPLACEMENT. lia. Qed.

Lemma code_points_units c rest :
  scalar c -> code_points (code_units_of c ++ rest) = c :: code_points rest.
Proof.
  intros [Hr Hs]. unfold code_units_of.
  destruct (Z.ltb_spec c 0x10000).
  - cbn [app code_points]. unfold is_high, is_low. zbool; try lia; reflexivity.
  - pose proof (Z.div_mod (c - 0x10000) 0x400 ltac:(lia)) as D.
    pose proof (Z.mod_pos_bound (c - 0x10000) 0x400 ltac:(lia)) as B.
    assert (0 <= (c - 0x10000) / 0x400 < 0x400)
      by (split; [apply Z.div_pos; lia | apply Z.div_lt_upper_bound; lia]).
    cbn [app code_points]. unfold is_high, is_low. zbool. f_equal. lia.
Qed.

Lemma code_points_of_code_points cs :
  Forall scalar cs -> code_points (of_code_points cs) = cs.
Proof.
  induction 1 as [|c cs Hc _ IH]; [reflexivity|].
  cbn [of_code_points flat_map]. rewrite code_points_units by exact Hc.
  f_equal. exact IH.
Qed.

Lemma code_points_scalar s : JS.wf_string s -> Forall scalar (code_points s).
Proof.
  assert (G : forall t, JS.wf_string t ->
            Forall scalar (code_points t) /\
            forall u, JS.code_unit u -> Forall scalar (code_points (u :: t))).
  { clear s. induction t as [|l s IH]; intros Hs.
    - split; [constructor|]. intros u Hu. unfold JS.code_unit in Hu.
      cbn [code_points]. unfold is_high, is_low.
      zbool; repeat constructor; unfold scalar, REPLACEMENT; lia.
    - inversion Hs as [|? ? Hl Hs']; subst.
      destruct (IH Hs') as [IH1 IH2]. split; [apply IH2, Hl|].
      intros u Hu. unfold JS.code_unit in Hu, Hl.
      change (code_points (u :: l :: s)) with
        (if is_high u then
           if is_low l
           then (0x10000 + (u - 0xD800) * 0x400 + (l - 0xDC00)) :: code_points s
           else REPLACEMENT :: code_points (l :: s)
         else if is_low u then REPLACEMENT :: code_points (l :: s)
         else u :: code_points (l :: s)).
      specialize (IH2 l Hl).
      unfold is_high, is_low.
      zbool; constructor; auto using scalar_REPLACEMENT; unfold scalar; lia. }
  intros Hs. apply G, Hs.
Qed.

End Utf8Facts.

(** C9, as the spec states it, fails: the text is cut inside a multi-byte
    character, the decoder puts U+FFFD (three bytes) for the cut
    character, and the text handed to the scorer encodes to 4992 bytes. *)
Lemma truncation_splits_a_character :
  Utf8.Buffer_byteLength Scenario.split_text > MAX_COMPREHEND_BYTES /\
  Utf8.Buffer_byteLength (textToAnalyze Scenario.split_text) = 4992 /\
  Utf8.code_points (textToAnalyze Scenario.split_text)
    = repeat 97 4989 ++ [Utf8.REPLACEMENT].
Proof. vm_compute. repeat split; reflexivity. Qed.

(** C9, amended: for every post text of more than 4990 UTF-8 bytes, the
    text handed to the scorer and to the key-phrase extractor encodes to at
    most 4992 bytes and is valid UTF-8; it consists of leading characters
    of the post text, followed by U+FFFD when the cut falls inside a
    character. *)
Theorem truncation_within_margin text :
  JS.wf_string text ->
  Utf8.Buffer_byteLength text > MAX_COMPREHEND_BYTES ->
  Utf8.Buffer_byteLength (textToAnalyze text) <= MAX_COMPREHEND_BYTES + 2 /\
  Utf8.valid_utf8 (Utf8.Buffer_from (textToAnalyze text)) /\
  exists k,
    Utf8.code_points (textToAnalyze text) = firstn k (Utf8.code_points text) \/
    Utf8.code_points (textToAnalyze text)
      = firstn k (Utf8.code_points text) ++ [Utf8.REPLACEMENT].
Proof.
  intros Hwf Hlen. unfold textToAnalyze.
  replace (Utf8.Buffer_byteLength text >? MAX_COMPREHEND_BYTES) with true
    by (symmetry; apply Z.gtb_lt; lia).
  unfold Utf8.Buffer_toString, Utf8.Buffer_slice0, Utf8.Buffer_from, Utf8.Buffer_byteLength.
  pose proof (code_points_scalar text Hwf) as Hsc.
  destruct (decode_encode_prefix _ Hsc (Z.to_nat MAX_COMPREHEND_BYTES))
    as [k [[E L] | [E L]]]; unfold Utf8.Buffer_from; rewrite E.
  - assert (Hk : Forall Utf8.scalar (firstn k (Utf8.code_points text)))
      by now apply Forall_firstn.
    rewrite code_points_of_code_points by exact Hk.
    split; [unfold MAX_COMPREHEND_BYTES in *; lia|].
    split; [now exists (firstn k (Utf8.code_points text))|].
    exists k. now left.
  - assert (Hk : Forall Utf8.scalar (firstn k (Utf8.code_points text) ++ [Utf8.REPLACEMENT])).
    { apply Forall_app. split; [now apply Forall_firstn|].
      constructor; [apply scalar_REPLACEMENT | constructor]. }
    rewrite code_points_of_code_points by exact Hk.
    split.
    { unfold Utf8.encode. rewrite flat_map_app, length_app. cbn.
      fold (Utf8.encode (firstn k (Utf8.code_points text))).
      unfold MAX_COMPREHEND_BYTES in *. lia. }
    split; [exists (firstn k (Utf8.code_points text) ++ [Utf8.REPLACEMENT]); now split|].
    exists k. now right.
Qed.

Lemma truncation_within_margin_witness :
  JS.wf_string Scenario.long_text /\
  Utf8.Buffer_byteLength Scenario.long_text > MAX_COMPREHEND_BYTES /\
  Utf8.Buffer_byteLength (textToAnalyze Scenario.long_text) <= MAX_COMPREHEND_BYTES + 2.
Proof.
  assert (W : JS.wf_string Scenario.long_text).
  { apply Forall_forall. intros x Hx. apply repeat_spec in Hx. subst.
    unfold JS.code_unit. lia. }
  assert (L : Utf8.Buffer_byteLength Scenario.long_text > MAX_COMPREHEND_BYTES)
    by (vm_compute; reflexivity).
  split; [exact W|]. split; [exact L|].
  apply (truncation_within_margin Scenario.long_text W L).
Defined.

(** ** The run count *)

Lemma is_main_run_tagged queryId it : is_main_run queryId it = tagged_main queryId it.
Proof.
  unfold is_main_run, tagged_main. destruct (IsSubtopic it) as [[|]|]; reflexivity.
Qed.


Lemma main_runs_app queryId l1 l2 :
  main_runs queryId (l1 ++ l2) = main_runs queryId l1 + main_runs queryId l2.
Proof. unfold main_runs. rewrite filter_app, length_app. lia. Qed.

Lemma main_runs_skip queryId l :
  Forall (fun it => IsSubtopic it <> Some false \/ item_QueryID it <> queryId) l ->
  main_runs queryId l = 0.
Proof.
  unfold main_runs. induction 1 as [|it l H _ IH]; [reflexivity|].
  cbn [filter]. replace (tagged_main queryId it) with false; [exact IH|].
  unfold tagged_main. destruct H as [H | H].
  - destruct (IsSubtopic it) as [[|]|]; try congruence; now rewrite andb_false_r.
  - apply Z.eqb_neq in H. now rewrite H.
Qed.




(** ** The subtopic list *)

Section GetSubtopics.
Variables (env : Env) (queryId : Z) (w : World).

Let reply := subtopics_reply env (List.length (log w)) queryId.
Let w' := record_call (LambdaGetSubtopics queryId) w.
Let faulted := fault env (List.length (log w)) (LambdaGetSubtopics queryId).

Lemma gs_fault e : faulted = Some e -> getSubtopics env queryId w = (Ok [], w').
Proof.
  intros F. unfold getSubtopics, try_catch, bind, request at 1.
  fold faulted. rewrite F. reflexivity.
Qed.

Lemma gs_function_error :
  faulted = None -> truthy_opt (FunctionError reply) = true ->
  getSubtopics env queryId w = (Ok [], w').
Proof.
  intros F FE. unfold getSubtopics, try_catch, bind, request at 1.
  fold faulted. rewrite F. fold reply. rewrite FE. reflexivity.
Qed.

Lemma gs_no_payload :
  faulted = None -> truthy_opt (FunctionError reply) = false ->
  Payload reply = None ->
  getSubtopics env queryId w = (Ok [], w').
Proof.
  intros F FE P. unfold getSubtopics, try_catch, bind, request at 1.
  fold faulted. rewrite F. fold reply. rewrite FE, P. reflexivity.
Qed.

Lemma gs_unparseable p :
  faulted = None -> truthy_opt (FunctionError reply) = false ->
  Payload reply = Some p -> JSON_parse env p = None ->
  getSubtopics env queryId w = (Ok [], w').
Proof.
  intros F FE P J. unfold getSubtopics, try_catch, bind, request at 1.
  fold faulted. rewrite F. fold reply. rewrite FE, P. unfold parse at 1.
  rewrite J. reflexivity.
Qed.

Lemma gs_parsed p v :
  faulted = None -> truthy_opt (FunctionError reply) = false ->
  Payload reply = Some p -> JSON_parse env p = Some v ->
  getSubtopics env queryId w = (Ok (parsed_result env v), w').
Proof.
  intros F FE P J. unfold getSubtopics, try_catch, bind, request at 1.
  fold faulted. rewrite F. fold reply. rewrite FE, P. unfold parse at 1.
  rewrite J. cbn [ret]. unfold parsed_result.
  destruct v as [ |b|q|s|items|fields]; cbn [is_string_array is_array];
    try (destruct (api_gateway_like env _); [|reflexivity];
         unfold parse; destruct (JSON_parse env (body_of _)) as [[ | | | | | ]|];
         reflexivity).
  destruct (forallb is_string items); reflexivity.
Qed.

Lemma gs_total : exists subtopics, getSubtopics env queryId w = (Ok subtopics, w').
Proof.
  destruct faulted as [e|] eqn:F; [eauto using gs_fault|].
  destruct (truthy_opt (FunctionError reply)) eqn:FE; [eauto using gs_function_error|].
  destruct (Payload reply) as [p|] eqn:P; [|eauto using gs_no_payload].
  destruct (JSON_parse env p) as [v|] eqn:J; [|eauto using gs_unparseable].
  eauto using gs_parsed.
Qed.

End GetSubtopics.

(** C10: [getSubtopics] always returns a list and never throws, having
    made exactly one call to the subtopic registry; the list is empty when
    the call fails, when the reply carries a function error or no payload,
    when the payload does not parse, and when what parses is neither an
    array of strings nor a reply with a status code of 2xx whose body
    parses to an array.  With an empty list the subtopic loop of a later
    run does nothing more. *)
Theorem getSubtopics_never_throws env queryId w :
  let reply := subtopics_reply env (List.length (log w)) queryId in
  exists subtopics,
    getSubtopics env queryId w = (Ok subtopics, record_call (LambdaGetSubtopics queryId) w) /\
    (fault env (List.length (log w)) (LambdaGetSubtopics queryId) <> None -> subtopics = []) /\
    (truthy_opt (FunctionError reply) = true -> subtopics = []) /\
    (Payload reply = None -> subtopics = []) /\
    (forall p, Payload reply = Some p -> JSON_parse env p = None -> subtopics = []) /\
    (forall p v, Payload reply = Some p -> JSON_parse env p = Some v ->
       is_string_array v = false -> api_gateway_like env v = false -> subtopics = []) /\
    (forall p v, Payload reply = Some p -> JSON_parse env p = Some v ->
       is_string_array v = false -> JSON_parse env (body_of v) = None -> subtopics = []) /\
    (forall p v b, Payload reply = Some p -> JSON_parse env p = Some v ->
       is_string_array v = false -> JSON_parse env (body_of v) = Some b ->
       is_array b = false -> subtopics = []) /\
    (forall queryDetails currentRunCount, currentRunCount > 0 -> subtopics = [] ->
       analyzeSubtopics env queryDetails queryId currentRunCount w =
         (Ok tt, record_call (LambdaGetSubtopics queryId) w)).
Proof.
  cbn zeta. destruct (gs_total env queryId w) as [subtopics E].
  exists subtopics. split; [exact E|].
  assert (N : forall l, getSubtopics env queryId w =
                          (Ok l, record_call (LambdaGetSubtopics queryId) w) ->
                        subtopics = l) by (intros l E'; congruence).
  destruct (fault env (List.length (log w)) (LambdaGetSubtopics queryId)) as [e|] eqn:F.
  { pose proof (N _ (gs_fault env queryId w e F)) as ->.
    repeat split; try reflexivity.
    intros qd rc Hrc _. unfold analyzeSubtopics.
    replace (rc >? 0) with true by (symmetry; apply Z.gtb_lt; lia).
    unfold bind. rewrite E. reflexivity. }
  destruct (truthy_opt (FunctionError (subtopics_reply env (List.length (log w)) queryId))) eqn:FE.
  { pose proof (N _ (gs_function_error env queryId w F FE)) as ->.
    repeat split; try reflexivity.
    intros qd rc Hrc _. unfold analyzeSubtopics.
    replace (rc >? 0) with true by (symmetry; apply Z.gtb_lt; lia).
    unfold bind. rewrite E. reflexivity. }
  split; [congruence|]. split; [congruence|].
  split. { intros P. apply N. now apply gs_no_payload. }
  split. { intros p P J. apply N. now apply gs_unparseable with p. }
  split.
  { intros p v P J SA AG. apply N. rewrite (gs_parsed env queryId w p v F FE P J).
    unfold parsed_result. rewrite SA, AG. now destruct (is_array v). }
  split.
  { intros p v P J SA JB. apply N. rewrite (gs_parsed env queryId w p v F FE P J).
    unfold parsed_result. rewrite SA, JB.
    now destruct (is_array v), (api_gateway_like env v). }
  split.
  { intros p v b P J SA JB NA. apply N. rewrite (gs_parsed env queryId w p v F FE P J).
    unfold parsed_result. rewrite SA, JB.
    destruct (is_array v), (api_gateway_like env v); try reflexivity.
    destruct b; try reflexivity. discriminate. }
  intros qd rc Hrc ->. unfold analyzeSubtopics.
  replace (rc >? 0) with true by (symmetry; apply Z.gtb_lt; lia).
  unfold bind. rewrite E. reflexivity.
Qed.

Lemma getSubtopics_never_throws_witness :
  exists subtopics,
    getSubtopics Scenario.env 7 (Scenario.fresh (Scenario.music 3)) =
      (Ok subtopics, record_call (LambdaGetSubtopics 7) (Scenario.fresh (Scenario.music 3))).
Proof.
  destruct (getSubtopics_never_throws Scenario.env 7 (Scenario.fresh (Scenario.music 3)))
    as [subtopics [E _]].
  exists subtopics. exact E.
Defined.

(** ** The summary of a search term *)

Lemma same_stores_refl w : same_stores w w.
Proof. now repeat split. Qed.

Lemma same_stores_trans w1 w2 w3 :
  same_stores w1 w2 -> same_stores w2 w3 -> same_stores w1 w3.
Proof. unfold same_stores. intuition congruence. Qed.

Lemma same_stores_record c w : same_stores w (record_call c w).
Proof. now repeat split. Qed.

Lemma scorePost_spec env p w :
  exists pa w',
    scorePost env p w = (Ok pa, w') /\ same_stores w w' /\
    (if JS.blank (text p)
     then w' = w /\ counted pa = false
     else
       let txt := textToAnalyze (match text p with Some x => x | None => [] end) in
       w' = record_call (DetectSentiment txt) w /\
       match fault env (List.length (log w)) (DetectSentiment txt) with
       | Some _ => counted pa = false
       | None => counted pa = truthy_opt (Sentiment (sentiment_reply env (List.length (log w)) txt))
                 /\ reply_of pa = sentiment_reply env (List.length (log w)) txt
       end).
Proof.
  unfold scorePost. destruct (text p) as [postText|] eqn:T.
  2:{ cbn. eexists _, _. split; [reflexivity|]. split; [apply same_stores_refl|]. now split. }
  destruct (JS.blank (Some postText)) eqn:B.
  { eexists _, _. split; [reflexivity|]. split; [apply same_stores_refl|]. now split. }
  unfold try_catch, bind, request. cbn zeta.
  destruct (fault env (List.length (log w)) (DetectSentiment (textToAnalyze postText))) eqn:F.
  - eexists _, _. split; [reflexivity|]. split; [apply same_stores_record|].
    split; [reflexivity|]. unfold counted. cbn. now rewrite andb_false_r.
  - eexists _, _. split; [reflexivity|]. split; [apply same_stores_record|].
    split; [reflexivity|]. unfold counted, reply_of. cbn.
    split; [reflexivity|]. now destruct (sentiment_reply env _ _).
Qed.

Lemma mapM_scorePost_spec env posts : forall w,
  exists ps w',
    mapM (scorePost env) posts w = (Ok ps, w') /\ same_stores w w' /\
    map reply_of (filter counted ps) = successfully_scored env (List.length (log w)) posts.
Proof.
  induction posts as [|p rest IH]; intros w.
  { exists [], w. split; [reflexivity|]. split; [apply same_stores_refl | reflexivity]. }
  destruct (scorePost_spec env p w) as (pa & w1 & E1 & S1 & H1).
  destruct (IH w1) as (ps & w2 & E2 & S2 & H2).
  exists (pa :: ps), w2. split.
  { cbn [mapM]. unfold bind. rewrite E1, E2. reflexivity. }
  split; [eapply same_stores_trans; eauto|].
  cbn [successfully_scored filter].
  destruct (JS.blank (text p)).
  - destruct H1 as [-> C]. rewrite C. exact H2.
  - cbn zeta in H1. destruct H1 as [-> H1]. cbn [record_call log List.length] in H2.
    destruct (fault env (List.length (log w)) _).
    + rewrite H1. exact H2.
    + destruct H1 as [C R]. rewrite C.
      destruct (truthy_opt _); [cbn [map]; now rewrite R, H2 | exact H2].
Qed.

Lemma tally_post_skip acc p : counted p = false -> tally_post acc p = acc.
Proof.
  unfold counted, tally_post. destruct (sentimentAnalysis p); [|reflexivity].
  now intros ->.
Qed.

Lemma tally_post_count acc p :
  counted p = true ->
  let r := reply_of p in
  tally_post acc p =
    {| analyzedCount := analyzedCount acc + 1;
       n_positive := bump (is_label "POSITIVE" (Sentiment r)) (n_positive acc);
       n_negative := bump (is_label "NEGATIVE" (Sentiment r)) (n_negative acc);
       n_neutral := bump (is_label "NEUTRAL" (Sentiment r)) (n_neutral acc);
       n_mixed := bump (is_label "MIXED" (Sentiment r)) (n_mixed acc);
       totalPositiveScore := (totalPositiveScore acc + score_of Positive (SentimentScore_ r))%Q;
       totalNegativeScore := (totalNegativeScore acc + score_of Negative (SentimentScore_ r))%Q;
       totalNeutralScore := (totalNeutralScore acc + score_of Neutral (SentimentScore_ r))%Q;
       totalMixedScore := (totalMixedScore acc + score_of Mixed (SentimentScore_ r))%Q |}.
Proof.
  unfold counted, tally_post, reply_of. destruct (sentimentAnalysis p); [|discriminate].
  now intros ->.
Qed.

Lemma label_count_cons l r rs :
  label_count l (r :: rs) = bump (is_label l (Sentiment r)) (label_count l rs).
Proof.
  unfold label_count, bump. cbn [filter].
  destruct (is_label l (Sentiment r)); cbn [List.length]; lia.
Qed.

Lemma tally_fold ps : forall acc,
  let rs := map reply_of (filter counted ps) in
  let t := fold_left tally_post ps acc in
  analyzedCount t = analyzedCount acc + Z.of_nat (List.length rs) /\
  n_positive t = n_positive acc + label_count "POSITIVE" rs /\
  n_negative t = n_negative acc + label_count "NEGATIVE" rs /\
  n_neutral t = n_neutral acc + label_count "NEUTRAL" rs /\
  n_mixed t = n_mixed acc + label_count "MIXED" rs /\
  totalPositiveScore t =
    fold_left Qplus (map (fun r => score_of Positive (SentimentScore_ r)) rs) (totalPositiveScore acc) /\
  totalNegativeScore t =
    fold_left Qplus (map (fun r => score_of Negative (SentimentScore_ r)) rs) (totalNegativeScore acc) /\
  totalNeutralScore t =
    fold_left Qplus (map (fun r => score_of Neutral (SentimentScore_ r)) rs) (totalNeutralScore acc) /\
  totalMixedScore t =
    fold_left Qplus (map (fun r => score_of Mixed (SentimentScore_ r)) rs) (totalMixedScore acc).
Proof.
  induction ps as [|p ps IH]; intros acc; cbn zeta.
  { cbn. unfold label_count. cbn. repeat split; lia. }
  cbn [fold_left filter].
  specialize (IH (tally_post acc p)). cbn zeta in IH.
  destruct (counted p) eqn:C.
  - rewrite (tally_post_count acc p C) in IH. cbn zeta in IH.
    cbn [analyzedCount n_positive n_negative n_neutral n_mixed totalPositiveScore
         totalNegativeScore totalNeutralScore totalMixedScore] in IH.
    rewrite (tally_post_count acc p C). cbn zeta.
    cbn [map List.length fold_left]. rewrite !label_count_cons.
    destruct IH as (I1 & I2 & I3 & I4 & I5 & I6 & I7 & I8 & I9).
    rewrite I1, I2, I3, I4, I5, I6, I7, I8, I9.
    unfold bump.
    repeat split; try reflexivity;
      repeat match goal with |- context [if ?b then _ else _] => destruct b end; lia.
  - rewrite (tally_post_skip acc p C) in *. exact IH.
Qed.

(** The summary, read on the replies of the posts that count. *)
Lemma summarize_spec queryIdForContext term time postsWithSentiment :
  let scored := map reply_of (filter counted postsWithSentiment) in
  match summarize queryIdForContext term time postsWithSentiment with
  | Some s =>
      scored <> [] /\
      totalPostsAnalyzed s = Z.of_nat (List.length scored) /\
      positivePosts s = label_count "POSITIVE" scored /\
      negativePosts s = label_count "NEGATIVE" scored /\
      neutralPosts s = label_count "NEUTRAL" scored /\
      mixedPosts s = label_count "MIXED" scored /\
      avgPositiveScore s = mean Positive scored /\
      avgNegativeScore s = mean Negative scored /\
      avgNeutralScore s = mean Neutral scored /\
      avgMixedScore s = mean Mixed scored
  | None => scored = []
  end.
Proof.
  cbn zeta. pose proof (tally_fold postsWithSentiment tally0) as T. cbn zeta in T.
  cbn [tally0 analyzedCount n_positive n_negative n_neutral n_mixed totalPositiveScore
       totalNegativeScore totalNeutralScore totalMixedScore] in T.
  destruct T as (T1 & T2 & T3 & T4 & T5 & T6 & T7 & T8 & T9).
  unfold summarize.
  destruct (Z.eqb_spec (analyzedCount (fold_left tally_post postsWithSentiment tally0)) 0)
    as [Z0 | NZ].
  - rewrite T1 in Z0.
    destruct (map reply_of (filter counted postsWithSentiment));
      [reflexivity | cbn in Z0; lia].
  - cbn [totalPostsAnalyzed positivePosts negativePosts neutralPosts mixedPosts
         avgPositiveScore avgNegativeScore avgNeutralScore avgMixedScore].
    rewrite T1 in NZ.
    assert (P : (analyzedCount (fold_left tally_post postsWithSentiment tally0) >? 0) = true).
    { apply Z.gtb_lt. rewrite T1. lia. }
    unfold average. rewrite P, T1, T2, T3, T4, T5, T6, T7, T8, T9.
    unfold mean, score_sum. cbn [Z.add].
    repeat split; try reflexivity.
    intros E0. rewrite E0 in NZ. cbn in NZ. lia.
Qed.




(** ** Footprints: the calls a computation issues and the items it stores *)

Lemma grows_refl w : grows w w [] [].
Proof. unfold grows. now rewrite app_nil_r. Qed.

Lemma grows_trans w1 w2 w3 n1 a1 n2 a2 :
  grows w1 w2 n1 a1 -> grows w2 w3 n2 a2 -> grows w1 w3 (n2 ++ n1) (a1 ++ a2).
Proof.
  unfold grows. intros (L1 & D1 & Q1) (L2 & D2 & Q2).
  rewrite L2, L1, D2, D1, Q2, Q1, !app_assoc. auto.
Qed.

Section Footprints.
Variable env : Env.
Variable allowed : Service -> bool.
Variable PI : DataItem -> Prop.

Lemma fp_ret {A} (a : A) : footprint allowed PI (ret a).
Proof. intros w. exists [], []. cbn. auto using grows_refl. Qed.

Lemma fp_throw {A} e : footprint allowed PI (@throw A e).
Proof. intros w. exists [], []. cbn. auto using grows_refl. Qed.

Lemma fp_Date_now : footprint allowed PI (Date_now env).
Proof. intros w. exists [], []. cbn. auto using grows_refl. Qed.

Lemma fp_bind {A B} (c : M A) (k : A -> M B) :
  footprint allowed PI c -> (forall a, footprint allowed PI (k a)) -> footprint allowed PI (bind c k).
Proof.
  intros Hc Hk w. unfold bind. destruct (Hc w) as (n1 & a1 & G1 & C1 & I1).
  destruct (c w) as [[a|e] w1]; cbn [snd] in *.
  - destruct (Hk a w1) as (n2 & a2 & G2 & C2 & I2).
    exists (n2 ++ n1), (a1 ++ a2). split; [eapply grows_trans; eauto|].
    split; apply Forall_app; auto.
  - exists n1, a1. auto.
Qed.

Lemma fp_try_catch {A} (c : M A) (h : JsError -> M A) :
  footprint allowed PI c -> (forall e, footprint allowed PI (h e)) -> footprint allowed PI (try_catch c h).
Proof.
  intros Hc Hh w. unfold try_catch. destruct (Hc w) as (n1 & a1 & G1 & C1 & I1).
  destruct (c w) as [[a|e] w1]; cbn [snd] in *.
  - exists n1, a1. auto.
  - destruct (Hh e w1) as (n2 & a2 & G2 & C2 & I2).
    exists (n2 ++ n1), (a1 ++ a2). split; [eapply grows_trans; eauto|].
    split; apply Forall_app; auto.
Qed.

(** A call whose reply leaves the Data table and the log as they are. *)
Lemma fp_request {A} (c : Call) (reply : nat -> World -> outcome A * World) :
  allowed (service c) = true ->
  (forall t w, grows w (snd (reply t w)) [] []) ->
  footprint allowed PI (request env c reply).
Proof.
  intros Hc Hr w. unfold request.
  destruct (fault env _ c).
  - exists [c], []. cbn. repeat split; auto; now rewrite app_nil_r.
  - specialize (Hr (List.length (log w)) (record_call c w)).
    destruct Hr as (L & D & Q). cbn in *.
    exists [c], []. repeat split; auto.
Qed.

Lemma fp_send_DataPut item :
  allowed SvcPut = true -> PI item -> footprint allowed PI (send_DataPut env item).
Proof.
  intros Hc Hi w. unfold send_DataPut, request.
  destruct (fault env _ _).
  - exists [DataPut item], []. cbn. repeat split; auto; now rewrite app_nil_r.
  - exists [DataPut item], [item]. cbn. repeat split; auto.
Qed.

Lemma fp_mapM {A B} (f : A -> M B) l :
  (forall x, footprint allowed PI (f x)) -> footprint allowed PI (mapM f l).
Proof.
  intros Hf. induction l as [|x l IH]; cbn [mapM].
  - apply fp_ret.
  - apply fp_bind; [apply Hf|]. intros y. apply fp_bind; [apply IH|].
    intros ys. apply fp_ret.
Qed.

Lemma fp_forM_ {A} (f : A -> M unit) l :
  (forall x, footprint allowed PI (f x)) -> footprint allowed PI (forM_ f l).
Proof.
  intros Hf. induction l as [|x l IH]; cbn [forM_].
  - apply fp_ret.
  - apply fp_bind; [apply Hf|]. intros _. apply IH.
Qed.

End Footprints.

Ltac fp_pure :=
  intros; cbn [snd fst];
  first [ apply grows_refl
        | repeat split; cbn; try rewrite app_nil_r; reflexivity
        | match goal with |- grows _ (snd (match ?x with _ => _ end)) _ _ => destruct x end;
          cbn [snd]; repeat split; cbn; try rewrite app_nil_r; reflexivity ].

Ltac fp_step :=
  first
    [ apply fp_ret | apply fp_throw | apply fp_Date_now
    | apply fp_bind; [|intros ?]
    | apply fp_try_catch; [|intros ?]
    | apply fp_mapM; intros ?
    | apply fp_forM_; intros ?
    | apply fp_send_DataPut; [assumption || reflexivity | auto]
    | apply fp_request; [assumption || reflexivity | fp_pure]
    | match goal with
      | |- footprint _ _ (if ?b then _ else _) => destruct b
      | |- footprint _ _ (match ?x with _ => _ end) => destruct x
      | |- footprint _ _ (let (_, _) := ?x in _) => destruct x
      end ].

Section FunctionFootprints.
Variable env : Env.
Variable allowed : Service -> bool.
Variable PI : DataItem -> Prop.
Lemma fp_getQueryDetails queryId hint :
  allowed SvcQueries = true -> footprint allowed PI (getQueryDetails env queryId hint).
Proof.
  intros H. unfold getQueryDetails, send_QueriesGet, send_QueriesQuery.
  repeat fp_step.
Qed.

Lemma fp_getNextDataId name :
  allowed SvcCounter = true -> footprint allowed PI (getNextDataId env name).
Proof.
  intros H. unfold getNextDataId, send_CounterUpdate, send_CounterGet, send_CounterPutIfAbsent.
  repeat fp_step.
Qed.

Lemma fp_checkRunCount queryId :
  allowed SvcScan = true -> footprint allowed PI (checkRunCount env queryId).
Proof.
  intros H. unfold checkRunCount, send_DataScanCount. repeat fp_step.
Qed.

Lemma fp_deleteSchedule queryId :
  allowed SvcScheduler = true -> footprint allowed PI (deleteSchedule env queryId).
Proof. intros H. unfold deleteSchedule. repeat fp_step. Qed.

Lemma fp_triggerEmailNotification qd :
  allowed SvcPublish = true -> footprint allowed PI (triggerEmailNotification env qd).
Proof. intros H. unfold triggerEmailNotification. repeat fp_step. Qed.

Lemma fp_triggerAddSubtopicLambda queryId s :
  allowed SvcAddSubtopic = true -> footprint allowed PI (triggerAddSubtopicLambda env queryId s).
Proof. intros H. unfold triggerAddSubtopicLambda. cbn zeta. repeat fp_step. Qed.

Lemma fp_getSubtopics queryId :
  allowed SvcGetSubtopics = true -> footprint allowed PI (getSubtopics env queryId).
Proof.
  intros H. unfold getSubtopics, parse. repeat fp_step.
Qed.

Lemma fp_scorePost p : allowed SvcSentiment = true -> footprint allowed PI (scorePost env p).
Proof. intros H. unfold scorePost. repeat fp_step. Qed.

Lemma fp_keyPhrasePost p :
  allowed SvcKeyPhrases = true -> footprint allowed PI (keyPhrasePost env p).
Proof. intros H. unfold keyPhrasePost. repeat fp_step. Qed.

Lemma fp_analyzeSentimentForTerm term limit queryId :
  allowed SvcSearch = true -> allowed SvcSentiment = true ->
  footprint allowed PI (analyzeSentimentForTerm env term limit queryId).
Proof.
  intros H1 H2. unfold analyzeSentimentForTerm.
  repeat first [apply fp_scorePost; assumption | fp_step].
Qed.

End FunctionFootprints.

(** ** Sorting *)

Section Sort.
Context {A : Type} (ahead : A -> A -> bool).

Lemma insert_by_perm x l : Permutation (insert_by ahead x l) (x :: l).
Proof.
  induction l as [|y l IH]; cbn; [reflexivity|].
  destruct (ahead y x); [|reflexivity].
  rewrite IH. apply perm_swap.
Qed.

Lemma sort_by_perm l : Permutation (sort_by ahead l) l.
Proof.
  induction l as [|x l IH]; cbn; [reflexivity|].
  fold (sort_by ahead l). rewrite insert_by_perm. now constructor.
Qed.

End Sort.



Lemma filter_partition_perm {A} (f : A -> bool) l :
  Permutation (filter f l ++ filter (fun x => negb (f x)) l) l.
Proof.
  induction l as [|x l IH]; cbn; [reflexivity|].
  destruct (f x); cbn.
  - now constructor.
  - rewrite <- Permutation_middle. now constructor.
Qed.

Lemma Object_entries_perm counts : Permutation (Object_entries counts) counts.
Proof.
  unfold Object_entries. rewrite sort_by_perm. apply filter_partition_perm.
Qed.

Lemma sortedPhrases_perm counts : Permutation (sortedPhrases counts) counts.
Proof.
  unfold sortedPhrases. rewrite sort_by_perm. apply Object_entries_perm.
Qed.


(** ** Order of occurrence *)



Lemma before_map {A B} (f : A -> B) x y l : before x y l -> before (f x) (f y) (map f l).
Proof.
  intros (l1 & l2 & l3 & ->). exists (map f l1), (map f l2), (map f l3).
  now rewrite !map_app, !map_cons, !map_app, !map_cons.
Qed.








Lemma filter_map_fst {A B} (f : A -> bool) (l : list (A * B)) :
  filter f (map fst l) = map fst (filter (fun e => f (fst e)) l).
Proof.
  induction l as [|e l IH]; cbn; [reflexivity|].
  destruct (f (fst e)); cbn; now rewrite IH.
Qed.

(** ** The subtopics chosen from the counts *)

Section Selection.
Variable env : Env.
Variable mainTopic : jsstring.

Lemma finalSubtopics_entries counts :
  finalSubtopics env mainTopic counts = map fst (finalEntries env mainTopic counts).
Proof.
  unfold finalSubtopics, finalEntries, potentialSubtopics.
  now rewrite filter_map_fst, firstn_map.
Qed.

Lemma finalEntries_incl counts e : In e (finalEntries env mainTopic counts) -> In e counts.
Proof.
  unfold finalEntries. intros I. apply In_firstn in I. apply filter_In in I as [I _].
  apply In_firstn in I. eapply Permutation_in; [apply sortedPhrases_perm | exact I].
Qed.





(** ** The counts *)

Lemma count_of_increment k k' counts :
  count_of k (increment k' counts) = count_of k counts + (if JS.str_eqb k' k then 1 else 0).
Proof.
  unfold count_of. induction counts as [|[k0 n] counts IH]; cbn.
  - destruct (JS.str_eqb k' k); cbn; lia.
  - destruct (JS.str_eqb k0 k') eqn:E0; cbn.
    + apply str_eqb_eq in E0. subst k0.
      destruct (JS.str_eqb k' k); cbn; lia.
    + destruct (JS.str_eqb k0 k) eqn:E1; cbn.
      * apply str_eqb_eq in E1. subst k0.
        destruct (JS.str_eqb k' k) eqn:E2; [|lia].
        apply str_eqb_eq in E2. subst. now rewrite str_eqb_refl in E0.
      * exact IH.
Qed.

Lemma keys_increment k k' counts :
  In k (map fst (increment k' counts)) <-> k = k' \/ In k (map fst counts).
Proof.
  induction counts as [|[k0 n] counts IH]; cbn.
  - intuition.
  - destruct (JS.str_eqb k0 k') eqn:E0; cbn.
    + apply str_eqb_eq in E0. subst k0. intuition.
    + rewrite IH. intuition.
Qed.

Lemma NoDup_increment k' counts :
  NoDup (map fst counts) -> NoDup (map fst (increment k' counts)).
Proof.
  induction counts as [|[k0 n] counts IH]; cbn; intros N.
  - repeat constructor. intros [].
  - inversion N as [|? ? NI N']; subst.
    destruct (JS.str_eqb k0 k') eqn:E0; cbn.
    + now constructor.
    + constructor; [|now apply IH].
      rewrite keys_increment. apply str_eqb_neq in E0. intros [-> | I]; auto.
Qed.

Lemma positive_increment k' counts :
  Forall (fun e => 0 < snd e) counts -> Forall (fun e => 0 < snd e) (increment k' counts).
Proof.
  induction 1 as [|[k0 n] counts H F IH]; cbn.
  - repeat constructor.
  - destruct (JS.str_eqb k0 k'); constructor; cbn in *; auto; lia.
Qed.


Lemma fold_count_phrase phrases : forall done counts,
  counted_from env mainTopic done counts ->
  counted_from env mainTopic (done ++ phrases) (fold_left (count_phrase env mainTopic) phrases counts).
Proof.
  induction phrases as [|ph phrases IH]; intros done counts H; cbn [fold_left].
  { now rewrite app_nil_r. }
  replace (done ++ ph :: phrases) with ((done ++ [ph]) ++ phrases)
    by (now rewrite <- app_assoc).
  apply IH. destruct H as (N & P & K & C).
  unfold count_phrase. destruct (acceptable env mainTopic (normalize env ph)) eqn:A.
  - split; [now apply NoDup_increment|]. split; [now apply positive_increment|]. split.
    + intros k Ik. apply keys_increment in Ik as [-> | Ik].
      * split; [exact A|]. exists ph. split; [apply in_or_app; right; now left | reflexivity].
      * destruct (K k Ik) as (Ak & phrase & Ip & E). split; [exact Ak|].
        exists phrase. split; [apply in_or_app; now left | exact E].
    + intros k Ak. rewrite count_of_increment, (C k Ak).
      unfold occurrences. rewrite filter_app, length_app. cbn [filter].
      destruct (JS.str_eqb (normalize env ph) k); cbn [List.length]; lia.
  - split; [exact N|]. split; [exact P|]. split.
    + intros k Ik. destruct (K k Ik) as (Ak & phrase & Ip & E). split; [exact Ak|].
      exists phrase. split; [apply in_or_app; now left | exact E].
    + intros k Ak. rewrite (C k Ak).
      unfold occurrences. rewrite filter_app, length_app. cbn [filter].
      destruct (JS.str_eqb (normalize env ph) k) eqn:E; cbn [List.length]; [|lia].
      apply str_eqb_eq in E. congruence.
Qed.

Lemma fold_count_post posts : forall counts,
  fold_left (count_post env mainTopic) posts counts =
  fold_left (count_phrase env mainTopic) (extracted posts) counts.
Proof.
  induction posts as [|p posts IH]; intros counts; [reflexivity|].
  cbn [fold_left extracted flat_map]. rewrite fold_left_app, IH. f_equal.
  unfold count_post. destruct (keyPhraseAnalysis p) as [a|]; [|reflexivity].
  destruct (negb (truthy_msg (kp_error a))); [|reflexivity].
  now destruct (phrases a).
Qed.

Lemma phraseCounts_counted posts :
  counted_from env mainTopic (extracted posts) (phraseCounts env mainTopic posts).
Proof.
  unfold phraseCounts. rewrite fold_count_post.
  apply (fold_count_phrase (extracted posts) [] []).
  split; [constructor|]. split; [constructor|]. split; [intros k []|].
  intros k _. reflexivity.
Qed.

End Selection.

(** ** Computations that never throw *)

Lemma safe_ret {A} (a : A) : safe (ret a).
Proof. intros w. now exists a. Qed.

Lemma safe_bind {A B} (c : M A) (k : A -> M B) :
  safe c -> (forall a, safe (k a)) -> safe (bind c k).
Proof.
  intros Hc Hk w. unfold bind. destruct (Hc w) as [a Ha].
  destruct (c w) as [[a'|e] w1]; cbn in Ha; [|discriminate].
  apply Hk.
Qed.

Lemma safe_try_catch {A} (c : M A) (h : JsError -> M A) :
  (forall e, safe (h e)) -> safe (try_catch c h).
Proof.
  intros Hh w. unfold try_catch. destruct (c w) as [[a|e] w1].
  - now exists a.
  - apply Hh.
Qed.

Lemma safe_mapM {A B} (f : A -> M B) l : (forall x, safe (f x)) -> safe (mapM f l).
Proof.
  intros Hf. induction l as [|x l IH]; cbn [mapM]; [apply safe_ret|].
  apply safe_bind; [apply Hf|]. intros y. apply safe_bind; [apply IH|].
  intros ys. apply safe_ret.
Qed.

Lemma safe_forM_ {A} (f : A -> M unit) l : (forall x, safe (f x)) -> safe (forM_ f l).
Proof.
  intros Hf. induction l as [|x l IH]; cbn [forM_]; [apply safe_ret|].
  apply safe_bind; [apply Hf|]. intros _. apply IH.
Qed.


Ltac safe_step :=
  first
    [ apply safe_ret
    | apply safe_try_catch; intros ?
    | apply safe_bind; [|intros ?]
    | apply safe_mapM; intros ?
    | apply safe_forM_; intros ?
    | match goal with
      | |- safe (if ?b then _ else _) => destruct b
      | |- safe (match ?x with _ => _ end) => destruct x
      end ].

Section Safe.
Variable env : Env.

Lemma safe_deleteSchedule q : safe (deleteSchedule env q).
Proof. unfold deleteSchedule. repeat safe_step. Qed.

Lemma safe_triggerAddSubtopicLambda q s : safe (triggerAddSubtopicLambda env q s).
Proof. unfold triggerAddSubtopicLambda. cbn zeta. repeat safe_step. Qed.

Lemma safe_getSubtopics q : safe (getSubtopics env q).
Proof. unfold getSubtopics. repeat safe_step. Qed.

Lemma safe_scorePost p : safe (scorePost env p).
Proof. unfold scorePost. repeat safe_step. Qed.

Lemma safe_keyPhrasePost p : safe (keyPhrasePost env p).
Proof. unfold keyPhrasePost. repeat safe_step. Qed.

Lemma safe_analyzeSentimentForTerm term limit q : safe (analyzeSentimentForTerm env term limit q).
Proof. unfold analyzeSentimentForTerm. repeat safe_step. Qed.

Lemma safe_analyzeMainTopic qd q rc : safe (analyzeMainTopic env qd q rc).
Proof. unfold analyzeMainTopic. repeat safe_step. Qed.

Lemma safe_analyzeSubtopic qd q s : safe (analyzeSubtopic env qd q s).
Proof. unfold analyzeSubtopic. repeat safe_step. Qed.

Lemma safe_analyzeSubtopics qd q rc : safe (analyzeSubtopics env qd q rc).
Proof.
  unfold analyzeSubtopics.
  repeat first [apply safe_getSubtopics | apply safe_analyzeSubtopic | safe_step].
Qed.

End Safe.

Lemma Forall_nothing added : Forall nothing added -> added = [].
Proof. destruct 1 as [|x l H _]; [reflexivity | destruct H]. Qed.

(** A footprint, read at one world. *)
Lemma footprint_run {A} allowed PI (c : M A) w r w' :
  footprint allowed PI c -> c w = (r, w') ->
  exists new added, grows w w' new added /\
    Forall (fun c => allowed (service c) = true) new /\ Forall PI added.
Proof. intros H E. specialize (H w). now rewrite E in H. Qed.

Lemma safe_run {A} (c : M A) w : safe c -> exists a w', c w = (Ok a, w').
Proof.
  intros H. destruct (H w) as [a E]. destruct (c w) as [r w'].
  cbn in E. subst. eauto.
Qed.

Lemma grows_call w w1 n a c : grows w w1 n a -> grows w (record_call c w1) (c :: n) a.
Proof. intros (L & D & Q). repeat split; cbn; auto. now rewrite L. Qed.

Lemma grows_put w w1 n c it :
  grows w w1 n [] -> grows w (append_item it (record_call c w1)) (c :: n) [it].
Proof.
  intros (L & D & Q). repeat split; cbn; auto.
  - now rewrite L.
  - now rewrite D, app_nil_r.
Qed.

Ltac weaken H :=
  eapply Forall_impl; [|exact H];
  let c := fresh "c" in
  intros c; cbn beta; destruct (service c); cbn;
  repeat match goal with |- context [?a =? ?b] => destruct (a =? b) end;
  cbn; congruence.

Lemma registrations_app a b : registrations (a ++ b) = registrations b ++ registrations a.
Proof. unfold registrations. now rewrite rev_app_distr, flat_map_app. Qed.

Lemma registrations_none allowed l :
  Forall (fun c => allowed (service c) = true) l -> allowed SvcAddSubtopic = false ->
  registrations l = [].
Proof.
  intros F N. unfold registrations.
  assert (F' : Forall (fun c => allowed (service c) = true) (rev l)).
  { apply Forall_forall. intros c I. apply in_rev in I.
    rewrite Forall_forall in F. now apply F. }
  induction F' as [|c l' H _ IH]; cbn; [reflexivity|].
  rewrite IH. destruct c; cbn in *; try reflexivity. congruence.
Qed.

Lemma truncated_truthy p : JS.length p > 2 -> JS.truthy (truncated p) = true.
Proof.
  unfold truncated, JS.length, JS.substring0, MAX_SUBTOPIC_LENGTH.
  destruct p as [|u p]; cbn [List.length]; [lia|]. intros _.
  destruct (_ >? 255); reflexivity.
Qed.

Section HandlerSpecs.
Variable env : Env.

Lemma trigger_loop queryId l : forall w,
  Forall (fun p => JS.truthy (truncated p) = true) l ->
  exists w' new,
    forM_ (triggerAddSubtopicLambda env queryId) l w = (Ok tt, w') /\
    log w' = new ++ log w /\
    registrations new = map (fun p => (queryId, truncated p)) l.
Proof.
  induction l as [|p l IH]; intros w F.
  { exists w, []. now repeat split. }
  inversion F as [|? ? T F']; subst.
  cbn [forM_]. unfold bind.
  assert (E : exists w1, triggerAddSubtopicLambda env queryId p w = (Ok tt, w1) /\
                         log w1 = LambdaAddSubtopic queryId (truncated p) :: log w).
  { exists (record_call (LambdaAddSubtopic queryId (truncated p)) w).
    split; [|reflexivity].
    unfold triggerAddSubtopicLambda. cbn zeta. unfold truncated in T |- *.
    rewrite T. cbn [negb]. unfold try_catch, request.
    now destruct (fault env _ _). }
  destruct E as (w1 & -> & L1).
  destruct (IH w1 F') as (w' & new & -> & L & R).
  exists w', (new ++ [LambdaAddSubtopic queryId (truncated p)]).
  split; [reflexivity|]. split; [now rewrite L, L1, <- app_assoc|].
  rewrite registrations_app, R. reflexivity.
Qed.

Lemma chosen_long mainTopic posts p :
  In p (finalSubtopics env mainTopic (phraseCounts env mainTopic posts)) ->
  JS.length p > 2.
Proof.
  intros I. rewrite finalSubtopics_entries in I.
  apply in_map_iff in I as (e & <- & I). apply finalEntries_incl in I.
  destruct (phraseCounts_counted env mainTopic posts) as (_ & _ & K & _).
  destruct (K (fst e) (in_map fst _ _ I)) as [A _].
  unfold acceptable in A. apply andb_true_iff in A as [A _].
  apply andb_true_iff in A as [_ A]. apply Z.gtb_lt in A. lia.
Qed.

Lemma firstRunActions_registrations qd queryId posts w :
  exists new,
    log (snd (firstRunActions env qd queryId posts w)) = new ++ log w /\
    first_run_registrations env qd queryId posts (registrations new).
Proof.
  unfold firstRunActions, bind. unfold request at 1.
  destruct (fault env _ _).
  { exists [SnsSubscribe (Email qd)]. split; [reflexivity | now left]. }
  destruct posts as [|p0 posts'].
  { exists [SnsSubscribe (Email qd)]. split; [reflexivity | now left]. }
  set (posts := p0 :: posts'). set (w0 := record_call (SnsSubscribe (Email qd)) w).
  destruct (safe_run _ w0 (safe_mapM _ posts (safe_keyPhrasePost env))) as (pwk & w1 & E1).
  rewrite E1.
  assert (F1 : footprint (only [SvcKeyPhrases]) nothing (mapM (keyPhrasePost env) posts)).
  { apply fp_mapM. intros p. apply fp_keyPhrasePost. reflexivity. }
  destruct (footprint_run _ _ _ _ _ _ F1 E1) as (n1 & a1 & (L1 & _) & C1 & _).
  set (chosen := finalSubtopics env (Topic qd) (phraseCounts env (Topic qd) pwk)).
  destruct (trigger_loop queryId chosen w1) as (w2 & n2 & E2 & L2 & R2).
  { apply Forall_forall. intros p Ip. apply truncated_truthy. eapply chosen_long; eauto. }
  rewrite E2. cbn [snd].
  exists (n2 ++ n1 ++ [SnsSubscribe (Email qd)]). split.
  { rewrite L2, L1. subst w0. cbn. now rewrite <- !app_assoc. }
  right. exists w0, w1, pwk. split; [exact E1|].
  rewrite !registrations_app, R2, (registrations_none _ _ C1 eq_refl).
  subst chosen. rewrite finalSubtopics_entries, map_map. reflexivity.
Qed.

Lemma summary_identity term limit qid w s posts w' :
  analyzeSentimentForTerm env term limit qid w = (Ok (Some s, posts), w') ->
  queryId s = qid /\ topic s = term /\
  posts = posts_found env (List.length (log w)) term limit.
Proof.
  unfold analyzeSentimentForTerm, try_catch, bind, request, ret.
  destruct (fault env _ _); [intros E; cbn in E; congruence|].
  destruct (posts_found env _ term limit) as [|p0 found]; [intros E; cbn in E; congruence|].
  destruct (mapM _ _ _) as [[ps|e] w1]; [|intros E; cbn in E; congruence].
  unfold Date_now, ret, summarize.
  destruct (_ =? 0); intros E; inversion E; subst; cbn; auto.
Qed.

Lemma fp_firstRunActions allowed PI qd queryId posts :
  allowed SvcSubscribe = true -> allowed SvcKeyPhrases = true ->
  allowed SvcAddSubtopic = true ->
  footprint allowed PI (firstRunActions env qd queryId posts).
Proof.
  intros H1 H2 H3. unfold firstRunActions.
  repeat first [ apply fp_keyPhrasePost; assumption
               | apply fp_triggerAddSubtopicLambda; assumption
               | fp_step ].
Qed.

(** Storing the main topic's summary: it throws and stores nothing, or it
    returns and has stored one main-topic item. *)
Lemma storeAnalysisResults_spec summary w :
  exists r w' new added,
    storeAnalysisResults env summary w = (r, w') /\ grows w w' new added /\
    Forall (fun c => only [SvcCounter; SvcPut] (service c) = true) new /\
    ((exists e, r = Throw e /\ added = []) \/
     (exists dataId createdAt, r = Ok tt /\ added = [main_item dataId createdAt summary])).
Proof.
  unfold storeAnalysisResults. destruct (DATA_TABLE_NAME env); cbn [negb].
  2:{ eexists _, _, [], []. split; [reflexivity|]. split; [apply grows_refl|].
      split; [constructor|]. left. eauto. }
  unfold bind at 1.
  destruct (getNextDataId env DATA_COUNTER_NAME w) as [[dataId|e] w1] eqn:E1.
  2:{ destruct (footprint_run (only [SvcCounter; SvcPut]) nothing _ _ _ _
                  (fp_getNextDataId env _ _ _ eq_refl) E1) as (n1 & a1 & G1 & C1 & I1).
      apply Forall_nothing in I1. subst a1.
      eexists _, _, n1, []. split; [reflexivity|]. split; [exact G1|].
      split; [exact C1|]. left. eauto. }
  destruct (footprint_run (only [SvcCounter; SvcPut]) nothing _ _ _ _
              (fp_getNextDataId env _ _ _ eq_refl) E1) as (n1 & a1 & G1 & C1 & I1).
  apply Forall_nothing in I1. subst a1.
  unfold try_catch, bind, Date_now, send_DataPut, request.
  set (item := main_item dataId (now env (List.length (log w1))) summary).
  destruct (fault env (List.length (log w1)) (DataPut item)) as [e|].
  - eexists _, _, (DataPut item :: n1), []. split; [reflexivity|].
    split; [now apply grows_call|].
    split; [constructor; [reflexivity | exact C1]|]. left. eauto.
  - eexists _, _, (DataPut item :: n1), [item]. split; [reflexivity|].
    split; [now apply grows_put|].
    split; [constructor; [reflexivity | exact C1]|]. right.
    exists dataId, (now env (List.length (log w1))). now split.
Qed.

Lemma analyzeMainTopic_spec qd queryId rc w :
  exists stored w' new added,
    analyzeMainTopic env qd queryId rc w = (Ok stored, w') /\
    grows w w' new added /\
    (if stored then exists it, added = [it] /\ tagged_main queryId it = true
     else added = []) /\
    Forall (fun c => allowed_main ((rc =? 0) && stored) (service c) = true) new /\
    first_run_registrations env qd queryId
      (posts_found env (List.length (log w)) (Topic qd) (PostsToAnalyze qd))
      (registrations new).
Proof.
  unfold analyzeMainTopic. unfold try_catch at 1, bind at 1.
  destruct (safe_run _ w (safe_analyzeSentimentForTerm env (Topic qd) (PostsToAnalyze qd) queryId))
    as ([summary posts] & w1 & E1).
  rewrite E1. cbn [fst snd].
  destruct (footprint_run (only [SvcSearch; SvcSentiment]) nothing _ _ _ _
              (fp_analyzeSentimentForTerm env _ _ _ _ _ eq_refl eq_refl) E1)
    as (n1 & a1 & G1 & C1 & I1).
  apply Forall_nothing in I1. subst a1.
  destruct summary as [s|].
  2:{ exists false, w1, n1, []. split; [reflexivity|]. split; [exact G1|].
      split; [reflexivity|]. split; [weaken C1|].
      left. apply (registrations_none _ _ C1 eq_refl). }
  destruct (summary_identity _ _ _ _ _ _ _ E1) as (Sq & St & Sp).
  destruct (storeAnalysisResults_spec s w1) as (r & w2 & n2 & a2 & E2 & G2 & C2 & R2).
  unfold bind at 1. rewrite E2.
  destruct R2 as [(e & -> & ->) | (dataId & createdAt & -> & ->)].
  { exists false, w2, (n2 ++ n1), []. split; [reflexivity|].
    split; [apply (grows_trans _ _ _ _ _ _ _ G1 G2)|].
    split; [reflexivity|]. split; [apply Forall_app; split; [weaken C2 | weaken C1]|].
    left. rewrite registrations_app, (registrations_none _ _ C1 eq_refl),
            (registrations_none _ _ C2 eq_refl). reflexivity. }
  unfold bind.
  set (first := try_catch (if rc =? 0 then firstRunActions env qd queryId posts else ret tt)
                          (fun _ => ret tt)).
  assert (Sf : safe first) by (subst first; repeat safe_step).
  destruct (safe_run _ w2 Sf) as ([] & w3 & E3). rewrite E3.
  assert (Ff : footprint (fun s => (rc =? 0) && only [SvcSubscribe; SvcKeyPhrases; SvcAddSubtopic] s)
                         nothing first).
  { subst first. destruct (rc =? 0); cbn [andb].
    - apply fp_try_catch; [|intros; apply fp_ret].
      apply fp_firstRunActions; reflexivity.
    - apply fp_try_catch; [|intros; apply fp_ret]. apply fp_ret. }
  destruct (footprint_run _ _ _ _ _ _ Ff E3) as (n3 & a3 & G3 & C3 & I3).
  apply Forall_nothing in I3. subst a3.
  exists true, w3, (n3 ++ n2 ++ n1), [main_item dataId createdAt s].
  split; [reflexivity|].
  split. { pose proof (grows_trans _ _ _ _ _ _ _ (grows_trans _ _ _ _ _ _ _ G1 G2) G3) as G.
           cbn in G. exact G. }
  split. { eexists. split; [reflexivity|]. unfold tagged_main. cbn. now rewrite Sq, Z.eqb_refl. }
  split.
  { rewrite andb_true_r. repeat (apply Forall_app; split);
      [weaken C3 | weaken C2 | weaken C1]. }
  rewrite !registrations_app, (registrations_none _ _ C1 eq_refl),
    (registrations_none _ _ C2 eq_refl). cbn [app].
  subst first. unfold try_catch, ret in E3. destruct (rc =? 0).
  - destruct (firstRunActions_registrations qd queryId posts w2) as (n3' & L3' & R3).
    assert (log w3 = n3' ++ log w2) as L3.
    { destruct (firstRunActions env qd queryId posts w2) as [[[]|e] wx];
        cbn in E3, L3'; congruence. }
    destruct G3 as (L3'' & _).
    assert (n3 = n3') as -> by (apply (app_inv_tail (log w2)); congruence).
    rewrite <- Sp. exact R3.
  - left. destruct G3 as (L3 & _). cbn in E3. injection E3 as <-.
    assert (n3 = []) as -> by (apply (app_inv_tail (log w2)); now rewrite <- L3).
    reflexivity.
Qed.

End HandlerSpecs.

(** ** The steps of an invocation *)

Section Specs.
Variable env : Env.

Lemma fp_storeSubtopicAnalysisResults allowed (PI : DataItem -> Prop) summary subtopic mainTopic :
  allowed SvcCounter = true -> allowed SvcPut = true ->
  (forall dataId createdAt, PI (subtopic_item dataId createdAt summary subtopic mainTopic)) ->
  footprint allowed PI (storeSubtopicAnalysisResults env summary subtopic mainTopic).
Proof.
  intros H1 H2 H3. unfold storeSubtopicAnalysisResults.
  repeat first [ apply fp_getNextDataId; assumption | fp_step ].
Qed.

Lemma fp_analyzeSubtopic allowed qd queryId subtopic :
  allowed SvcSearch = true -> allowed SvcSentiment = true ->
  allowed SvcCounter = true -> allowed SvcPut = true ->
  footprint allowed is_subtopic_item (analyzeSubtopic env qd queryId subtopic).
Proof.
  intros H1 H2 H3 H4. unfold analyzeSubtopic.
  repeat first [ apply fp_analyzeSentimentForTerm; assumption
               | apply fp_storeSubtopicAnalysisResults; [assumption | assumption | reflexivity]
               | fp_step ].
Qed.

Lemma fp_analyzeSubtopics allowed qd queryId rc :
  allowed SvcGetSubtopics = true ->
  allowed SvcSearch = true -> allowed SvcSentiment = true ->
  allowed SvcCounter = true -> allowed SvcPut = true ->
  footprint allowed is_subtopic_item (analyzeSubtopics env qd queryId rc).
Proof.
  intros H0 H1 H2 H3 H4. unfold analyzeSubtopics.
  repeat first [ apply fp_getSubtopics; assumption
               | apply fp_analyzeSubtopic; assumption
               | fp_step ].
Qed.

Lemma analyzeSubtopics_spec qd queryId rc w :
  exists w' new added,
    analyzeSubtopics env qd queryId rc w = (Ok tt, w') /\
    grows w w' new added /\
    Forall is_subtopic_item added /\
    Forall (fun c => only [SvcGetSubtopics; SvcSearch; SvcSentiment; SvcCounter; SvcPut]
                          (service c) = true) new /\
    (rc = 0 -> w' = w).
Proof.
  destruct (safe_run _ w (safe_analyzeSubtopics env qd queryId rc)) as ([] & w' & E).
  destruct (footprint_run _ _ _ _ _ _
              (fp_analyzeSubtopics (only [SvcGetSubtopics; SvcSearch; SvcSentiment; SvcCounter; SvcPut])
                                   qd queryId rc eq_refl eq_refl eq_refl eq_refl eq_refl) E)
    as (new & added & G & C & I).
  exists w', new, added.
  split; [exact E|]. split; [exact G|]. split; [exact I|]. split; [exact C|].
  intros ->. unfold analyzeSubtopics, ret in E. cbn in E. congruence.
Qed.

Lemma finalCheckAndCleanup_spec qd queryId rc stored w :
  let publish := SnsPublish (Email qd) (QueryID qd) in
  finalCheckAndCleanup env qd queryId rc stored w =
    if effective rc stored >=? NumIntervals qd then
      if JS.truthy (Email qd) then
        match fault env (List.length (log w)) publish with
        | Some e => (Throw e, record_call publish w)
        | None => (Ok (effective rc stored),
                   record_call (SchedulerDelete queryId) (record_call publish w))
        end
      else (Ok (effective rc stored), record_call (SchedulerDelete queryId) w)
    else (Ok (effective rc stored), w).
Proof.
  cbn zeta. unfold finalCheckAndCleanup. fold (effective rc stored).
  destruct (effective rc stored >=? NumIntervals qd); [|reflexivity].
  unfold triggerEmailNotification, deleteSchedule, bind, try_catch, request, ret.
  destruct (JS.truthy (Email qd)); cbn [negb].
  - destruct (fault env (List.length (log w)) _); [reflexivity|]. cbn.
    now destruct (fault env _ _).
  - cbn. now destruct (fault env _ _).
Qed.

Lemma early_exit_spec qd queryId w :
  let publish := SnsPublish (Email qd) (QueryID qd) in
  (triggerEmailNotification env qd ;; deleteSchedule env queryId ;; ret None) w =
    if JS.truthy (Email qd) then
      match fault env (List.length (log w)) publish with
      | Some e => (@Throw (option APIGatewayProxyResult) e, record_call publish w)
      | None => (Ok None, record_call (SchedulerDelete queryId) (record_call publish w))
      end
    else (Ok None, record_call (SchedulerDelete queryId) w).
Proof.
  cbn zeta.
  unfold triggerEmailNotification, deleteSchedule, bind, try_catch, request, ret.
  destruct (JS.truthy (Email qd)); cbn [negb].
  - destruct (fault env (List.length (log w)) _); [reflexivity|]. cbn.
    now destruct (fault env _ _).
  - cbn. now destruct (fault env _ _).
Qed.

Lemma reaches_handler event w queryId qd rc w2 :
  reaches_run_count env event w queryId qd rc w2 ->
  handler env event w =
    (if rc >=? NumIntervals qd
     then triggerEmailNotification env qd ;; deleteSchedule env queryId ;; ret None
     else authenticate env ;; analyzeInterval env event qd queryId rc) w2
  /\ rc = main_runs queryId (data w)
  /\ exists pre, grows w w2 pre [] /\
                 Forall (fun c => only [SvcQueries; SvcScan] (service c) = true) pre.
Proof.
  intros (hint & w1 & X & D & G & A & R).
  assert (Q : QUERIES_TABLE_NAME env = true).
  { unfold getQueryDetails in G. destruct (QUERIES_TABLE_NAME env); [reflexivity|].
    cbn in G. discriminate. }
  destruct (footprint_run (only [SvcQueries; SvcScan]) nothing _ _ _ _
              (fp_getQueryDetails env _ _ _ _ eq_refl) G) as (n1 & a1 & G1 & C1 & I1).
  apply Forall_nothing in I1. subst a1.
  destruct (footprint_run (only [SvcQueries; SvcScan]) nothing _ _ _ _
              (fp_checkRunCount env _ _ _ eq_refl) R) as (n2 & a2 & G2 & C2 & I2).
  apply Forall_nothing in I2. subst a2.
  split; [|split].
  - unfold handler. rewrite X. unfold processQuery. rewrite Q, D. cbn [negb orb].
    unfold bind at 1. rewrite G.
    unfold active in A. apply negb_true_iff in A. rewrite A.
    unfold bind at 1. rewrite R. reflexivity.
  - unfold checkRunCount, try_catch, send_DataScanCount, request in R.
    destruct (fault env _ _); [cbn in R; discriminate|].
    injection R as R _. rewrite <- R. unfold main_runs.
    destruct G1 as (_ & D1 & _). cbn [record_call data]. rewrite D1, app_nil_r.
    now rewrite (filter_ext _ _ (is_main_run_tagged queryId)).
  - exists (n2 ++ n1). split; [apply (grows_trans _ _ _ _ _ _ _ G1 G2)|].
    apply Forall_app. auto.
Qed.

Lemma authenticate_spec w r w' :
  authenticate env w = (r, w') ->
  (w' = w /\ exists e, r = Throw e) \/
  (w' = record_call BskyLogin w /\
   ((exists e, r = Throw e) \/
    (r = Ok tt /\ fault env (List.length (log w)) BskyLogin = None /\
     BLUESKY_HANDLE env = true /\ BLUESKY_APP_PASSWORD env = true))).
Proof.
  unfold authenticate.
  destruct (BLUESKY_HANDLE env), (BLUESKY_APP_PASSWORD env); cbn [negb orb];
    try (intros E; cbn in E; injection E as <- <-; left; eauto).
  unfold try_catch, request.
  destruct (fault env _ _) eqn:F; intros E; cbn in E; injection E as <- <-; right;
    (split; [reflexivity|]); eauto.
Qed.

Lemma enters_handler event w queryId qd rc w3 :
  enters env event w queryId qd rc w3 ->
  handler env event w = analyzeInterval env event qd queryId rc w3
  /\ rc = main_runs queryId (data w)
  /\ exists pre, grows w w3 pre [] /\
                 Forall (fun c => only [SvcQueries; SvcScan; SvcLogin] (service c) = true) pre.
Proof.
  intros (w2 & R & Hrc & A).
  destruct (reaches_handler _ _ _ _ _ _ R) as (E & Erc & pre & G & C).
  split; [|split; [exact Erc|]].
  - rewrite E. replace (rc >=? NumIntervals qd) with false
      by (symmetry; rewrite Z.geb_leb; apply Z.leb_gt; lia).
    unfold bind at 1. now rewrite A.
  - destruct (authenticate_spec _ _ _ A) as [[-> (e & He)] | [-> _]]; [discriminate|].
    exists (BskyLogin :: pre). split; [now apply grows_call|].
    constructor; [reflexivity|]. weaken C.
Qed.

End Specs.

Section Invocation.
Variable env : Env.

Lemma analyzeInterval_spec event qd queryId rc w3 :
  exists stored w4 n_main a_main w5 n_sub a_sub,
    analyzeMainTopic env qd queryId rc w3 = (Ok stored, w4) /\
    grows w3 w4 n_main a_main /\
    (if stored then exists it, a_main = [it] /\ tagged_main queryId it = true
     else a_main = []) /\
    Forall (fun c => allowed_main ((rc =? 0) && stored) (service c) = true) n_main /\
    first_run_registrations env qd queryId
      (posts_found env (List.length (log w3)) (Topic qd) (PostsToAnalyze qd))
      (registrations n_main) /\
    analyzeSubtopics env qd queryId rc w4 = (Ok tt, w5) /\
    grows w4 w5 n_sub a_sub /\
    Forall is_subtopic_item a_sub /\
    Forall (fun c => only [SvcGetSubtopics; SvcSearch; SvcSentiment; SvcCounter; SvcPut]
                          (service c) = true) n_sub /\
    (rc = 0 -> w5 = w4) /\
    analyzeInterval env event qd queryId rc w3 =
      match finalCheckAndCleanup env qd queryId rc stored w5 with
      | (Ok eff, w6) => (Ok (report event qd stored eff), w6)
      | (Throw e, w6) => (Throw e, w6)
      end.
Proof.
  destruct (analyzeMainTopic_spec env qd queryId rc w3)
    as (stored & w4 & n_main & a_main & E1 & G1 & A1 & C1 & R1).
  destruct (analyzeSubtopics_spec env qd queryId rc w4)
    as (w5 & n_sub & a_sub & E2 & G2 & I2 & C2 & Z2).
  exists stored, w4, n_main, a_main, w5, n_sub, a_sub.
  repeat (split; [assumption|]).
  unfold analyzeInterval. unfold bind at 1. rewrite E1.
  unfold bind at 1. rewrite E2. unfold bind at 1.
  destruct (finalCheckAndCleanup env qd queryId rc stored w5) as [[eff|e] w6];
    [|reflexivity].
  unfold report. now destruct (isScheduledEvent event).
Qed.

Lemma main_runs_subtopics queryId items :
  Forall is_subtopic_item items -> main_runs queryId items = 0.
Proof.
  intros H. apply main_runs_skip. revert H. apply Forall_impl.
  unfold is_subtopic_item. intros it ->. left. discriminate.
Qed.

Lemma main_runs_one queryId it : tagged_main queryId it = true -> main_runs queryId [it] = 1.
Proof. intros H. unfold main_runs. cbn. now rewrite H. Qed.

Lemma not_in_services allowed c l :
  Forall (fun c => allowed (service c) = true) l -> allowed (service c) = false -> ~ In c l.
Proof.
  intros H F I. rewrite Forall_forall in H. specialize (H c I). congruence.
Qed.

Lemma handler_quiet_or_enters event w :
  (exists new,
     grows w (snd (handler env event w)) new [] /\
     Forall (fun c => only [SvcQueries; SvcScan; SvcPublish; SvcScheduler; SvcLogin]
                           (service c) = true) new)
  \/ (exists queryId qd rc w3, enters env event w queryId qd rc w3).
Proof.
  destruct (extractQueryInfo env event) as [[[queryId hint]|]|e] eqn:X.
  2,3: left; exists []; unfold handler; rewrite X; cbn; auto using grows_refl.
  destruct (negb (QUERIES_TABLE_NAME env) || negb (DATA_TABLE_NAME env)) eqn:T.
  { left. exists []. unfold handler, processQuery. rewrite X, T. cbn. auto using grows_refl. }
  apply orb_false_elim in T as [Q D]. apply negb_false_iff in Q, D.
  assert (U : handler env event w =
              (queryDetails <- getQueryDetails env queryId hint ;;
               if is_status "COMPLETED" (Status queryDetails)
                  || is_status "CANCELLED" (Status queryDetails)
               then deleteSchedule env queryId ;; ret None
               else
                 currentRunCount <- checkRunCount env queryId ;;
                 if currentRunCount >=? NumIntervals queryDetails
                 then triggerEmailNotification env queryDetails ;;
                      deleteSchedule env queryId ;; ret None
                 else authenticate env ;;
                      analyzeInterval env event queryDetails queryId currentRunCount) w).
  { unfold handler, processQuery. now rewrite X, Q, D. }
  destruct (getQueryDetails env queryId hint w) as [[qd|e] w1] eqn:G.
  2:{ left. rewrite U. unfold bind at 1. rewrite G. cbn [snd].
      destruct (footprint_run (only [SvcQueries; SvcScan; SvcPublish; SvcScheduler; SvcLogin])
                  nothing _ _ _ _ (fp_getQueryDetails env _ _ _ _ eq_refl) G)
        as (n1 & a1 & G1 & C1 & I1).
      apply Forall_nothing in I1. subst a1. eauto. }
  destruct (footprint_run (only [SvcQueries; SvcScan; SvcPublish; SvcScheduler; SvcLogin])
              nothing _ _ _ _ (fp_getQueryDetails env _ _ _ _ eq_refl) G)
    as (n1 & a1 & G1 & C1 & I1).
  apply Forall_nothing in I1. subst a1.
  destruct (active qd) eqn:A.
  2:{ left. rewrite U. unfold bind at 1. rewrite G.
      unfold active in A. apply negb_false_iff in A. rewrite A.
      assert (F : footprint (only [SvcQueries; SvcScan; SvcPublish; SvcScheduler; SvcLogin])
                            nothing (deleteSchedule env queryId ;; @ret (option APIGatewayProxyResult) None)).
      { apply fp_bind; [apply fp_deleteSchedule; reflexivity | intros; apply fp_ret]. }
      destruct (F w1) as (n2 & a2 & G2 & C2 & I2).
      apply Forall_nothing in I2. subst a2.
      exists (n2 ++ n1). split; [apply (grows_trans _ _ _ _ _ _ _ G1 G2)|].
      apply Forall_app. auto. }
  destruct (checkRunCount env queryId w1) as [[rc|e] w2] eqn:R.
  2:{ left. rewrite U. unfold bind at 1. rewrite G.
      unfold active in A. apply negb_true_iff in A. rewrite A.
      unfold bind at 1. rewrite R. cbn [snd].
      destruct (footprint_run (only [SvcQueries; SvcScan; SvcPublish; SvcScheduler; SvcLogin])
                  nothing _ _ _ _ (fp_checkRunCount env _ _ _ eq_refl) R)
        as (n2 & a2 & G2 & C2 & I2).
      apply Forall_nothing in I2. subst a2.
      exists (n2 ++ n1). split; [apply (grows_trans _ _ _ _ _ _ _ G1 G2)|].
      apply Forall_app. auto. }
  assert (RR : reaches_run_count env event w queryId qd rc w2).
  { exists hint, w1. auto. }
  destruct (reaches_handler env _ _ _ _ _ _ RR) as (E & _ & pre & Gp & Cp).
  destruct (Z_lt_ge_dec rc (NumIntervals qd)) as [LT | GE].
  - destruct (authenticate env w2) as [[[]|e] w3] eqn:Au.
    { right. exists queryId, qd, rc, w3, w2. auto. }
    left. rewrite E. replace (rc >=? NumIntervals qd) with false
      by (symmetry; rewrite Z.geb_leb; apply Z.leb_gt; lia).
    unfold bind at 1. rewrite Au. cbn [snd].
    destruct (authenticate_spec env _ _ _ Au) as [[-> _] | [-> _]].
    + exists pre. split; [exact Gp | weaken Cp].
    + exists (BskyLogin :: pre). split; [now apply grows_call|].
      constructor; [reflexivity | weaken Cp].
  - left. rewrite E. replace (rc >=? NumIntervals qd) with true
      by (symmetry; apply Z.geb_le; lia).
    assert (F : footprint (only [SvcQueries; SvcScan; SvcPublish; SvcScheduler; SvcLogin])
                          nothing
                          (triggerEmailNotification env qd ;; deleteSchedule env queryId ;;
                           @ret (option APIGatewayProxyResult) None)).
    { apply fp_bind; [apply fp_triggerEmailNotification; reflexivity | intros].
      apply fp_bind; [apply fp_deleteSchedule; reflexivity | intros; apply fp_ret]. }
    destruct (F w2) as (n2 & a2 & G2 & C2 & I2).
    apply Forall_nothing in I2. subst a2.
    exists (n2 ++ pre). split; [apply (grows_trans _ _ _ _ _ _ _ Gp G2)|].
    apply Forall_app. split; [exact C2 | weaken Cp].
Qed.

(** What an invocation that enters the analysis does, in one statement. *)
Lemma entered_run event w queryId qd rc w3 :
  enters env event w queryId qd rc w3 ->
  exists (stored : bool) new added,
    grows w (snd (handler env event w)) new added /\
    rc = main_runs queryId (data w) /\
    main_runs queryId added = (if stored then 1 else 0) /\
    (rc = 0 -> main_runs queryId (data (snd (handler env event w))) = if stored then 1 else 0) /\
    Forall (fun c => discovery c -> rc = 0 /\ stored = true) new /\
    first_run_registrations env qd queryId
      (posts_found env (List.length (log w3)) (Topic qd) (PostsToAnalyze qd))
      (registrations new).
Proof.
  intros En.
  destruct (enters_handler env _ _ _ _ _ _ En) as (E & Erc & pre & G3 & C3).
  destruct (analyzeInterval_spec event qd queryId rc w3)
    as (stored & w4 & n_main & a_main & w5 & n_sub & a_sub &
        E1 & G1 & A1 & C1 & R1 & E2 & G2 & I2 & C2 & _ & EI).
  pose proof (grows_trans _ _ _ _ _ _ _ (grows_trans _ _ _ _ _ _ _ G3 G1) G2) as G5.
  cbn [app] in G5.
  assert (MA : main_runs queryId (a_main ++ a_sub) = if stored then 1 else 0).
  { rewrite main_runs_app, (main_runs_subtopics _ _ I2). destruct stored.
    - destruct A1 as (it & -> & T). rewrite (main_runs_one _ _ T). lia.
    - now subst a_main. }
  assert (CD : Forall (fun c => discovery c -> rc = 0 /\ stored = true)
                      (n_sub ++ n_main ++ pre)).
  { repeat (apply Forall_app; split).
    - eapply Forall_impl; [|exact C2].
      intros c Hc [D | D]; cbn beta in Hc; rewrite D in Hc; discriminate.
    - eapply Forall_impl; [|exact C1].
      intros c Hc [D | D]; cbn beta in Hc; rewrite D in Hc; cbn in Hc;
        apply andb_true_iff in Hc as [Hrc Hs]; apply Z.eqb_eq in Hrc; auto.
    - eapply Forall_impl; [|exact C3].
      intros c Hc [D | D]; cbn beta in Hc; rewrite D in Hc; discriminate. }
  assert (K : forall w6 tail,
            snd (handler env event w) = w6 ->
            grows w5 w6 tail [] ->
            Forall (fun c => service c = SvcScheduler \/ service c = SvcPublish) tail ->
            exists (stored : bool) new added,
              grows w (snd (handler env event w)) new added /\
              rc = main_runs queryId (data w) /\
              main_runs queryId added = (if stored then 1 else 0) /\
              (rc = 0 -> main_runs queryId (data (snd (handler env event w))) = if stored then 1 else 0) /\
              Forall (fun c => discovery c -> rc = 0 /\ stored = true) new /\
              first_run_registrations env qd queryId
      (posts_found env (List.length (log w3)) (Topic qd) (PostsToAnalyze qd))
      (registrations new)).
  { intros w6 tail -> G6 T.
    pose proof (grows_trans _ _ _ _ _ _ _ G5 G6) as G. rewrite app_nil_r in G.
    exists stored, (tail ++ n_sub ++ n_main ++ pre), (a_main ++ a_sub).
    split; [exact G|]. split; [exact Erc|]. split; [exact MA|]. split.
    - intros Z0. destruct G as (_ & D & _). rewrite D, main_runs_app, MA. lia.
    - split.
      + apply Forall_app. split; [|exact CD].
        eapply Forall_impl; [|exact T].
        intros c HS [D | D]; cbn beta in HS; destruct HS as [S | S]; rewrite S in D;
          discriminate.
      + rewrite !registrations_app.
        rewrite (registrations_none _ _ C3 eq_refl), (registrations_none _ _ C2 eq_refl).
        assert (registrations tail = []) as ->.
        { apply (registrations_none (only [SvcScheduler; SvcPublish])); [|reflexivity].
          eapply Forall_impl; [|exact T]. intros c [S | S]; now rewrite S. }
        cbn [app]. rewrite !app_nil_r. exact R1. }
  rewrite E, EI, finalCheckAndCleanup_spec in K |- *. cbn zeta in *.
  destruct (effective rc stored >=? NumIntervals qd).
  - destruct (JS.truthy (Email qd)).
    + destruct (fault env (List.length (log w5)) _).
      * eapply (K _ [_] eq_refl); [apply grows_call, grows_refl|].
        constructor; [right; reflexivity | constructor].
      * eapply (K _ [_; _] eq_refl); [apply grows_call, grows_call, grows_refl|].
        constructor; [left; reflexivity|].
        constructor; [right; reflexivity | constructor].
    + eapply (K _ [_] eq_refl); [apply grows_call, grows_refl|].
      constructor; [left; reflexivity | constructor].
  - eapply (K _ [] eq_refl); [apply grows_refl | constructor].
Qed.

End Invocation.

(** ** The early exit and the final check *)

(** C1, as the spec states it, fails: a topic record without an address
    has completed its only interval; the invocation deletes the trigger
    and returns, and no notification is sent. *)
Lemma early_exit_without_notification :
  reaches_run_count Scenario.env Scenario.tick
    (Scenario.after_one_run (Scenario.no_address 1)) 7 (Scenario.no_address 1) 1
    (Scenario.counted (Scenario.after_one_run (Scenario.no_address 1))) /\
  1 >= NumIntervals (Scenario.no_address 1) /\
  log (snd (handler Scenario.env Scenario.tick
              (Scenario.after_one_run (Scenario.no_address 1))))
    = [SchedulerDelete 7; DataScanCount 7; QueriesQuery 7].
Proof.
  split; [|split; [cbn; lia | reflexivity]].
  exists None, (record_call (QueriesQuery 7) (Scenario.after_one_run (Scenario.no_address 1))).
  repeat split; reflexivity.
Qed.

(** C1, amended: when the topic record exists and is active and the run
    count computed at entry is at least [numIntervals], the handler issues
    only topic lookups and the scan before the early exit and no search,
    scoring or write; it then publishes the completion notification when
    the record has a non-empty address, deletes the trigger and returns.
    When the notification call fails the invocation fails and the trigger
    deletion is not issued. *)
Theorem early_completion env event w queryId qd rc w2 :
  reaches_run_count env event w queryId qd rc w2 ->
  rc >= NumIntervals qd ->
  handler env event w =
    (if JS.truthy (Email qd) then
       match fault env (List.length (log w2)) (SnsPublish (Email qd) (QueryID qd)) with
       | Some e => (Throw e, record_call (SnsPublish (Email qd) (QueryID qd)) w2)
       | None => (Ok None,
                  record_call (SchedulerDelete queryId)
                              (record_call (SnsPublish (Email qd) (QueryID qd)) w2))
       end
     else (Ok None, record_call (SchedulerDelete queryId) w2))
  /\ data (snd (handler env event w)) = data w
  /\ exists pre, log w2 = pre ++ log w /\
                 Forall (fun c => only [SvcQueries; SvcScan] (service c) = true) pre.
Proof.
  intros R Hrc.
  destruct (reaches_handler env _ _ _ _ _ _ R) as (E & _ & pre & (L & D & _) & C).
  assert (H : handler env event w =
    (if JS.truthy (Email qd) then
       match fault env (List.length (log w2)) (SnsPublish (Email qd) (QueryID qd)) with
       | Some e => (Throw e, record_call (SnsPublish (Email qd) (QueryID qd)) w2)
       | None => (Ok None,
                  record_call (SchedulerDelete queryId)
                              (record_call (SnsPublish (Email qd) (QueryID qd)) w2))
       end
     else (Ok None, record_call (SchedulerDelete queryId) w2))).
  { rewrite E. replace (rc >=? NumIntervals qd) with true
      by (symmetry; apply Z.geb_le; lia).
    now rewrite early_exit_spec. }
  split; [exact H|]. split.
  - rewrite H. rewrite app_nil_r in D.
    destruct (JS.truthy (Email qd)); [|exact D].
    destruct (fault env _ _); exact D.
  - now exists pre.
Qed.

Lemma early_completion_witness :
  handler Scenario.env Scenario.tick (Scenario.after_one_run (Scenario.music 1)) =
    (Ok None,
     record_call (SchedulerDelete 7)
       (record_call (SnsPublish Scenario.owner 7)
          (Scenario.counted (Scenario.after_one_run (Scenario.music 1))))).
Proof.
  refine (proj1 (early_completion Scenario.env Scenario.tick
                   (Scenario.after_one_run (Scenario.music 1)) 7 (Scenario.music 1) 1
                   (Scenario.counted (Scenario.after_one_run (Scenario.music 1))) _ _)).
  - exists None, (record_call (QueriesQuery 7) (Scenario.after_one_run (Scenario.music 1))).
    repeat split; reflexivity.
  - cbn. lia.
Defined.

(** C5, as the spec states it, fails: on a first interval whose search
    finds no post, the invocation returns after the search and the owner's
    address is not subscribed. *)
Lemma no_posts_no_subscription :
  enters Scenario.quiet_env Scenario.tick (Scenario.fresh (Scenario.music 3)) 7
    (Scenario.music 3) 0 (Scenario.logged_in (Scenario.fresh (Scenario.music 3))) /\
  posts_found Scenario.quiet_env 3 (JS.lit "Music") 10 = [] /\
  calls_to [SvcSubscribe]
    (log (snd (handler Scenario.quiet_env Scenario.tick (Scenario.fresh (Scenario.music 3)))))
    = [].
Proof.
  split; [|split; reflexivity].
  exists (Scenario.counted (Scenario.fresh (Scenario.music 3))).
  split; [|split; [cbn; lia | reflexivity]].
  exists None, (record_call (QueriesQuery 7) (Scenario.fresh (Scenario.music 3))).
  repeat split; reflexivity.
Qed.

(** C5, amended: on a first interval (observed run count 0) whose
    main-topic search succeeds and finds no post, the invocation issues,
    after the topic lookups, the scan and the login, the search and
    nothing else: no Result record is written, the run count stays 0, no
    key phrase is extracted, no subtopic is registered and the owner's
    address is not subscribed. *)
Theorem first_interval_without_posts env event w queryId qd w3 :
  enters env event w queryId qd 0 w3 ->
  fault env (List.length (log w3)) (SearchPosts (Topic qd) (PostsToAnalyze qd)) = None ->
  posts_found env (List.length (log w3)) (Topic qd) (PostsToAnalyze qd) = [] ->
  handler env event w =
    (Ok (report event qd false 0),
     record_call (SearchPosts (Topic qd) (PostsToAnalyze qd)) w3)
  /\ data (snd (handler env event w)) = data w
  /\ main_runs queryId (data (snd (handler env event w))) = 0
  /\ exists pre, log w3 = pre ++ log w /\
                 Forall (fun c => only [SvcQueries; SvcScan; SvcLogin] (service c) = true) pre.
Proof.
  intros En F PF.
  destruct (enters_handler env _ _ _ _ _ _ En) as (E & Erc & pre & (L & D & _) & C).
  destruct En as (w2 & _ & HN & _).
  assert (H : handler env event w =
              (Ok (report event qd false 0),
               record_call (SearchPosts (Topic qd) (PostsToAnalyze qd)) w3)).
  { rewrite E. unfold analyzeInterval. unfold bind at 1.
    unfold analyzeMainTopic, analyzeSentimentForTerm.
    unfold try_catch at 1 2, bind at 1 2, request at 1. rewrite F, PF.
    cbn [ret fst]. unfold bind at 1. unfold analyzeSubtopics. cbn [Z.gtb Z.compare ret].
    unfold bind at 1. rewrite finalCheckAndCleanup_spec. unfold effective.
    replace (0 + 0 >=? NumIntervals qd) with false
      by (symmetry; rewrite Z.geb_leb; apply Z.leb_gt; lia).
    unfold report. now destruct (isScheduledEvent event). }
  rewrite app_nil_r in D.
  split; [exact H|]. rewrite H. cbn [snd record_call data].
  split; [exact D|]. split; [now rewrite D, <- Erc|]. now exists pre.
Qed.

Lemma first_interval_without_posts_witness :
  handler Scenario.quiet_env Scenario.tick (Scenario.fresh (Scenario.music 3)) =
    (Ok None,
     record_call (SearchPosts (JS.lit "Music") 10)
                 (Scenario.logged_in (Scenario.fresh (Scenario.music 3)))).
Proof.
  refine (proj1 (first_interval_without_posts Scenario.quiet_env Scenario.tick
                   (Scenario.fresh (Scenario.music 3)) 7 (Scenario.music 3)
                   (Scenario.logged_in (Scenario.fresh (Scenario.music 3))) _ _ _));
    [|reflexivity|reflexivity].
  exists (Scenario.counted (Scenario.fresh (Scenario.music 3))).
  split; [|split; [cbn; lia | reflexivity]].
  exists None, (record_call (QueriesQuery 7) (Scenario.fresh (Scenario.music 3))).
  repeat split; reflexivity.
Defined.

(** C2, as the spec states it, fails: a topic record without an address
    stores the record of its only interval; the effective run count
    reaches [numIntervals] and the trigger is deleted, and no notification
    is sent. *)
Lemma final_check_without_notification :
  enters Scenario.env Scenario.tick (Scenario.fresh (Scenario.no_address 1)) 7
    (Scenario.no_address 1) 0 (Scenario.logged_in (Scenario.fresh (Scenario.no_address 1))) /\
  main_runs 7 (data (snd (handler Scenario.env Scenario.tick
                            (Scenario.fresh (Scenario.no_address 1))))) = 1 /\
  1 >= NumIntervals (Scenario.no_address 1) /\
  calls_to [SvcScheduler; SvcPublish]
    (log (snd (handler Scenario.env Scenario.tick (Scenario.fresh (Scenario.no_address 1)))))
    = [SchedulerDelete 7].
Proof.
  split; [|split; [vm_compute; reflexivity | split; [cbn; lia | vm_compute; reflexivity]]].
  exists (Scenario.counted (Scenario.fresh (Scenario.no_address 1))).
  split; [|split; [cbn; lia | reflexivity]].
  exists None, (record_call (QueriesQuery 7) (Scenario.fresh (Scenario.no_address 1))).
  repeat split; reflexivity.
Qed.

(** C2, amended: in an invocation that passes the entry guards, zero or
    one main-topic Result record is written, and the effective run count
    (the one reported, and the run count of the store at the end) is the
    entry run count plus the number written.  The completion notification
    is published if and only if the effective count is at least
    [numIntervals] and the topic record has a non-empty address; the
    trigger is deleted if and only if the effective count is at least
    [numIntervals] and the invocation returns (it fails, with the trigger
    left intact, when the notification call fails).  An invocation that
    stores no main-topic record never deletes the trigger. *)
Theorem final_check env event w queryId qd rc w3 r w' new :
  enters env event w queryId qd rc w3 ->
  handler env event w = (r, w') ->
  log w' = new ++ log w3 ->
  let written := main_runs queryId (data w') - main_runs queryId (data w) in
  (written = 0 \/ written = 1) /\
  main_runs queryId (data w') = rc + written /\
  (In (SnsPublish (Email qd) (QueryID qd)) new <->
     rc + written >= NumIntervals qd /\ JS.truthy (Email qd) = true) /\
  (In (SchedulerDelete queryId) new <->
     rc + written >= NumIntervals qd /\ exists result, r = Ok result) /\
  (forall result, r = Ok result ->
     result = report event qd (written =? 1) (rc + written)) /\
  (written = 0 -> ~ In (SchedulerDelete queryId) new).
Proof.
  intros En H L.
  destruct (enters_handler env _ _ _ _ _ _ En) as (E & Erc & pre & (_ & D3 & _) & _).
  rewrite app_nil_r in D3.
  destruct En as (w2 & _ & HN & _).
  destruct (analyzeInterval_spec env event qd queryId rc w3)
    as (stored & w4 & n_main & a_main & w5 & n_sub & a_sub &
        E1 & (L1 & D1 & _) & A1 & C1 & _ & E2 & (L2 & D2 & _) & I2 & C2 & _ & EI).
  rewrite E, EI, finalCheckAndCleanup_spec in H. cbn zeta in H.
  assert (W : main_runs queryId (data w5) - main_runs queryId (data w)
              = if stored then 1 else 0).
  { rewrite D2, D1, D3, !main_runs_app, (main_runs_subtopics _ _ I2).
    destruct stored.
    - destruct A1 as (it & -> & T). rewrite (main_runs_one _ _ T). lia.
    - subst a_main. unfold main_runs. cbn. lia. }
  assert (NS : ~ In (SchedulerDelete queryId) (n_sub ++ n_main)).
  { intros I. apply in_app_or in I as [I | I]; revert I;
      [eapply not_in_services; [exact C2 | reflexivity]
      |eapply not_in_services; [exact C1 | reflexivity]]. }
  assert (NP : ~ In (SnsPublish (Email qd) (QueryID qd)) (n_sub ++ n_main)).
  { intros I. apply in_app_or in I as [I | I]; revert I;
      [eapply not_in_services; [exact C2 | reflexivity]
      |eapply not_in_services; [exact C1 | reflexivity]]. }
  assert (LL : log w5 = (n_sub ++ n_main) ++ log w3) by (now rewrite L2, L1, app_assoc).
  unfold effective in H.
  set (eff := rc + (if stored then 1 else 0)) in *.
  assert (common : forall r6 w6 tail,
            r = r6 -> w' = w6 -> data w6 = data w5 -> log w6 = tail ++ log w5 ->
            (forall result, r6 = Ok result -> result = report event qd stored eff) ->
            (In (SchedulerDelete queryId) tail <->
               eff >= NumIntervals qd /\ exists result, r6 = Ok result) ->
            (In (SnsPublish (Email qd) (QueryID qd)) tail <->
               eff >= NumIntervals qd /\ JS.truthy (Email qd) = true) ->
            let written := main_runs queryId (data w') - main_runs queryId (data w) in
            (written = 0 \/ written = 1) /\
            main_runs queryId (data w') = rc + written /\
            (In (SnsPublish (Email qd) (QueryID qd)) new <->
               rc + written >= NumIntervals qd /\ JS.truthy (Email qd) = true) /\
            (In (SchedulerDelete queryId) new <->
               rc + written >= NumIntervals qd /\ exists result, r = Ok result) /\
            (forall result, r = Ok result ->
               result = report event qd (written =? 1) (rc + written)) /\
            (written = 0 -> ~ In (SchedulerDelete queryId) new)).
  { intros r6 w6 tail -> -> D6 L6 R HS HP. cbn zeta. rewrite D6, W. fold eff.
    assert (new = tail ++ n_sub ++ n_main) as ->.
    { apply (app_inv_tail (log w3)). rewrite <- L, L6, LL, !app_assoc. reflexivity. }
    split; [destruct stored; auto|].
    split; [subst eff; lia|].
    split; [rewrite in_app_iff; tauto|].
    split; [rewrite in_app_iff; tauto|].
    split.
    - intros result Hr. rewrite (R result Hr). subst eff. now destruct stored.
    - intros Z0 I. apply in_app_or in I as [I | I]; [|tauto].
      apply HS in I. subst eff. destruct stored; lia. }
  destruct (eff >=? NumIntervals qd) eqn:GE.
  - apply Z.geb_le in GE.
    destruct (JS.truthy (Email qd)) eqn:TE.
    + destruct (fault env (List.length (log w5)) _) as [e|].
      * injection H as Hr Hw.
        apply (common (Throw e) _ [SnsPublish (Email qd) (QueryID qd)]
                      (eq_sym Hr) (eq_sym Hw)); [reflexivity | reflexivity | | | ].
        -- intros result Hx. discriminate.
        -- split; [intros [Hx | []]; discriminate | intros [_ [result Hx]]; discriminate].
        -- split; [intros _; split; [lia | reflexivity] | intros _; now left].
      * injection H as Hr Hw.
        apply (common (Ok (report event qd stored eff)) _
                      [SchedulerDelete queryId; SnsPublish (Email qd) (QueryID qd)]
                      (eq_sym Hr) (eq_sym Hw)); [reflexivity | reflexivity | | | ].
        -- intros result Hx. now injection Hx as <-.
        -- split; [intros _; split; [lia | eauto] | intros _; now left].
        -- split; [intros _; split; [lia | reflexivity] | intros _; right; now left].
    + injection H as Hr Hw.
      apply (common (Ok (report event qd stored eff)) _ [SchedulerDelete queryId]
                    (eq_sym Hr) (eq_sym Hw)); [reflexivity | reflexivity | | | ].
      * intros result Hx. now injection Hx as <-.
      * split; [intros _; split; [lia | eauto] | intros _; now left].
      * split; [intros [Hx | []]; discriminate | intros [_ Hx]; discriminate].
  - rewrite Z.geb_leb in GE. apply Z.leb_gt in GE.
    injection H as Hr Hw.
    apply (common (Ok (report event qd stored eff)) _ [] (eq_sym Hr) (eq_sym Hw));
      [reflexivity | reflexivity | | | ].
    + intros result Hx. now injection Hx as <-.
    + split; [intros [] | intros [Hx _]; lia].
    + split; [intros [] | intros [Hx _]; lia].
Qed.

Lemma final_check_witness :
  main_runs 7 (data (snd (handler Scenario.env Scenario.tick
                            (Scenario.after_one_run (Scenario.music 2))))) = 1 + 1 /\
  In (SchedulerDelete 7)
     (Scenario.calls_since
        (Scenario.logged_in (Scenario.after_one_run (Scenario.music 2)))
        (snd (handler Scenario.env Scenario.tick (Scenario.after_one_run (Scenario.music 2))))).
Proof.
  assert (En : enters Scenario.env Scenario.tick (Scenario.after_one_run (Scenario.music 2)) 7
                 (Scenario.music 2) 1
                 (Scenario.logged_in (Scenario.after_one_run (Scenario.music 2)))).
  { exists (Scenario.counted (Scenario.after_one_run (Scenario.music 2))).
    split; [|split; [cbn; lia | reflexivity]].
    exists None, (record_call (QueriesQuery 7) (Scenario.after_one_run (Scenario.music 2))).
    repeat split; reflexivity. }
  assert (Hl : log (snd (handler Scenario.env Scenario.tick
                           (Scenario.after_one_run (Scenario.music 2)))) =
               Scenario.calls_since
                 (Scenario.logged_in (Scenario.after_one_run (Scenario.music 2)))
                 (snd (handler Scenario.env Scenario.tick
                         (Scenario.after_one_run (Scenario.music 2))))
               ++ log (Scenario.logged_in (Scenario.after_one_run (Scenario.music 2))))
    by (vm_compute; reflexivity).
  destruct (final_check Scenario.env Scenario.tick
              (Scenario.after_one_run (Scenario.music 2)) 7 (Scenario.music 2) 1
              (Scenario.logged_in (Scenario.after_one_run (Scenario.music 2)))
              (fst (handler Scenario.env Scenario.tick (Scenario.after_one_run (Scenario.music 2))))
              (snd (handler Scenario.env Scenario.tick (Scenario.after_one_run (Scenario.music 2))))
              (Scenario.calls_since
                 (Scenario.logged_in (Scenario.after_one_run (Scenario.music 2)))
                 (snd (handler Scenario.env Scenario.tick
                         (Scenario.after_one_run (Scenario.music 2)))))
              En (surjective_pairing _) Hl)
    as (_ & M & _ & S & _).
  split.
  - rewrite M. vm_compute. reflexivity.
  - apply S. split; [vm_compute; discriminate|].
    eexists. vm_compute. reflexivity.
Defined.

(** ** Discovery of subtopics *)




(** ** The subtopic loop *)

Section Isolation.
Variable env : Env.




End Isolation.



(** ** Registration of subtopics *)

Section Registration.
Variable env : Env.




Lemma handler_grows event w :
  exists new added, grows w (snd (handler env event w)) new added.
Proof.
  destruct (handler_quiet_or_enters env event w)
    as [(new & G & _) | (queryId & qd & rc & w3 & En)]; [eauto|].
  destruct (entered_run env _ _ _ _ _ _ En) as (stored & new & added & G & _). eauto.
Qed.




End Registration.




(** ** Triples *)

Lemma triple_ret {A} (P : World -> Prop) (a : A) Q E :
  (forall w, P w -> Q a w) -> triple P (ret a) Q E.
Proof. intros H w Hw. cbn. auto. Qed.

Lemma triple_throw {A} (P : World -> Prop) e (Q : A -> World -> Prop) E :
  (forall w, P w -> E e w) -> triple P (throw e) Q E.
Proof. intros H w Hw. cbn. auto. Qed.

Lemma triple_bind {A B} P (c : M A) (k : A -> M B) R Q E :
  triple P c R E -> (forall a, triple (R a) (k a) Q E) -> triple P (bind c k) Q E.
Proof.
  intros Hc Hk w Hw. unfold bind. specialize (Hc w Hw).
  destruct (c w) as [[a|e] w1]; [apply Hk, Hc | exact Hc].
Qed.

Lemma triple_try_catch {A} P (c : M A) (h : JsError -> M A) Q E' E :
  triple P c Q E' -> (forall e, triple (E' e) (h e) Q E) -> triple P (try_catch c h) Q E.
Proof.
  intros Hc Hh w Hw. unfold try_catch. specialize (Hc w Hw).
  destruct (c w) as [[a|e] w1]; [exact Hc | apply Hh, Hc].
Qed.

Lemma triple_consequence {A} (P P' : World -> Prop) (c : M A)
      (Q Q' : A -> World -> Prop) (E E' : JsError -> World -> Prop) :
  triple P' c Q' E' ->
  (forall w, P w -> P' w) ->
  (forall a w, Q' a w -> Q a w) ->
  (forall e w, E' e w -> E e w) ->
  triple P c Q E.
Proof.
  intros Hc HP HQ HE w Hw. specialize (Hc w (HP w Hw)).
  destruct (c w) as [[a|e] w1]; auto.
Qed.

Lemma triple_request {A} env P c (reply : nat -> World -> outcome A * World) Q E :
  (forall w e, P w -> fault env (List.length (log w)) c = Some e -> E e (record_call c w)) ->
  (forall w, P w -> fault env (List.length (log w)) c = None ->
     match reply (List.length (log w)) (record_call c w) with
     | (Ok a, w') => Q a w'
     | (Throw e, w') => E e w'
     end) ->
  triple P (request env c reply) Q E.
Proof.
  intros Hf Hr w Hw. unfold request.
  destruct (fault env (List.length (log w)) c) as [e|] eqn:F; [now apply Hf | now apply Hr].
Qed.

(** ** Invariants *)

Section Invariants.
Variable env : Env.
Variable I : World -> Prop.

Lemma inv_ret {A} (a : A) : invariant I (ret a).
Proof. now apply triple_ret. Qed.

Lemma inv_throw {A} e : invariant I (@throw A e).
Proof. now apply triple_throw. Qed.

Lemma inv_Date_now : invariant I (Date_now env).
Proof. intros w Hw. exact Hw. Qed.

Lemma inv_bind {A B} (c : M A) (k : A -> M B) :
  invariant I c -> (forall a, invariant I (k a)) -> invariant I (bind c k).
Proof. intros Hc Hk. eapply triple_bind; [exact Hc | exact Hk]. Qed.

Lemma inv_try_catch {A} (c : M A) (h : JsError -> M A) :
  invariant I c -> (forall e, invariant I (h e)) -> invariant I (try_catch c h).
Proof. intros Hc Hh. eapply triple_try_catch; [exact Hc | exact Hh]. Qed.

Lemma inv_mapM {A B} (f : A -> M B) l :
  (forall x, In x l -> invariant I (f x)) -> invariant I (mapM f l).
Proof.
  induction l as [|x l IH]; intros Hf; cbn [mapM]; [apply inv_ret|].
  apply inv_bind; [apply Hf; now left|]. intros y.
  apply inv_bind; [apply IH; intros z Hz; apply Hf; now right|].
  intros ys. apply inv_ret.
Qed.

Lemma inv_forM_ {A} (f : A -> M unit) l :
  (forall x, In x l -> invariant I (f x)) -> invariant I (forM_ f l).
Proof.
  induction l as [|x l IH]; intros Hf; cbn [forM_]; [apply inv_ret|].
  apply inv_bind; [apply Hf; now left|]. intros _.
  apply IH. intros z Hz. apply Hf. now right.
Qed.

(** A call keeps the invariant when recording it does and its reply
    does. *)
Lemma inv_request {A} c (reply : nat -> World -> outcome A * World) :
  (forall w, I w -> I (record_call c w)) ->
  (forall t w, I w -> I (snd (reply t w))) ->
  invariant I (request env c reply).
Proof.
  intros Hc Hr. apply triple_request.
  - intros w e Hw _. now apply Hc.
  - intros w Hw _. specialize (Hr (List.length (log w)) (record_call c w) (Hc w Hw)).
    destruct (reply _ _) as [[a|e] w1]; exact Hr.
Qed.

(** What holds after a computation that keeps the invariant. *)
Lemma invariant_run {A} (c : M A) w : invariant I c -> I w -> I (snd (c w)).
Proof.
  intros H Hw. specialize (H w Hw). destruct (c w) as [[a|e] w1]; exact H.
Qed.

End Invariants.

(** One step through a computation of the handler; the calls are left to
    [side]. *)
Ltac inv_step side :=
  lazymatch goal with
  | |- invariant _ (ret _) => apply inv_ret
  | |- invariant _ (throw _) => apply inv_throw
  | |- invariant _ (Date_now _) => apply inv_Date_now
  | |- invariant _ (bind _ _) => apply inv_bind; [|intros ?]
  | |- invariant _ (try_catch _ _) => apply inv_try_catch; [|intros ?]
  | |- invariant _ (mapM _ _) => apply inv_mapM; intros ? ?
  | |- invariant _ (forM_ _ _) => apply inv_forM_; intros ? ?
  | |- invariant _ (request _ _ _) => apply inv_request; [side | side]
  | |- invariant _ (if ?b then _ else _) => destruct b eqn:?
  | |- invariant _ (match ?x with _ => _ end) => destruct x eqn:?
  end.

(** ** The ids of the Result records *)

Lemma NoDup_snoc {A} (l : list A) x : NoDup l -> ~ In x l -> NoDup (l ++ [x]).
Proof.
  induction 1 as [|a l Ha N IH]; intros Hx; cbn.
  - constructor; [intros [] | constructor].
  - constructor.
    + intros I. apply in_app_or in I as [I | [-> | []]]; [now apply Ha|].
      apply Hx. now left.
    + apply IH. intros I. apply Hx. now right.
Qed.

Lemma ids_fresh_same w w' :
  data w' = data w -> counter_value w <= counter_value w' -> ids_fresh w -> ids_fresh w'.
Proof.
  intros D C [N F]. split; rewrite D; [exact N|].
  eapply Forall_impl; [|exact F]. cbn beta. intros it H. lia.
Qed.

Lemma ids_fresh_record c w : ids_fresh w -> ids_fresh (record_call c w).
Proof. apply ids_fresh_same; [reflexivity | unfold counter_value; cbn; lia]. Qed.

Lemma drawn_record c id w : drawn id w -> drawn id (record_call c w).
Proof. intros (H & C & F). split; [now apply ids_fresh_record | now split]. Qed.

Lemma drawn_fresh id w : drawn id w -> ids_fresh w.
Proof. now intros [H _]. Qed.

(** An update of the counter keeps the ids fresh; the value it returns is
    above every id in use. *)
Lemma send_CounterUpdate_draws env counterName :
  triple ids_fresh (send_CounterUpdate env counterName)
         (fun r w => ids_fresh w /\ forall v, r = Some v -> drawn v w)
         (fun _ => ids_fresh).
Proof.
  apply triple_request.
  - intros w e H _. now apply ids_fresh_record.
  - intros w [N F] _. cbn [record_call counter].
    fold (counter_value w).
    assert (Fr : ids_fresh (set_counter (counter_value w + 1)
                              (record_call (CounterUpdate counterName) w))).
    { split; cbn; [exact N|].
      eapply Forall_impl; [|exact F]. cbn beta. intros it H. lia. }
    split; [exact Fr|]. intros v E.
    destruct (counter_reply_numeric env _); [|discriminate].
    injection E as <-. split; [exact Fr|]. split; [reflexivity|]. cbn.
    eapply Forall_impl; [|exact F]. cbn beta. intros it H. lia.
Qed.

Lemma getNextDataId_draws env counterName :
  triple ids_fresh (getNextDataId env counterName) drawn (fun _ => ids_fresh).
Proof.
  unfold getNextDataId.
  eapply triple_try_catch with (E' := fun _ => ids_fresh);
    [|intros e; now apply triple_throw].
  eapply triple_bind; [apply send_CounterUpdate_draws|].
  intros [nextId|].
  { apply triple_ret. intros w [_ H]. now apply H. }
  eapply triple_bind
    with (R := fun r w => ids_fresh w /\ forall v, r = Some v -> drawn v w).
  { eapply triple_try_catch with (E' := fun _ => ids_fresh).
    - eapply triple_bind with (R := fun _ => ids_fresh).
      + apply triple_request.
        * intros w e [H _] _. now apply ids_fresh_record.
        * intros w [H _] _. now apply ids_fresh_record.
      + intros [v|]; [apply send_CounterUpdate_draws|].
        apply triple_ret. intros w H. split; [exact H | discriminate].
    - intros e. apply triple_ret. intros w H. split; [exact H | discriminate]. }
  intros [v|].
  { apply triple_ret. intros w [_ H]. now apply H. }
  eapply triple_try_catch with (E' := fun _ => ids_fresh).
  - eapply triple_bind with (R := fun _ => drawn 1).
    + apply triple_request.
      * intros w e [H _] _. now apply ids_fresh_record.
      * intros w [[N F] _] _. cbn [record_call counter].
        destruct (counter w) as [c|] eqn:C.
        -- apply ids_fresh_record. now split.
        -- unfold counter_value in F. rewrite C in F.
           split; [|split; [reflexivity|]].
           ++ split; cbn; [exact N|].
              eapply Forall_impl; [|exact F]. cbn beta. intros it H. lia.
           ++ cbn. eapply Forall_impl; [|exact F]. cbn beta. intros it H. lia.
    + intros _. now apply triple_ret.
  - intros initError. destruct (String.eqb _ _); [|now apply triple_throw].
    eapply triple_bind; [apply send_CounterUpdate_draws|].
    intros [v|].
    + apply triple_ret. intros w [_ H]. now apply H.
    + apply triple_throw. now intros w [H _].
Qed.

Lemma send_DataPut_fresh env item :
  triple (drawn (DataID item)) (send_DataPut env item) (fun _ => ids_fresh) (fun _ => ids_fresh).
Proof.
  apply triple_request.
  - intros w e [H _] _. now apply ids_fresh_record.
  - intros w ([N F] & C & L) _. cbn. split; cbn.
    + rewrite map_app. cbn. apply NoDup_snoc; [exact N|].
      intros I. apply in_map_iff in I as (it & E & I).
      rewrite Forall_forall in L. specialize (L it I). lia.
    + apply Forall_app. split; [exact F|].
      constructor; [|constructor]. unfold counter_value. cbn. rewrite C. lia.
Qed.

Lemma store_item_fresh env (item : Z -> Z -> DataItem) msg :
  (forall dataId createdAt, DataID (item dataId createdAt) = dataId) ->
  invariant ids_fresh
    (dataId <- getNextDataId env DATA_COUNTER_NAME ;;
     try_catch
       (createdAt <- Date_now env ;; send_DataPut env (item dataId createdAt))
       (fun e => throw (Error (msg ++ message e)))).
Proof.
  intros Hid. eapply triple_bind; [apply getNextDataId_draws|].
  intros dataId.
  eapply triple_try_catch with (E' := fun _ => ids_fresh);
    [|intros e; now apply triple_throw].
  eapply triple_bind with (R := fun _ => drawn dataId).
  - intros w H. exact H.
  - intros createdAt. rewrite <- (Hid dataId createdAt) at 1. apply send_DataPut_fresh.
Qed.

Lemma storeAnalysisResults_fresh env summary :
  invariant ids_fresh (storeAnalysisResults env summary).
Proof.
  unfold storeAnalysisResults. destruct (negb (DATA_TABLE_NAME env)); [apply inv_throw|].
  apply (store_item_fresh env (fun dataId createdAt => main_item dataId createdAt summary)).
  reflexivity.
Qed.

Lemma storeSubtopicAnalysisResults_fresh env summary subtopic mainTopic :
  invariant ids_fresh (storeSubtopicAnalysisResults env summary subtopic mainTopic).
Proof.
  unfold storeSubtopicAnalysisResults.
  destruct (negb (DATA_TABLE_NAME env)); [apply inv_throw|].
  apply (store_item_fresh env
           (fun dataId createdAt => subtopic_item dataId createdAt summary subtopic mainTopic)).
  reflexivity.
Qed.


(** ** What an invocation keeps *)

Lemma truncated_length s :
  JS.truthy (truncated s) = true -> 0 < JS.length (truncated s) <= MAX_SUBTOPIC_LENGTH.
Proof.
  unfold truncated, JS.length, JS.substring0, MAX_SUBTOPIC_LENGTH.
  destruct (Z.gtb_spec (Z.of_nat (List.length s)) 255) as [G | L].
  - intros _. rewrite length_firstn. lia.
  - destruct s as [|u s]; [discriminate|]. intros _. cbn [List.length] in *. lia.
Qed.

Lemma literal_labels_differ x :
  (if JS.str_eqb x (JS.lit "POSITIVE") then 1 else 0)
  + (if JS.str_eqb x (JS.lit "NEGATIVE") then 1 else 0)
  + (if JS.str_eqb x (JS.lit "NEUTRAL") then 1 else 0)
  + (if JS.str_eqb x (JS.lit "MIXED") then 1 else 0) <= 1.
Proof.
  destruct (JS.str_eqb x (JS.lit "POSITIVE")) eqn:P;
    [apply str_eqb_eq in P; subst x; vm_compute; discriminate|].
  destruct (JS.str_eqb x (JS.lit "NEGATIVE")) eqn:N;
    [apply str_eqb_eq in N; subst x; vm_compute; discriminate|].
  destruct (JS.str_eqb x (JS.lit "NEUTRAL")) eqn:U;
    [apply str_eqb_eq in U; subst x; vm_compute; discriminate|].
  destruct (JS.str_eqb x (JS.lit "MIXED")); lia.
Qed.

Lemma label_counts_bounded rs :
  0 <= label_count "POSITIVE" rs /\ 0 <= label_count "NEGATIVE" rs /\
  0 <= label_count "NEUTRAL" rs /\ 0 <= label_count "MIXED" rs /\
  label_count "POSITIVE" rs + label_count "NEGATIVE" rs
  + label_count "NEUTRAL" rs + label_count "MIXED" rs <= Z.of_nat (List.length rs).
Proof.
  induction rs as [|r rs IH].
  - unfold label_count. cbn. lia.
  - rewrite !label_count_cons. unfold bump, is_label. cbn [List.length].
    destruct (Sentiment r) as [x|].
    + pose proof (literal_labels_differ x) as D.
      destruct (JS.str_eqb x (JS.lit "POSITIVE")), (JS.str_eqb x (JS.lit "NEGATIVE")),
        (JS.str_eqb x (JS.lit "NEUTRAL")), (JS.str_eqb x (JS.lit "MIXED")); lia.
    + lia.
Qed.

Lemma summarize_ok q term time ps s :
  summarize q term time ps = Some s -> summary_ok q s.
Proof.
  intros E. pose proof (summarize_spec q term time ps) as S. cbn zeta in S.
  rewrite E in S. destruct S as (NE & T & P & N & U & X & _).
  pose proof (label_counts_bounded (map reply_of (filter counted ps))) as B.
  unfold summary_ok. rewrite T, P, N, U, X.
  split.
  { unfold summarize in E. destruct (_ =? 0); [discriminate|]. now injection E as <-. }
  destruct (map reply_of (filter counted ps)); [congruence|].
  cbn [List.length] in *. lia.
Qed.

Section InvocationInvariant.
Variable env : Env.
Variable q : Z.
Variable I : World -> Prop.

(** The invariant is not affected by the recording of a call of the
    invocation, and the two stores keep it. *)
Hypothesis Hrec : forall c w, invocation_call env q c -> I w -> I (record_call c w).
Hypothesis Hmain :
  forall s, summary_ok q s -> invariant I (storeAnalysisResults env s).
Hypothesis Hsub :
  forall s subtopic mainTopic,
    summary_ok q s -> invariant I (storeSubtopicAnalysisResults env s subtopic mainTopic).

Lemma iv_call {A} c (a : nat -> World -> A) :
  invocation_call env q c ->
  invariant I (request env c (fun t w => (Ok (a t w), w))).
Proof.
  intros Hc. apply inv_request.
  - intros w Hw. now apply Hrec.
  - intros t w Hw. exact Hw.
Qed.

Lemma iv_getQueryDetails hint :
  triple I (getQueryDetails env q hint) (fun qd w => I w /\ QueryID qd = q) (fun _ => I).
Proof.
  unfold getQueryDetails. destruct (negb (QUERIES_TABLE_NAME env)); [now apply triple_throw|].
  eapply triple_bind
    with (R := fun byKey w => I w /\ forall item, byKey = Some item -> QueryID item = q).
  - destruct (truthy_opt hint).
    + eapply triple_try_catch with (E' := fun _ => I).
      * apply triple_request.
        -- intros w e Hw _. now apply Hrec.
        -- intros w Hw _. cbn. split; [now apply Hrec|].
           intros item E. apply find_some in E as [_ E].
           unfold has_key in E. apply andb_true_iff in E as [E _]. now apply Z.eqb_eq.
      * intros e. apply triple_ret. intros w Hw. split; [exact Hw | discriminate].
    + apply triple_ret. intros w Hw. split; [exact Hw | discriminate].
  - intros [item|].
    + apply triple_ret. intros w [Hw H]. split; [exact Hw | now apply H].
    + eapply triple_try_catch with (E' := fun _ => I);
        [|intros e; now apply triple_throw].
      eapply triple_bind
        with (R := fun items w => I w /\ forall item, In item items -> QueryID item = q).
      * apply triple_request.
        -- intros w e [Hw _] _. now apply Hrec.
        -- intros w [Hw _] _. cbn -[firstn]. split; [now apply Hrec|].
           intros item E. apply In_firstn in E. apply filter_In in E as [_ E].
           now apply Z.eqb_eq.
      * intros [|item items].
        -- apply triple_throw. now intros w [Hw _].
        -- apply triple_ret. intros w [Hw H]. split; [exact Hw|]. apply H. now left.
Qed.

Lemma iv_deleteSchedule : invariant I (deleteSchedule env q).
Proof.
  unfold deleteSchedule. apply inv_try_catch; [|intros; apply inv_ret].
  now apply iv_call.
Qed.

Lemma iv_checkRunCount : invariant I (checkRunCount env q).
Proof.
  unfold checkRunCount, send_DataScanCount.
  apply inv_try_catch; [|intros; apply inv_throw]. now apply iv_call.
Qed.

Lemma iv_triggerEmailNotification qd :
  QueryID qd = q -> invariant I (triggerEmailNotification env qd).
Proof.
  intros E. unfold triggerEmailNotification.
  destruct (negb (JS.truthy (Email qd))); [apply inv_ret|]. now apply iv_call.
Qed.

Lemma iv_authenticate : invariant I (authenticate env).
Proof.
  unfold authenticate. destruct (_ || _); [apply inv_throw|].
  apply inv_try_catch; [|intros; apply inv_throw]. now apply iv_call.
Qed.

Lemma iv_scorePost p : found env p -> invariant I (scorePost env p).
Proof.
  intros F. unfold scorePost. destruct (text p) as [postText|] eqn:T; [|apply inv_ret].
  destruct (JS.blank (Some postText)) eqn:B; [apply inv_ret|].
  apply inv_try_catch; [|intros; apply inv_ret].
  apply inv_bind; [|intros; apply inv_ret].
  apply iv_call. now exists p, postText.
Qed.

Lemma iv_keyPhrasePost p : found env p -> invariant I (keyPhrasePost env p).
Proof.
  intros F. unfold keyPhrasePost. destruct (text p) as [postText|] eqn:T; [|apply inv_ret].
  destruct (JS.blank (Some postText)) eqn:B; [apply inv_ret|].
  apply inv_try_catch; [|intros; apply inv_ret].
  apply inv_bind; [|intros; apply inv_ret].
  apply iv_call. now exists p, postText.
Qed.

Lemma iv_analyzeSentimentForTerm term limit :
  triple I (analyzeSentimentForTerm env term limit q)
         (fun r w => I w /\ (forall s, fst r = Some s -> summary_ok q s) /\
                     Forall (found env) (snd r))
         (fun _ => I).
Proof.
  unfold analyzeSentimentForTerm.
  eapply triple_try_catch with (E' := fun _ => I).
  2:{ intros e. apply triple_ret. intros w Hw. split; [exact Hw|].
      split; [discriminate | constructor]. }
  eapply triple_bind with (R := fun posts w => I w /\ Forall (found env) posts).
  - apply triple_request.
    + intros w e Hw _. now apply Hrec.
    + intros w Hw _. cbn. split; [now apply Hrec|].
      apply Forall_forall. intros p Hp. now exists (List.length (log w)), term, limit.
  - intros [|p0 rest].
    + apply triple_ret. intros w [Hw _]. split; [exact Hw|].
      split; [discriminate | constructor].
    + eapply triple_bind with (R := fun _ w => I w /\ Forall (found env) (p0 :: rest)).
      * intros w [Hw F].
        assert (Hm : invariant I (mapM (scorePost env) (p0 :: rest))).
        { apply inv_mapM. intros x Hx. apply iv_scorePost.
          rewrite Forall_forall in F. now apply F. }
        specialize (Hm w Hw). destruct (mapM _ _ w) as [[ps|e] w1]; [now split | exact Hm].
      * intros ps. eapply triple_bind with (R := fun _ w => I w /\ Forall (found env) (p0 :: rest)).
        -- intros w H. exact H.
        -- intros time. apply triple_ret. intros w [Hw F]. split; [exact Hw|].
           split; [|exact F]. cbn [fst]. intros s E. now apply summarize_ok in E.
Qed.

Lemma iv_triggerAddSubtopicLambda s : invariant I (triggerAddSubtopicLambda env q s).
Proof.
  unfold triggerAddSubtopicLambda. cbn zeta. fold (truncated s).
  destruct (JS.truthy (truncated s)) eqn:T; cbn [negb]; [|apply inv_ret].
  apply inv_try_catch; [|intros; apply inv_ret].
  apply iv_call. split; [reflexivity | now apply truncated_length].
Qed.

Lemma iv_firstRunActions qd posts :
  Forall (found env) posts -> invariant I (firstRunActions env qd q posts).
Proof.
  intros F. unfold firstRunActions.
  apply inv_bind; [now apply iv_call|]. intros _.
  destruct posts as [|p0 rest]; [apply inv_ret|].
  apply inv_bind.
  - apply inv_mapM. intros x Hx. apply iv_keyPhrasePost.
    rewrite Forall_forall in F. now apply F.
  - intros pwk. apply inv_forM_. intros s _. apply iv_triggerAddSubtopicLambda.
Qed.

Lemma iv_analyzeMainTopic qd rc : invariant I (analyzeMainTopic env qd q rc).
Proof.
  unfold analyzeMainTopic.
  eapply triple_try_catch with (E' := fun _ => I); [|intros e; apply inv_ret].
  eapply triple_bind; [apply iv_analyzeSentimentForTerm|].
  intros [summary posts]. cbn [fst snd].
  destruct summary as [s|].
  2:{ apply triple_ret. now intros w [Hw _]. }
  intros w (Hw & Hs & Hp). revert w Hw.
  change (invariant I
            (storeAnalysisResults env s ;;
             try_catch (if rc =? 0 then firstRunActions env qd q posts else ret tt)
                       (fun _ => ret tt) ;;
             ret true)).
  apply inv_bind; [apply Hmain; now apply Hs|]. intros _.
  apply inv_bind; [|intros; apply inv_ret].
  apply inv_try_catch; [|intros; apply inv_ret].
  destruct (rc =? 0); [now apply iv_firstRunActions | apply inv_ret].
Qed.

Lemma iv_getSubtopics : invariant I (getSubtopics env q).
Proof.
  unfold getSubtopics. apply inv_try_catch; [|intros; apply inv_ret].
  apply inv_bind; [now apply iv_call|]. intros response.
  unfold parse.
  repeat inv_step idtac.
Qed.

Lemma iv_analyzeSubtopic qd subtopic : invariant I (analyzeSubtopic env qd q subtopic).
Proof.
  unfold analyzeSubtopic.
  eapply triple_try_catch with (E' := fun _ => I); [|intros e; apply inv_ret].
  eapply triple_bind; [apply iv_analyzeSentimentForTerm|].
  intros [summary posts]. cbn [fst snd].
  destruct summary as [s|].
  2:{ apply triple_ret. now intros w [Hw _]. }
  intros w (Hw & Hs & Hp). revert w Hw. apply Hsub. now apply Hs.
Qed.

Lemma iv_analyzeSubtopics qd rc : invariant I (analyzeSubtopics env qd q rc).
Proof.
  unfold analyzeSubtopics. destruct (rc >? 0); [|apply inv_ret].
  apply inv_bind; [apply iv_getSubtopics|]. intros subtopics.
  apply inv_forM_. intros s _. apply iv_analyzeSubtopic.
Qed.

Lemma iv_finalCheckAndCleanup qd rc stored :
  QueryID qd = q -> invariant I (finalCheckAndCleanup env qd q rc stored).
Proof.
  intros E. unfold finalCheckAndCleanup. cbn zeta.
  apply inv_bind; [|intros; apply inv_ret].
  destruct (_ >=? _); [|apply inv_ret].
  apply inv_bind; [now apply iv_triggerEmailNotification|].
  intros _. apply iv_deleteSchedule.
Qed.

Lemma iv_analyzeInterval event qd rc :
  QueryID qd = q -> invariant I (analyzeInterval env event qd q rc).
Proof.
  intros E. unfold analyzeInterval.
  apply inv_bind; [apply iv_analyzeMainTopic|]. intros stored.
  apply inv_bind; [apply iv_analyzeSubtopics|]. intros _.
  apply inv_bind; [now apply iv_finalCheckAndCleanup|]. intros eff.
  destruct (isScheduledEvent event); apply inv_ret.
Qed.

Lemma iv_processQuery event hint : invariant I (processQuery env event q hint).
Proof.
  unfold processQuery. destruct (_ || _); [apply inv_throw|].
  eapply triple_bind; [apply iv_getQueryDetails|].
  intros qd w [Hw E]. revert w Hw.
  destruct (_ || _).
  { apply inv_bind; [apply iv_deleteSchedule | intros; apply inv_ret]. }
  apply inv_bind; [apply iv_checkRunCount|]. intros rc.
  destruct (rc >=? NumIntervals qd).
  - apply inv_bind; [now apply iv_triggerEmailNotification|]. intros _.
    apply inv_bind; [apply iv_deleteSchedule | intros; apply inv_ret].
  - apply inv_bind; [apply iv_authenticate|]. intros _. now apply iv_analyzeInterval.
Qed.

End InvocationInvariant.

(** An invariant of the invocations is an invariant of the handler. *)
Lemma handler_invariant env event (I : World -> Prop) :
  (forall q hint, extractQueryInfo env event = Ok (Some (q, hint)) ->
     (forall c w, invocation_call env q c -> I w -> I (record_call c w)) /\
     (forall s, summary_ok q s -> invariant I (storeAnalysisResults env s)) /\
     (forall s subtopic mainTopic,
        summary_ok q s ->
        invariant I (storeSubtopicAnalysisResults env s subtopic mainTopic))) ->
  invariant I (handler env event).
Proof.
  intros H. unfold handler.
  destruct (extractQueryInfo env event) as [[[q hint]|]|e];
    [|apply inv_ret | apply inv_throw].
  destruct (H q hint eq_refl) as (H1 & H2 & H3). now apply iv_processQuery.
Qed.

(** An invariant that looks at the log only is kept by the two stores
    when their calls keep it. *)
Lemma stores_keep_log_invariant env q (I : World -> Prop) :
  (forall w w', log w' = log w -> I w -> I w') ->
  (forall c w, invocation_call env q c -> I w -> I (record_call c w)) ->
  (forall s, summary_ok q s -> invariant I (storeAnalysisResults env s)) /\
  (forall s subtopic mainTopic,
     summary_ok q s ->
     invariant I (storeSubtopicAnalysisResults env s subtopic mainTopic)).
Proof.
  intros Hlog Hrec.
  assert (side1 : forall c w, invocation_call env q c -> I w -> I (record_call c w))
    by exact Hrec.
  assert (Hid : invariant I (getNextDataId env DATA_COUNTER_NAME)).
  { unfold getNextDataId, send_CounterUpdate, send_CounterGet, send_CounterPutIfAbsent.
    repeat inv_step ltac:(first
      [ intros w0 Hw0; apply Hrec; [reflexivity | exact Hw0]
      | intros t0 w0 Hw0; apply (Hlog w0); [|exact Hw0]; cbn;
        repeat match goal with |- context [match ?x with _ => _ end] => destruct x end;
        reflexivity ]). }
  split.
  - intros s E. unfold storeAnalysisResults.
    destruct (negb (DATA_TABLE_NAME env)); [apply inv_throw|].
    apply inv_bind; [exact Hid|]. intros dataId.
    apply inv_try_catch; [|intros; apply inv_throw].
    apply inv_bind; [apply inv_Date_now|]. intros createdAt.
    apply inv_request.
    + intros w0 Hw0. apply Hrec; [exact (proj1 E) | exact Hw0].
    + intros t0 w0 Hw0. apply (Hlog w0); [reflexivity | exact Hw0].
  - intros s subtopic mainTopic E. unfold storeSubtopicAnalysisResults.
    destruct (negb (DATA_TABLE_NAME env)); [apply inv_throw|].
    apply inv_bind; [exact Hid|]. intros dataId.
    apply inv_try_catch; [|intros; apply inv_throw].
    apply inv_bind; [apply inv_Date_now|]. intros createdAt.
    apply inv_request.
    + intros w0 Hw0. apply Hrec; [exact (proj1 E) | exact Hw0].
    + intros t0 w0 Hw0. apply (Hlog w0); [reflexivity | exact Hw0].
Qed.

Lemma logged_record (PC : Call -> Prop) l0 c w :
  PC c -> logged PC l0 w -> logged PC l0 (record_call c w).
Proof.
  intros Hc (new & L & F). exists (c :: new). split; [cbn; now rewrite L | now constructor].
Qed.

(** The calls of an invocation, as a statement on its log. *)
Lemma handler_calls env event w q hint new :
  extractQueryInfo env event = Ok (Some (q, hint)) ->
  log (snd (handler env event w)) = new ++ log w ->
  Forall (invocation_call env q) new.
Proof.
  intros X L.
  assert (H : invariant (logged (invocation_call env q) (log w)) (handler env event)).
  { apply handler_invariant. intros q' hint' X'.
    assert (q' = q) as -> by congruence.
    assert (Hrec : forall c w0, invocation_call env q c ->
                                logged (invocation_call env q) (log w) w0 ->
                                logged (invocation_call env q) (log w) (record_call c w0))
      by (intros; now apply logged_record).
    split; [exact Hrec|].
    apply stores_keep_log_invariant; [|exact Hrec].
    intros w1 w2 E (n & Ln & Fn). exists n. split; [congruence | exact Fn]. }
  apply (invariant_run _ _ w) in H; [|exists []; split; [reflexivity | constructor]].
  destruct H as (new' & L' & F).
  assert (new' = new) as -> by (apply (app_inv_tail (log w)); congruence).
  exact F.
Qed.

(** The records of an invocation, as a statement on the Data table. *)
Lemma handler_records env event w q hint :
  extractQueryInfo env event = Ok (Some (q, hint)) ->
  exists added,
    data (snd (handler env event w)) = data w ++ added /\
    Forall (record_ok q) added.
Proof.
  intros X.
  set (I := fun w' : World =>
              exists added, data w' = data w ++ added /\ Forall (record_ok q) added).
  assert (Hsame : forall w1 w2, data w2 = data w1 -> I w1 -> I w2).
  { intros w1 w2 E (a & D & F). exists a. split; [congruence | exact F]. }
  assert (Hput : forall it w1, record_ok q it -> I w1 -> I (append_item it w1)).
  { intros it w1 E (a & D & F). exists (a ++ [it]). split.
    - cbn. now rewrite D, app_assoc.
    - apply Forall_app. split; [exact F | constructor; [exact E | constructor]]. }
  assert (Hid : invariant I (getNextDataId env DATA_COUNTER_NAME)).
  { unfold getNextDataId, send_CounterUpdate, send_CounterGet, send_CounterPutIfAbsent.
    repeat inv_step ltac:(first
      [ intros w0 Hw0; apply (Hsame w0); [reflexivity | exact Hw0]
      | intros t0 w0 Hw0; apply (Hsame w0); [|exact Hw0]; cbn;
        repeat match goal with |- context [match ?x with _ => _ end] => destruct x end;
        reflexivity ]). }
  assert (H : invariant I (handler env event)).
  { apply handler_invariant. intros q' hint' X'.
    assert (q' = q) as -> by congruence.
    split; [intros c w0 _ Hw0; now apply (Hsame w0)|]. split.
    - intros s E. unfold storeAnalysisResults.
      destruct (negb (DATA_TABLE_NAME env)); [apply inv_throw|].
      apply inv_bind; [exact Hid|]. intros dataId.
      apply inv_try_catch; [|intros; apply inv_throw].
      apply inv_bind; [apply inv_Date_now|]. intros createdAt.
      apply inv_request.
      + intros w0 Hw0. now apply (Hsame w0).
      + intros t0 w0 Hw0. cbn. apply Hput; [|exact Hw0].
        destruct E as (E1 & E2 & E3 & E4 & E5 & E6 & E7).
        repeat (split; [assumption|]). left. now split.
    - intros s subtopic mainTopic E. unfold storeSubtopicAnalysisResults.
      destruct (negb (DATA_TABLE_NAME env)); [apply inv_throw|].
      apply inv_bind; [exact Hid|]. intros dataId.
      apply inv_try_catch; [|intros; apply inv_throw].
      apply inv_bind; [apply inv_Date_now|]. intros createdAt.
      apply inv_request.
      + intros w0 Hw0. now apply (Hsame w0).
      + intros t0 w0 Hw0. cbn. apply Hput; [|exact Hw0].
        destruct E as (E1 & E2 & E3 & E4 & E5 & E6 & E7).
        repeat (split; [assumption|]). right. split; [reflexivity | now exists mainTopic]. }
  apply (invariant_run I (handler env event) w H).
  exists []. split; [now rewrite app_nil_r | constructor].
Qed.

Lemma handler_fresh env event : invariant ids_fresh (handler env event).
Proof.
  apply handler_invariant. intros q hint _.
  split; [intros c w _; apply ids_fresh_record|].
  split; intros; [apply storeAnalysisResults_fresh | apply storeSubtopicAnalysisResults_fresh].
Qed.

(** * Further properties of the handler *)

(** ** The lookup of the topic record *)

Lemma getQueryDetails_found env queryId hint w qd w' :
  getQueryDetails env queryId hint w = (Ok qd, w') ->
  QueryID qd = queryId /\ In qd (queries w).
Proof.
  unfold getQueryDetails. destruct (negb (QUERIES_TABLE_NAME env)); [discriminate|].
  unfold bind at 1.
  assert (G : forall tp w0,
            let byKey := try_catch (send_QueriesGet env queryId tp) (fun _ => ret None) w0 in
            queries (snd byKey) = queries w0 /\
            exists r, fst byKey = Ok r /\
                      forall item, r = Some item ->
                                   QueryID item = queryId /\ In item (queries w0)).
  { intros tp w0. cbn zeta. unfold try_catch, send_QueriesGet, request, ret.
    destruct (fault env _ _); cbn.
    - split; [reflexivity|]. exists None. split; [reflexivity | discriminate].
    - split; [reflexivity|]. eexists. split; [reflexivity|].
      intros item E. apply find_some in E as [Hin E].
      unfold has_key in E. apply andb_true_iff in E as [E _].
      apply Z.eqb_eq in E. now split. }
  assert (Q : forall w0 r w1,
            try_catch
              (items <- send_QueriesQuery env queryId ;;
               match items with
               | item :: _ => ret item
               | [] => throw (Error "Query details not found using QueryCommand.")
               end)
              (fun e => throw (Error ("Failed to fetch query details: " ++ message e))) w0
            = (Ok r, w1) ->
            QueryID r = queryId /\ In r (queries w0)).
  { intros w0 r w1. unfold try_catch, bind, send_QueriesQuery, request, ret, throw.
    destruct (fault env _ _); [discriminate|]. cbn -[firstn filter].
    destruct (filter (fun q => QueryID q =? queryId) (queries w0)) as [|item rest] eqn:F;
      cbn; [discriminate|].
    intros E. injection E as <- _.
    assert (Hin : In item (filter (fun q => QueryID q =? queryId) (queries w0)))
      by (rewrite F; now left).
    apply filter_In in Hin as [Hin E]. apply Z.eqb_eq in E. now split. }
  destruct (truthy_opt hint).
  - destruct (G (match hint with Some h => h | None => [] end) w) as (Hq & r & Hr & Hitem).
    cbn zeta in *.
    destruct (try_catch _ _ w) as [[byKey|e] w0]; cbn in Hr, Hq; [|discriminate].
    injection Hr as ->. destruct r as [item|].
    + cbn. intros E. injection E as <- _. now apply Hitem.
    + intros E. apply Q in E. now rewrite Hq in E.
  - cbn [ret]. intros E. now apply Q in E.
Qed.

(** X1: a topic record returned by [getQueryDetails] is a record of the
    Queries table with the id asked for, whether it was read by key or
    found by the fallback query; the lookup changes no store and issues
    calls to the Queries table only. *)
Theorem lookup_returns_requested_record env queryId hint w qd w' :
  getQueryDetails env queryId hint w = (Ok qd, w') ->
  QueryID qd = queryId /\ In qd (queries w) /\
  queries w' = queries w /\ data w' = data w /\
  exists new, log w' = new ++ log w /\
              Forall (fun c => service c = SvcQueries) new /\
              (List.length new <= 2)%nat.
Proof.
  intros E. destruct (getQueryDetails_found _ _ _ _ _ _ E) as [Hq Hin].
  split; [exact Hq|]. split; [exact Hin|].
  revert E. unfold getQueryDetails.
  destruct (negb (QUERIES_TABLE_NAME env)); [discriminate|].
  unfold bind, try_catch, send_QueriesGet, send_QueriesQuery, request, ret, throw.
  destruct (truthy_opt hint).
  - destruct (fault env (List.length (log w)) (QueriesGet queryId _)).
    + cbn -[firstn filter]. destruct (fault env _ _); [discriminate|].
      cbn -[firstn filter]. destruct (firstn 1 _); [discriminate|].
      intros E. injection E as _ <-. cbn. repeat split.
      eexists [_; _]. split; [reflexivity|]. split; [repeat constructor | cbn; lia].
    + cbn -[firstn filter]. destruct (find _ _).
      * intros E. injection E as _ <-. cbn. repeat split.
        eexists [_]. split; [reflexivity|]. split; [repeat constructor | cbn; lia].
      * destruct (fault env _ _); [discriminate|].
        cbn -[firstn filter]. destruct (firstn 1 _); [discriminate|].
        intros E. injection E as _ <-. cbn. repeat split.
        eexists [_; _]. split; [reflexivity|]. split; [repeat constructor | cbn; lia].
  - destruct (fault env _ _); [discriminate|].
    cbn -[firstn filter]. destruct (firstn 1 _); [discriminate|].
    intros E. injection E as _ <-. cbn. repeat split.
    eexists [_]. split; [reflexivity|]. split; [repeat constructor | cbn; lia].
Qed.

Lemma lookup_returns_requested_record_witness :
  QueryID (Scenario.music 3) = 7 /\ In (Scenario.music 3) (queries (Scenario.fresh (Scenario.music 3))).
Proof.
  destruct (lookup_returns_requested_record Scenario.env 7 None
              (Scenario.fresh (Scenario.music 3)) (Scenario.music 3)
              (record_call (QueriesQuery 7) (Scenario.fresh (Scenario.music 3))) eq_refl)
    as (H1 & H2 & _).
  split; [exact H1 | exact H2].
Defined.

(** X2: when the Queries table holds a record with the id asked for and
    the fallback query does not fail, [getQueryDetails] returns a record,
    also when the read by key fails or finds nothing under the hint. *)
Theorem lookup_falls_back_to_query env queryId hint w qd0 :
  QUERIES_TABLE_NAME env = true ->
  In qd0 (queries w) -> QueryID qd0 = queryId ->
  fault env (List.length (log w) + (if truthy_opt hint then 1 else 0))%nat
        (QueriesQuery queryId) = None ->
  exists qd w', getQueryDetails env queryId hint w = (Ok qd, w').
Proof.
  intros T Hin Hq F. unfold getQueryDetails. rewrite T. cbn [negb].
  assert (NE : filter (fun q => QueryID q =? queryId) (queries w) <> []).
  { intros E. assert (I : In qd0 (filter (fun q => QueryID q =? queryId) (queries w))).
    { apply filter_In. split; [exact Hin | now apply Z.eqb_eq]. }
    now rewrite E in I. }
  unfold bind, try_catch, send_QueriesGet, send_QueriesQuery, request, ret, throw.
  destruct (truthy_opt hint).
  - rewrite Nat.add_1_r in F.
    destruct (fault env (List.length (log w)) (QueriesGet queryId _)).
    + cbn -[firstn filter]. rewrite F. cbn -[filter].
      destruct (filter _ (queries w)); [congruence|]. cbn. eauto.
    + cbn -[firstn filter]. destruct (find _ _); [cbn; eauto|].
      cbn -[firstn filter]. rewrite F. cbn -[filter].
      destruct (filter _ (queries w)); [congruence|]. cbn. eauto.
  - rewrite Nat.add_0_r in F. rewrite F. cbn -[filter].
    destruct (filter _ (queries w)); [congruence|]. cbn. eauto.
Qed.

Lemma lookup_falls_back_to_query_witness :
  fault Cases.no_get_env 0 (QueriesGet 7 (JS.lit "music")) <> None /\
  exists qd w',
    getQueryDetails Cases.no_get_env 7 (Some (JS.lit "music"))
                    (Scenario.fresh (Scenario.music 3)) = (Ok qd, w').
Proof.
  split; [discriminate|].
  apply (lookup_falls_back_to_query Cases.no_get_env 7 (Some (JS.lit "music"))
           (Scenario.fresh (Scenario.music 3)) (Scenario.music 3));
    [reflexivity | now left | reflexivity | reflexivity].
Defined.

(** X3: an invocation for a query id that has no record in the Queries
    table fails, having issued lookups only: it reads no Result record,
    stores nothing and touches no schedule. *)
Theorem unknown_query_fails_early env event w queryId hint :
  extractQueryInfo env event = Ok (Some (queryId, hint)) ->
  (forall qd, In qd (queries w) -> QueryID qd <> queryId) ->
  exists e w',
    handler env event w = (Throw e, w') /\
    data w' = data w /\
    exists new, log w' = new ++ log w /\ Forall (fun c => service c = SvcQueries) new.
Proof.
  intros X No. unfold handler. rewrite X. unfold processQuery.
  destruct (negb (QUERIES_TABLE_NAME env) || negb (DATA_TABLE_NAME env)).
  { eexists _, w. split; [reflexivity|]. split; [reflexivity|].
    exists []. split; [reflexivity | constructor]. }
  unfold bind at 1.
  destruct (getQueryDetails env queryId hint w) as [[qd|e] w1] eqn:G.
  { apply getQueryDetails_found in G as [Hq Hin]. now apply No in Hin. }
  exists e, w1. split; [reflexivity|].
  destruct (footprint_run (only [SvcQueries]) nothing _ _ _ _
              (fp_getQueryDetails env _ _ _ _ eq_refl) G) as (n1 & a1 & (L & D & _) & C & N).
  apply Forall_nothing in N. subst a1. rewrite app_nil_r in D.
  split; [exact D|]. exists n1. split; [exact L|].
  eapply Forall_impl; [|exact C]. intros c Hc. cbn beta in Hc.
  destruct (service c); try discriminate. reflexivity.
Qed.

Lemma unknown_query_fails_early_witness :
  exists e w',
    handler Scenario.env Cases.stray (Scenario.fresh (Scenario.music 3)) = (Throw e, w') /\
    data w' = data (Scenario.fresh (Scenario.music 3)).
Proof.
  destruct (unknown_query_fails_early Scenario.env Cases.stray
              (Scenario.fresh (Scenario.music 3)) 8 None eq_refl)
    as (e & w' & H & D & _).
  - intros qd [<- | []]. cbn. lia.
  - exists e, w'. now split.
Defined.

(** ** The counter and the ids *)

Lemma send_CounterUpdate_counts env counterName b :
  triple (fun w => b <= counter_value w) (send_CounterUpdate env counterName)
         (fun r w => b <= counter_value w /\
                     forall v, r = Some v -> counter w = Some v /\ b < v)
         (fun _ w => b <= counter_value w).
Proof.
  apply triple_request.
  - intros w e H _. exact H.
  - intros w H _. unfold counter_value in *. cbn.
    split; [destruct (counter w); lia|].
    intros v E. destruct (counter_reply_numeric env _); [|discriminate].
    injection E as <-. split; [reflexivity | destruct (counter w); lia].
Qed.

Lemma getNextDataId_counts env counterName b :
  triple (fun w => b <= counter_value w) (getNextDataId env counterName)
         (fun id w => counter w = Some id /\ b < id)
         (fun _ w => b <= counter_value w).
Proof.
  unfold getNextDataId.
  eapply triple_try_catch with (E' := fun _ w => b <= counter_value w);
    [|intros e; now apply triple_throw].
  eapply triple_bind; [apply send_CounterUpdate_counts|].
  intros [nextId|].
  { apply triple_ret. intros w [_ H]. now apply H. }
  eapply triple_bind
    with (R := fun r w => b <= counter_value w /\
                          forall v, r = Some v -> counter w = Some v /\ b < v).
  { eapply triple_try_catch with (E' := fun _ w => b <= counter_value w).
    - eapply triple_bind with (R := fun _ w => b <= counter_value w).
      + apply triple_request.
        * now intros w e [H _] _.
        * now intros w [H _] _.
      + intros [v|]; [apply send_CounterUpdate_counts|].
        apply triple_ret. intros w H. split; [exact H | discriminate].
    - intros e. apply triple_ret. intros w H. split; [exact H | discriminate]. }
  intros [v|].
  { apply triple_ret. intros w [_ H]. now apply H. }
  eapply triple_try_catch with (E' := fun _ w => b <= counter_value w).
  - eapply triple_bind with (R := fun _ w => counter w = Some 1 /\ b < 1).
    + apply triple_request.
      * now intros w e [H _] _.
      * intros w [H _] _. cbn [record_call counter].
        destruct (counter w) as [c|] eqn:C; [exact H|].
        unfold counter_value in H. rewrite C in H. cbn. split; [reflexivity | lia].
    + intros _. now apply triple_ret.
  - intros initError. destruct (String.eqb _ _).
    + eapply triple_bind; [apply send_CounterUpdate_counts|].
      intros [v|].
      * apply triple_ret. intros w [_ H]. now apply H.
      * apply triple_throw. now intros w [H _].
    + now apply triple_throw.
Qed.

(** X4: an id returned by [getNextDataId] is the value the counter has
    afterwards and is above the value it had before, through every
    recovery path; when the draw fails the counter has not gone back.
    Ids drawn one after the other therefore increase strictly.  The draw
    leaves the Queries and the Data table as they are. *)
Theorem next_id_is_fresh env counterName w :
  match getNextDataId env counterName w with
  | (Ok id, w') =>
      counter w' = Some id /\ counter_value w < id /\
      forall w2 id2 w3,
        counter_value w' <= counter_value w2 ->
        getNextDataId env counterName w2 = (Ok id2, w3) -> id < id2
  | (Throw _, w') => counter_value w <= counter_value w'
  end /\
  data (snd (getNextDataId env counterName w)) = data w /\
  queries (snd (getNextDataId env counterName w)) = queries w.
Proof.
  split.
  - pose proof (getNextDataId_counts env counterName (counter_value w) w (Z.le_refl _)) as H.
    destruct (getNextDataId env counterName w) as [[id|e] w'] eqn:E; [|exact H].
    destruct H as [C L]. split; [exact C|]. split; [exact L|].
    intros w2 id2 w3 Hle E2.
    pose proof (getNextDataId_counts env counterName (counter_value w') w2 Hle) as H2.
    rewrite E2 in H2. destruct H2 as [_ H2].
    unfold counter_value in H2. rewrite C in H2. exact H2.
  - destruct (fp_getNextDataId env (only [SvcCounter]) nothing counterName eq_refl w)
      as (n & a & (_ & D & Q) & _ & N).
    apply Forall_nothing in N. subst a. rewrite app_nil_r in D. now split.
Qed.

(** X5: over any sequence of invocations, the Result records keep
    distinct ids, none above the counter, provided this holds at the
    start. *)
Theorem result_ids_stay_distinct env events : forall w,
  ids_fresh w -> ids_fresh (run_all env events w).
Proof.
  induction events as [|event rest IH]; intros w H; cbn [run_all]; [exact H|].
  apply IH. apply (invariant_run ids_fresh (handler env event) w); [|exact H].
  apply handler_fresh.
Qed.

Lemma result_ids_stay_distinct_witness :
  NoDup (map DataID
             (data (run_all Scenario.env [Scenario.tick; Scenario.tick; Scenario.tick]
                            (Scenario.fresh (Scenario.music 3))))).
Proof.
  refine (proj1 (result_ids_stay_distinct Scenario.env
                   [Scenario.tick; Scenario.tick; Scenario.tick]
                   (Scenario.fresh (Scenario.music 3)) _)).
  split; cbn; constructor.
Defined.

(** ** Topics whose analysis is over *)

(** X6: for a topic whose status is COMPLETED or CANCELLED the invocation
    issues the deletion of the schedule right after the lookup and
    returns, whether the deletion succeeds or not: it reads no run count,
    sends no notification and analyses nothing. *)
Theorem inactive_topic_only_deletes_schedule env event w queryId hint qd w1 :
  extractQueryInfo env event = Ok (Some (queryId, hint)) ->
  DATA_TABLE_NAME env = true ->
  getQueryDetails env queryId hint w = (Ok qd, w1) ->
  active qd = false ->
  handler env event w = (Ok None, record_call (SchedulerDelete queryId) w1).
Proof.
  intros X D G A. unfold handler. rewrite X. unfold processQuery.
  assert (Q : QUERIES_TABLE_NAME env = true).
  { unfold getQueryDetails in G. destruct (QUERIES_TABLE_NAME env); [reflexivity|].
    cbn in G. discriminate. }
  rewrite Q, D. cbn [negb orb]. unfold bind at 1. rewrite G.
  unfold active in A. apply negb_false_iff in A. rewrite A.
  unfold bind, deleteSchedule, try_catch, request, ret.
  now destruct (fault env _ _).
Qed.

Lemma inactive_topic_only_deletes_schedule_witness :
  log (snd (handler Scenario.env Scenario.tick (Scenario.after_one_run Cases.completed)))
    = [SchedulerDelete 7; QueriesQuery 7].
Proof.
  rewrite (inactive_topic_only_deletes_schedule Scenario.env Scenario.tick
             (Scenario.after_one_run Cases.completed) 7 None Cases.completed
             (record_call (QueriesQuery 7) (Scenario.after_one_run Cases.completed))
             eq_refl eq_refl eq_refl eq_refl).
  reflexivity.
Defined.

(** ** The stores over time *)

Lemma run_all_grows env events : forall w,
  exists new added, grows w (run_all env events w) new added.
Proof.
  induction events as [|event rest IH]; intros w; cbn [run_all].
  - exists [], []. apply grows_refl.
  - destruct (handler_grows env event w) as (n1 & a1 & G1).
    destruct (IH (snd (handler env event w))) as (n2 & a2 & G2).
    exists (n2 ++ n1), (a1 ++ a2). eapply grows_trans; eauto.
Qed.


(** ** The run count *)

Lemma handler_run_step env event w q :
  main_runs q (data (snd (handler env event w))) = main_runs q (data w) \/
  (main_runs q (data (snd (handler env event w))) = main_runs q (data w) + 1 /\
   exists qd, In qd (queries w) /\ QueryID qd = q /\
              main_runs q (data w) < NumIntervals qd).
Proof.
  destruct (handler_quiet_or_enters env event w)
    as [(new & (_ & D & _) & _) | (queryId & qd & rc & w3 & En)].
  { left. now rewrite D, app_nil_r. }
  destruct (entered_run env _ _ _ _ _ _ En)
    as (stored & new & added & (_ & D & _) & Erc & M & _).
  destruct En as (w2 & (hint & w1 & X & _ & G & _) & Hrc & _).
  destruct (getQueryDetails_found _ _ _ _ _ _ G) as [Hq Hin].
  destruct (Z.eq_dec q queryId) as [-> | NE].
  - rewrite D, main_runs_app, M. destruct stored; [right | left; lia].
    split; [lia|]. exists qd. repeat split; auto. lia.
  - left. destruct (handler_records env event w queryId hint X) as (added' & D' & F).
    rewrite D', main_runs_app, (main_runs_skip q added'); [lia|].
    eapply Forall_impl; [|exact F]. intros it (E & _). right. congruence.
Qed.



(** ** The calls and the records of an invocation *)

(** X9: every call of an invocation stays within its query: the lookups,
    the scan, the schedule deleted, the notification, the subtopic
    registry and the records written are those of the query id of the
    event; the counter is the data counter; a label sent to the registry
    is never empty and has at most 255 characters; a text sent to the
    scorer or to the key-phrase extractor is the prepared text of a post
    found, never of a post without text.  An event that yields no query
    id causes no call at all. *)
Theorem invocation_stays_in_scope env event w new :
  log (snd (handler env event w)) = new ++ log w ->
  match extractQueryInfo env event with
  | Ok (Some (q, _)) => Forall (invocation_call env q) new
  | _ => new = []
  end.
Proof.
  intros L. destruct (extractQueryInfo env event) as [[[q hint]|]|e] eqn:X.
  - exact (handler_calls env event w q hint new X L).
  - unfold handler in L. rewrite X in L. cbn in L.
    apply (app_inv_tail (log w)). now rewrite <- L.
  - unfold handler in L. rewrite X in L. cbn in L.
    apply (app_inv_tail (log w)). now rewrite <- L.
Qed.

Lemma invocation_stays_in_scope_witness :
  Forall (invocation_call Scenario.env 7)
         (log (snd (handler Scenario.env Scenario.tick (Scenario.fresh (Scenario.music 3))))).
Proof.
  apply (invocation_stays_in_scope Scenario.env Scenario.tick
           (Scenario.fresh (Scenario.music 3))).
  now rewrite app_nil_r.
Defined.

(** X10: the Result records an invocation writes are added after those
    of before and all carry the query id of the event; each counts at
    least one scored post and its four category counts are not negative
    and sum to at most the posts scored; each is tagged as the main
    topic's record or as a subtopic's record with its main topic; and at
    most one of them is a main-topic record.  An event that yields no
    query id writes nothing. *)
Theorem records_of_an_invocation env event w :
  exists added,
    data (snd (handler env event w)) = data w ++ added /\
    match extractQueryInfo env event with
    | Ok (Some (q, _)) => Forall (record_ok q) added /\ main_runs q added <= 1
    | _ => added = []
    end.
Proof.
  destruct (extractQueryInfo env event) as [[[q hint]|]|e] eqn:X.
  - destruct (handler_records env event w q hint X) as (added & D & F).
    exists added. split; [exact D|]. split; [exact F|].
    pose proof (handler_run_step env event w q) as S.
    rewrite D, main_runs_app in S. destruct S as [S | [S _]]; lia.
  - exists []. unfold handler. rewrite X. cbn. now rewrite app_nil_r.
  - exists []. unfold handler. rewrite X. cbn. now rewrite app_nil_r.
Qed.

(** ** The size of the texts sent for analysis *)

Lemma textToAnalyze_bytes text :
  JS.wf_string text ->
  Utf8.Buffer_byteLength (textToAnalyze text) <= MAX_COMPREHEND_BYTES + 2.
Proof.
  intros Hwf. unfold textToAnalyze.
  destruct (Z.gtb_spec (Utf8.Buffer_byteLength text) MAX_COMPREHEND_BYTES) as [G | L];
    [|lia].
  unfold Utf8.Buffer_toString, Utf8.Buffer_slice0, Utf8.Buffer_from, Utf8.Buffer_byteLength.
  pose proof (code_points_scalar text Hwf) as Hsc.
  destruct (decode_encode_prefix _ Hsc (Z.to_nat MAX_COMPREHEND_BYTES))
    as [k [[E Lk] | [E Lk]]]; unfold Utf8.Buffer_from; rewrite E.
  - rewrite code_points_of_code_points by now apply Forall_firstn.
    unfold MAX_COMPREHEND_BYTES in *. lia.
  - rewrite code_points_of_code_points.
    + unfold Utf8.encode. rewrite flat_map_app, length_app. cbn.
      fold (Utf8.encode (firstn k (Utf8.code_points text))).
      unfold MAX_COMPREHEND_BYTES in *. lia.
    + apply Forall_app. split; [now apply Forall_firstn|].
      constructor; [apply scalar_REPLACEMENT | constructor].
Qed.

(** The calls of a sequence of invocations are calls of its
    invocations. *)
Lemma run_all_calls env (P : Call -> Prop) :
  (forall event w new, log (snd (handler env event w)) = new ++ log w -> Forall P new) ->
  forall events w new, log (run_all env events w) = new ++ log w -> Forall P new.
Proof.
  intros H. induction events as [|event rest IH]; intros w new L; cbn [run_all] in L.
  { assert (new = []) as -> by (apply (app_inv_tail (log w)); now rewrite <- L).
    constructor. }
  destruct (handler_grows env event w) as (n1 & a1 & (L1 & _)).
  destruct (run_all_grows env rest (snd (handler env event w))) as (n2 & a2 & (L2 & _)).
  assert (new = n2 ++ n1) as ->.
  { apply (app_inv_tail (log w)). rewrite <- L, L2, L1, app_assoc. reflexivity. }
  apply Forall_app. split; [now apply (IH _ _ L2) | now apply (H _ _ _ L1)].
Qed.

(** X11: when the texts of the posts found are strings of UTF-16 code
    units, every text that any invocation sends to the sentiment scorer
    or to the key-phrase extractor encodes to at most 4992 bytes, within
    the limit of 5000 bytes of the two services. *)
Theorem texts_within_scorer_limit env :
  (forall p x, found env p -> text p = Some x -> JS.wf_string x) ->
  forall events w new,
    log (run_all env events w) = new ++ log w -> Forall within_scorer_limit new.
Proof.
  intros Hwf. apply run_all_calls. intros event w new L.
  destruct (extractQueryInfo env event) as [[[q hint]|]|e] eqn:X.
  - pose proof (handler_calls env event w q hint new X L) as C.
    eapply Forall_impl; [|exact C]. intros c Hc.
    destruct c; cbn in *; auto.
    + destruct Hc as (p & postText & F & T & _ & ->).
      apply textToAnalyze_bytes. now apply (Hwf p).
    + destruct Hc as (p & postText & F & T & _ & ->).
      apply textToAnalyze_bytes. now apply (Hwf p).
  - unfold handler in L. rewrite X in L. cbn in L.
    assert (new = []) as -> by (apply (app_inv_tail (log w)); now rewrite <- L).
    constructor.
  - unfold handler in L. rewrite X in L. cbn in L.
    assert (new = []) as -> by (apply (app_inv_tail (log w)); now rewrite <- L).
    constructor.
Qed.

Lemma wf_string_check s :
  forallb (fun u => (0 <=? u) && (u <=? 0xFFFF)) s = true -> JS.wf_string s.
Proof.
  intros H. apply Forall_forall. intros u Hu.
  rewrite forallb_forall in H. specialize (H u Hu).
  apply andb_true_iff in H as [H1 H2]. unfold JS.code_unit. lia.
Qed.

Lemma texts_within_scorer_limit_witness :
  Forall within_scorer_limit
         (log (run_all Scenario.env [Scenario.tick; Scenario.tick]
                       (Scenario.fresh (Scenario.music 3)))).
Proof.
  apply (texts_within_scorer_limit Scenario.env) with
    (events := [Scenario.tick; Scenario.tick]) (w := Scenario.fresh (Scenario.music 3));
    [|now rewrite app_nil_r].
  intros p x (t & term & limit & Hin) T. cbn in Hin.
  destruct Hin as [<- | [<- | [<- | []]]]; cbn in T; injection T as <-;
    apply wf_string_check; reflexivity.
Defined.

(** ** The order of the calls *)

Lemma entered_log env event w queryId qd rc w3 :
  enters env event w queryId qd rc w3 ->
  exists post,
    log (snd (handler env event w)) = post ++ log w3 /\
    Forall (fun c => service c <> SvcLogin) post.
Proof.
  intros En.
  destruct (enters_handler env _ _ _ _ _ _ En) as (E & _).
  destruct (analyzeInterval_spec env event qd queryId rc w3)
    as (stored & w4 & n_main & a_main & w5 & n_sub & a_sub &
        E1 & (L1 & _) & _ & C1 & _ & E2 & (L2 & _) & _ & C2 & _ & EI).
  assert (C : Forall (fun c => service c <> SvcLogin) (n_sub ++ n_main)).
  { apply Forall_app. split.
    - eapply Forall_impl; [|exact C2]. intros c Hc N. cbn beta in Hc.
      rewrite N in Hc. discriminate.
    - eapply Forall_impl; [|exact C1]. intros c Hc N. cbn beta in Hc.
      rewrite N in Hc. discriminate. }
  assert (L5 : log w5 = (n_sub ++ n_main) ++ log w3) by (now rewrite L2, L1, app_assoc).
  rewrite E, EI, finalCheckAndCleanup_spec. cbn zeta.
  destruct (effective rc stored >=? NumIntervals qd).
  - destruct (JS.truthy (Email qd)).
    + destruct (fault env (List.length (log w5)) _); cbn [snd record_call log].
      * exists (SnsPublish (Email qd) (QueryID qd) :: n_sub ++ n_main).
        split; [now rewrite L5|]. constructor; [discriminate | exact C].
      * exists (SchedulerDelete queryId :: SnsPublish (Email qd) (QueryID qd)
                  :: n_sub ++ n_main).
        split; [now rewrite L5|].
        constructor; [discriminate|]. constructor; [discriminate | exact C].
    + cbn [snd record_call log]. exists (SchedulerDelete queryId :: n_sub ++ n_main).
      split; [now rewrite L5|]. constructor; [discriminate | exact C].
  - cbn [snd]. exists (n_sub ++ n_main). split; [exact L5 | exact C].
Qed.

(** X12: an invocation that searches, scores, extracts key phrases,
    draws an id, writes a record or calls the subscription or the subtopic
    registry has logged in before, exactly once, with both credentials
    set and with success; before the login it has issued only the lookups
    and the scan. *)
Theorem analysis_after_login env event w new c :
  log (snd (handler env event w)) = new ++ log w ->
  In c new -> analysis_call c = true ->
  BLUESKY_HANDLE env = true /\ BLUESKY_APP_PASSWORD env = true /\
  exists post pre,
    new = post ++ BskyLogin :: pre /\
    Forall (fun c => only [SvcQueries; SvcScan] (service c) = true) pre /\
    Forall (fun c => service c <> SvcLogin) post /\
    fault env (List.length (pre ++ log w)) BskyLogin = None.
Proof.
  intros L I A.
  destruct (handler_quiet_or_enters env event w)
    as [(new' & (L' & _) & C) | (queryId & qd & rc & w3 & En)].
  { assert (new' = new) as -> by (apply (app_inv_tail (log w)); congruence).
    rewrite Forall_forall in C. specialize (C c I). unfold analysis_call in A.
    destruct (service c); discriminate. }
  destruct (entered_log env _ _ _ _ _ _ En) as (post & Lp & Cp).
  destruct En as (w2 & R & _ & Au).
  destruct (reaches_handler env _ _ _ _ _ _ R) as (_ & _ & pre & (L2 & _) & Cpre).
  destruct (authenticate_spec env _ _ _ Au) as [[_ (e & He)] | [-> [(e & He) | (_ & F & H1 & H2)]]];
    try discriminate.
  split; [exact H1|]. split; [exact H2|]. exists post, pre.
  split.
  { apply (app_inv_tail (log w)). rewrite <- L, Lp. cbn [record_call log].
    rewrite L2, <- app_assoc. reflexivity. }
  split; [exact Cpre|]. split; [exact Cp|]. now rewrite <- L2.
Qed.

Lemma analysis_after_login_witness :
  exists post pre,
    log (snd (handler Scenario.env Scenario.tick (Scenario.fresh (Scenario.music 3))))
      = post ++ BskyLogin :: pre /\
    Forall (fun c => only [SvcQueries; SvcScan] (service c) = true) pre.
Proof.
  destruct (analysis_after_login Scenario.env Scenario.tick
              (Scenario.fresh (Scenario.music 3))
              (log (snd (handler Scenario.env Scenario.tick
                           (Scenario.fresh (Scenario.music 3)))))
              (SearchPosts (JS.lit "Music") 10))
    as (_ & _ & post & pre & E & C & _).
  - now rewrite app_nil_r.
  - vm_compute. tauto.
  - reflexivity.
  - exists post, pre. now split.
Defined.

(** X13: once logged in, an invocation can fail in one way only: in the
    completion notification.  When it throws, the effective run count has
    reached [NumIntervals], the topic record has an address, the error is
    the one of the notification call, which is the last call issued, and
    the schedule has not been deleted by this invocation. *)
Theorem failure_after_login_is_the_notification env event w queryId qd rc w3 e w' :
  enters env event w queryId qd rc w3 ->
  handler env event w = (Throw e, w') ->
  JS.truthy (Email qd) = true /\
  exists (stored : bool) w5,
    effective rc stored >= NumIntervals qd /\
    fault env (List.length (log w5)) (SnsPublish (Email qd) (QueryID qd)) = Some e /\
    w' = record_call (SnsPublish (Email qd) (QueryID qd)) w5 /\
    exists post, log w5 = post ++ log w3 /\
                 Forall (fun c => service c <> SvcScheduler /\ service c <> SvcPublish) post.
Proof.
  intros En H.
  destruct (enters_handler env _ _ _ _ _ _ En) as (E & _).
  destruct (analyzeInterval_spec env event qd queryId rc w3)
    as (stored & w4 & n_main & a_main & w5 & n_sub & a_sub &
        E1 & (L1 & _) & _ & C1 & _ & E2 & (L2 & _) & _ & C2 & _ & EI).
  rewrite E, EI, finalCheckAndCleanup_spec in H. cbn zeta in H.
  destruct (effective rc stored >=? NumIntervals qd) eqn:GE; [|discriminate].
  destruct (JS.truthy (Email qd)); [|discriminate].
  destruct (fault env (List.length (log w5)) _) as [e'|] eqn:F; [|discriminate].
  injection H as <- <-.
  split; [reflexivity|]. exists stored, w5.
  split; [apply Z.geb_le in GE; lia|]. split; [exact F|]. split; [reflexivity|].
  exists (n_sub ++ n_main). split; [now rewrite L2, L1, app_assoc|].
  apply Forall_app. split.
  - eapply Forall_impl; [|exact C2]. intros c Hc. cbn beta in Hc.
    split; intros N; rewrite N in Hc; discriminate.
  - eapply Forall_impl; [|exact C1]. intros c Hc. cbn beta in Hc.
    split; intros N; rewrite N in Hc; discriminate.
Qed.

(** ** The calls of the analysis of a term *)

Lemma scorePost_log env p w :
  exists pa w1, scorePost env p w = (Ok pa, w1) /\
                log w1 = scoring_calls [p] ++ log w.
Proof.
  unfold scorePost, scoring_calls. cbn [flat_map]. rewrite app_nil_r.
  destruct (text p) as [postText|]; [|now eexists _, _].
  destruct (JS.blank (Some postText)); [now eexists _, _|].
  unfold try_catch, bind, request, ret.
  destruct (fault env _ _); now eexists _, _.
Qed.

Lemma mapM_scorePost_log env posts : forall w,
  log (snd (mapM (scorePost env) posts w)) = rev (scoring_calls posts) ++ log w.
Proof.
  induction posts as [|p rest IH]; intros w; [reflexivity|].
  cbn [mapM]. unfold bind at 1.
  destruct (scorePost_log env p w) as (pa & w1 & E1 & L1).
  rewrite E1. unfold bind. specialize (IH w1).
  assert (L : log (snd (mapM (scorePost env) rest w1))
              = rev (scoring_calls (p :: rest)) ++ log w).
  { assert (S : scoring_calls (p :: rest) = scoring_calls [p] ++ scoring_calls rest)
      by (unfold scoring_calls; cbn [flat_map]; now rewrite app_nil_r).
    rewrite IH, L1, S, rev_app_distr, <- app_assoc. f_equal.
    unfold scoring_calls. cbn [flat_map]. rewrite app_nil_r.
    destruct (text p) as [postText|]; [|reflexivity].
    now destruct (JS.blank (Some postText)). }
  destruct (mapM (scorePost env) rest w1) as [[ps|e] w2]; exact L.
Qed.

(** X14: the analysis of a term issues one search and then, when the
    search succeeds, one scoring call for each post found that has text,
    in the order of the posts, on the prepared text of the post; it issues
    no scoring call for a post without text and none when the search
    fails. *)
Theorem scoring_calls_of_a_term env term limit queryIdForContext w :
  log (snd (analyzeSentimentForTerm env term limit queryIdForContext w)) =
    match fault env (List.length (log w)) (SearchPosts term limit) with
    | Some _ => []
    | None => rev (scoring_calls (posts_found env (List.length (log w)) term limit))
    end ++ SearchPosts term limit :: log w.
Proof.
  unfold analyzeSentimentForTerm, try_catch at 1, bind at 1, request at 1.
  destruct (fault env (List.length (log w)) (SearchPosts term limit)); [reflexivity|].
  destruct (posts_found env (List.length (log w)) term limit) as [|p0 rest]; [reflexivity|].
  pose proof (mapM_scorePost_log env (p0 :: rest) (record_call (SearchPosts term limit) w)) as L.
  unfold bind. destruct (mapM _ _ _) as [[ps|e] w2]; cbn [snd] in *.
  - unfold Date_now, ret. cbn [snd]. exact L.
  - unfold ret. cbn [snd]. exact L.
Qed.

Lemma failure_after_login_is_the_notification_witness :
  exists w5,
    snd (handler Cases.no_mail_env Scenario.tick (Scenario.after_one_run (Scenario.music 2)))
      = record_call (SnsPublish Scenario.owner 7) w5.
Proof.
  assert (En : enters Cases.no_mail_env Scenario.tick
                 (Scenario.after_one_run (Scenario.music 2)) 7 (Scenario.music 2) 1
                 (Scenario.logged_in (Scenario.after_one_run (Scenario.music 2)))).
  { exists (Scenario.counted (Scenario.after_one_run (Scenario.music 2))).
    split; [|split; [cbn; lia | reflexivity]].
    exists None, (record_call (QueriesQuery 7) (Scenario.after_one_run (Scenario.music 2))).
    repeat split; reflexivity. }
  assert (H : handler Cases.no_mail_env Scenario.tick
                (Scenario.after_one_run (Scenario.music 2))
              = (Throw (Error "publish failed"),
                 snd (handler Cases.no_mail_env Scenario.tick
                        (Scenario.after_one_run (Scenario.music 2)))))
    by (vm_compute; reflexivity).
  destruct (failure_after_login_is_the_notification _ _ _ _ _ _ _ _ _ En H)
    as (_ & stored & w5 & _ & _ & E & _).
  exists w5. exact E.
Defined.

(** ** The list of subtopics *)

Lemma nonblank_strings_nonblank items :
  Forall (fun s => nonblank s = true) (nonblank_strings items).
Proof.
  unfold nonblank_strings. induction items as [|v items IH]; cbn [flat_map]; [constructor|].
  apply Forall_app. split; [|exact IH].
  destruct v; try constructor.
  destruct (JS.truthy s && nonblank s) eqn:E; [|constructor].
  apply andb_true_iff in E as [_ E]. now repeat constructor.
Qed.

Lemma subtopic_fields_nonblank items :
  Forall (fun s => nonblank s = true) (subtopic_fields items).
Proof.
  unfold subtopic_fields. induction items as [|v items IH]; cbn [flat_map]; [constructor|].
  apply Forall_app. split; [|exact IH].
  destruct (prop (JS.lit "Subtopic") v) as [[ | | |s| | ]|]; try constructor.
  destruct (nonblank s) eqn:E; [|constructor]. now repeat constructor.
Qed.

Lemma parsed_result_nonblank env v :
  Forall (fun s => nonblank s = true) (parsed_result env v).
Proof.
  unfold parsed_result.
  destruct (is_string_array v).
  { destruct v; try constructor. apply nonblank_strings_nonblank. }
  destruct (is_array v); [constructor|].
  destruct (api_gateway_like env v); [|constructor].
  destruct (JSON_parse env (body_of v)) as [[ | | | |items| ]|]; try constructor.
  apply subtopic_fields_nonblank.
Qed.

(** X15: whatever the registry replies, no subtopic that [getSubtopics]
    returns is empty or made of white space only: the subtopic loop never
    searches the feed for a blank term. *)
Theorem subtopics_are_nonblank env queryId w subtopics w' :
  getSubtopics env queryId w = (Ok subtopics, w') ->
  Forall (fun s => nonblank s = true /\ s <> []) subtopics.
Proof.
  intros E.
  assert (H : Forall (fun s => nonblank s = true) subtopics).
  { destruct (fault env (List.length (log w)) (LambdaGetSubtopics queryId)) as [e|] eqn:F.
    { rewrite (gs_fault env queryId w e F) in E. injection E as <- _. constructor. }
    destruct (truthy_opt (FunctionError (subtopics_reply env (List.length (log w)) queryId)))
      eqn:FE.
    { rewrite (gs_function_error env queryId w F FE) in E. injection E as <- _. constructor. }
    destruct (Payload (subtopics_reply env (List.length (log w)) queryId)) as [p|] eqn:P.
    2:{ rewrite (gs_no_payload env queryId w F FE P) in E. injection E as <- _. constructor. }
    destruct (JSON_parse env p) as [v|] eqn:J.
    2:{ rewrite (gs_unparseable env queryId w p F FE P J) in E. injection E as <- _.
        constructor. }
    rewrite (gs_parsed env queryId w p v F FE P J) in E. injection E as <- _.
    apply parsed_result_nonblank. }
  eapply Forall_impl; [|exact H]. intros s N. split; [exact N|].
  intros ->. discriminate N.
Qed.

Lemma subtopics_are_nonblank_witness :
  Forall (fun s => nonblank s = true /\ s <> []) [JS.lit "tour"; JS.lit "rock"].
Proof.
  apply (subtopics_are_nonblank Scenario.env 7 (Scenario.after_one_run (Scenario.music 3))
           [JS.lit "tour"; JS.lit "rock"]
           (record_call (LambdaGetSubtopics 7) (Scenario.after_one_run (Scenario.music 3)))).
  reflexivity.
Defined.

Lemma subtopic_fields_of_strings items :
  forallb is_string items = true -> subtopic_fields items = [].
Proof.
  unfold subtopic_fields. induction items as [|v items IH]; [reflexivity|].
  cbn [forallb flat_map]. intros H. apply andb_true_iff in H as [Hv H].
  rewrite (IH H). destruct v; try discriminate. reflexivity.
Qed.

(** X16: a registry reply in the shape of an HTTP reply (status 2xx and a
    text body) is read as an array of objects with a [Subtopic] field;
    when its body is an array of plain strings every string is dropped
    and the list returned is empty (the branch written for that shape is
    never reached). *)
Theorem body_of_plain_strings_is_ignored env queryId w p v items :
  fault env (List.length (log w)) (LambdaGetSubtopics queryId) = None ->
  truthy_opt (FunctionError (subtopics_reply env (List.length (log w)) queryId)) = false ->
  Payload (subtopics_reply env (List.length (log w)) queryId) = Some p ->
  JSON_parse env p = Some v ->
  is_array v = false ->
  api_gateway_like env v = true ->
  JSON_parse env (body_of v) = Some (JArray items) ->
  forallb is_string items = true ->
  getSubtopics env queryId w = (Ok [], record_call (LambdaGetSubtopics queryId) w).
Proof.
  intros F FE P J NA AG JB S.
  rewrite (gs_parsed env queryId w p v F FE P J). f_equal. f_equal.
  unfold parsed_result.
  assert (is_string_array v = false) as -> by (destruct v; try reflexivity; discriminate).
  rewrite NA, AG, JB. now apply subtopic_fields_of_strings.
Qed.

Lemma body_of_plain_strings_is_ignored_witness :
  getSubtopics Cases.wrapped_env 7 (Scenario.after_one_run (Scenario.music 3)) =
    (Ok [], record_call (LambdaGetSubtopics 7) (Scenario.after_one_run (Scenario.music 3))).
Proof.
  apply (body_of_plain_strings_is_ignored Cases.wrapped_env 7
           (Scenario.after_one_run (Scenario.music 3)) (JS.lit "{...}")
           (JObject [(JS.lit "statusCode", JNumber 200);
                     (JS.lit "body", JString (JS.lit "[...]"))])
           [JString (JS.lit "tour"); JString (JS.lit "rock")]);
    reflexivity.
Defined.

(** ** Texts of one byte per character *)

Section Ascii.
Import Utf8.

Lemma ascii_code_points s : ascii_text s -> code_points s = s.
Proof.
  induction 1 as [|u s Hu _ IH]; [reflexivity|].
  cbn [code_points]. unfold is_high, is_low. zbool. now rewrite IH.
Qed.

Lemma ascii_encode s : ascii_text s -> encode s = s.
Proof.
  induction 1 as [|u s Hu _ IH]; [reflexivity|].
  unfold encode in *. cbn [flat_map]. unfold encode_cp at 1. zbool.
  cbn [app]. now rewrite IH.
Qed.

Lemma ascii_decode s : ascii_text s -> decode s = s.
Proof.
  unfold decode. induction 1 as [|u s Hu _ IH]; [reflexivity|].
  cbn [decode_from]. unfold lead. zbool. cbn [app]. now rewrite IH.
Qed.

Lemma ascii_of_code_points s : ascii_text s -> of_code_points s = s.
Proof.
  induction 1 as [|u s Hu _ IH]; [reflexivity|].
  unfold of_code_points in *. cbn [flat_map]. unfold code_units_of at 1. zbool.
  cbn [app]. now rewrite IH.
Qed.

End Ascii.

(** X17: for a text of ASCII characters, the text that is analysed is
    exactly its first 4990 characters: the whole text when it is not
    longer, and no character is altered or lost before the cut. *)
Theorem ascii_text_is_cut_at_the_limit text :
  ascii_text text ->
  textToAnalyze text = firstn (Z.to_nat MAX_COMPREHEND_BYTES) text.
Proof.
  intros H.
  unfold textToAnalyze, Utf8.Buffer_byteLength, Utf8.Buffer_from, Utf8.Buffer_toString,
    Utf8.Buffer_slice0.
  rewrite (ascii_code_points _ H), (ascii_encode _ H).
  destruct (Z.gtb_spec (Z.of_nat (List.length text)) MAX_COMPREHEND_BYTES) as [G | G].
  - assert (H' : ascii_text (firstn (Z.to_nat MAX_COMPREHEND_BYTES) text))
      by (apply Forall_firstn; exact H).
    now rewrite (ascii_decode _ H'), (ascii_of_code_points _ H').
  - symmetry. apply firstn_all2. lia.
Qed.

Lemma ascii_text_is_cut_at_the_limit_witness :
  textToAnalyze (repeat 97 5000) = repeat 97 4990.
Proof.
  assert (A : ascii_text (repeat 97 5000)).
  { apply Forall_forall. intros x Hx. apply repeat_spec in Hx. lia. }
  rewrite (ascii_text_is_cut_at_the_limit (repeat 97 5000) A).
  vm_compute. reflexivity.
Defined.

(** ** The earlier version of the handler *)

(** *** What an invocation does to the tables *)

Ltac kept_side := intros; unfold stores_are in *; cbn; assumption.

Lemma triple_assume {A} (P : World -> Prop) (F : Prop) (c : M A) Q E :
  (F -> triple P c Q E) -> triple (fun w => P w /\ F) c Q E.
Proof. intros H w [Hw HF]. now apply H. Qed.

Lemma legacy_keeps_getNextDataId env d qs n :
  invariant (stores_are d qs) (Legacy.getNextDataId env n).
Proof. unfold Legacy.getNextDataId, send_CounterUpdate. repeat inv_step kept_side. Qed.

Lemma legacy_keeps_deleteSchedule env d qs q :
  invariant (stores_are d qs) (deleteSchedule env q).
Proof. unfold deleteSchedule. repeat inv_step kept_side. Qed.

Lemma legacy_keeps_authenticate env d qs :
  invariant (stores_are d qs) (authenticate env).
Proof. unfold authenticate. repeat inv_step kept_side. Qed.

Lemma legacy_keeps_searchPosts env d qs term limit :
  invariant (stores_are d qs) (Legacy.searchPosts env term limit).
Proof. unfold Legacy.searchPosts. repeat inv_step kept_side. Qed.

Lemma legacy_keeps_scoring env d qs posts :
  invariant (stores_are d qs) (mapM (scorePost env) posts).
Proof. apply inv_mapM. intros p _. unfold scorePost. repeat inv_step kept_side. Qed.

Lemma legacy_getQueryDetails_spec env gwt d qs q tp :
  triple (stores_are d qs) (Legacy.getQueryDetails env gwt q (Some tp))
         (fun qd w => stores_are d qs w /\ find (has_key q tp) qs = Some qd)
         (fun _ => stores_are d qs).
Proof.
  unfold Legacy.getQueryDetails. destruct (negb _); [now apply triple_throw|].
  apply triple_try_catch with (E' := fun _ => stores_are d qs);
    [|intros e; now apply triple_throw].
  apply triple_bind
    with (R := fun item w => stores_are d qs w /\ find (has_key q tp) qs = item).
  - unfold send_QueriesGet. apply triple_request.
    + intros w e H _. exact H.
    + intros w H _. split; [exact H|]. destruct H as [_ Hq]. cbn. now rewrite Hq.
  - intros [qd|].
    + apply triple_ret. intros w H. exact H.
    + apply triple_throw. now intros w [H _].
Qed.

Lemma legacy_checkRunCount_spec env d qs q :
  triple (stores_are d qs) (Legacy.checkRunCount env q)
         (fun rc w => stores_are d qs w /\ rc = Legacy.runs q d)
         (fun _ => stores_are d qs).
Proof.
  unfold Legacy.checkRunCount, Legacy.send_DataScanCount.
  apply triple_try_catch with (E' := fun _ => stores_are d qs);
    [|intros e; now apply triple_throw].
  apply triple_request.
  - intros w e H _. exact H.
  - intros w H _. split; [exact H|]. destruct H as [Hd _]. cbn. unfold Legacy.runs.
    now rewrite Hd.
Qed.

Lemma legacy_store_spec env d qs s :
  triple (stores_are d qs) (Legacy.storeAnalysisResults env s)
         (fun _ w => exists dataId createdAt,
                       stores_are (d ++ [Legacy.item dataId createdAt s]) qs w)
         (fun _ => stores_are d qs).
Proof.
  unfold Legacy.storeAnalysisResults. destruct (negb _); [now apply triple_throw|].
  apply triple_bind with (R := fun _ => stores_are d qs);
    [apply legacy_keeps_getNextDataId|].
  intros dataId.
  apply triple_try_catch with (E' := fun _ => stores_are d qs);
    [|intros e; now apply triple_throw].
  intros w H. unfold bind, Date_now, send_DataPut, request.
  destruct (fault env _ _); [exact H|].
  exists dataId, (now env (List.length (log w))). destruct H as [Hd Hq].
  split; cbn; [now rewrite Hd | exact Hq].
Qed.

(** Once the record is stored the invocation cannot fail. *)
Lemma legacy_after_store env event qd q rc s d qs :
  triple (stores_are d qs)
         ((if rc + 1 >=? NumIntervals qd then deleteSchedule env q else ret tt) ;;
          if isScheduledEvent event then ret None
          else ret (Some {| Legacy.statusCode := 200; Legacy.body := Legacy.Summary s |}))
         (fun _ => stores_are d qs)
         (fun _ _ => False).
Proof.
  apply triple_bind with (R := fun _ => stores_are d qs).
  - destruct (_ >=? _); [|now apply triple_ret].
    unfold deleteSchedule.
    apply triple_try_catch with (E' := fun _ => stores_are d qs);
      [|intros e; now apply triple_ret].
    apply triple_request; intros w; intros; assumption.
  - intros _. destruct (isScheduledEvent event); now apply triple_ret.
Qed.

Lemma legacy_analyzeInterval_spec env d qs event qd q rc :
  triple (stores_are d qs) (Legacy.analyzeInterval env event qd q rc)
         (fun _ w => exists it, stores_are (d ++ [it]) qs w /\
                                Legacy.untagged q it /\ item_Topic it = Topic qd)
         (fun _ => stores_are d qs).
Proof.
  unfold Legacy.analyzeInterval. cbn zeta.
  apply triple_bind with (R := fun _ => stores_are d qs);
    [apply legacy_keeps_searchPosts|]. intros posts.
  apply triple_bind with (R := fun _ => stores_are d qs);
    [apply legacy_keeps_scoring|]. intros ps.
  apply triple_bind with (R := fun _ => stores_are d qs);
    [apply inv_Date_now|]. intros time.
  apply triple_bind
    with (R := fun _ w => exists dataId createdAt,
                 stores_are (d ++ [Legacy.item dataId createdAt
                                     (Legacy.summarize q (Topic qd) time ps)]) qs w);
    [apply legacy_store_spec|].
  intros _ w (dataId & createdAt & H).
  pose proof (legacy_after_store env event qd q rc
                (Legacy.summarize q (Topic qd) time ps) _ qs w H) as K.
  revert K.
  match goal with
  | |- (let (_, _) := ?c in _) -> _ => destruct c as [[r|e] w']
  end; intros K; [|contradiction].
  eexists. split; [exact K|]. repeat split.
Qed.

Lemma legacy_processQuery_spec env gwt d qs event q tp :
  triple (stores_are d qs) (Legacy.processQuery env gwt event q (Some tp))
    (fun _ w =>
       stores_are d qs w \/
       exists qd it,
         find (has_key q tp) qs = Some qd /\ Legacy.runs q d < NumIntervals qd /\
         stores_are (d ++ [it]) qs w /\ Legacy.untagged q it /\ item_Topic it = Topic qd)
    (fun _ => stores_are d qs).
Proof.
  unfold Legacy.processQuery. destruct (_ || _); [now apply triple_throw|].
  eapply triple_bind; [apply legacy_getQueryDetails_spec|]. intros qd.
  apply triple_assume. intros Hfind.
  destruct (_ || _).
  { apply triple_bind with (R := fun _ => stores_are d qs);
      [apply legacy_keeps_deleteSchedule|].
    intros _. apply triple_ret. now left. }
  eapply triple_bind; [apply legacy_checkRunCount_spec|]. intros rc.
  apply triple_assume. intros ->.
  destruct (Legacy.runs q d >=? NumIntervals qd) eqn:G.
  { apply triple_bind with (R := fun _ => stores_are d qs);
      [apply legacy_keeps_deleteSchedule|].
    intros _. apply triple_ret. now left. }
  rewrite Z.geb_leb in G. apply Z.leb_gt in G.
  apply triple_bind with (R := fun _ => stores_are d qs);
    [apply legacy_keeps_authenticate|]. intros _.
  eapply triple_consequence;
    [apply legacy_analyzeInterval_spec | intros w H; exact H | | intros e w H; exact H].
  intros r w (it & H & U & T). right. now exists qd, it.
Qed.

Lemma legacy_event_topic env event q :
  Legacy.with_topic event = true ->
  Legacy.extractQueryInfo env event <> Ok (inl (q, None)).
Proof.
  intros W. destruct event as [[queryId|] [tp|] | [[queryIdParam [tp|]]|] | ];
    cbn in W |- *; try discriminate.
  destruct (JS.truthy tp); [|discriminate].
  destruct queryIdParam as [p|]; [|discriminate].
  destruct (JS.truthy p); [|discriminate].
  destruct (parseInt10 env p); discriminate.
Qed.

Lemma legacy_handler_spec env gwt d qs event :
  Legacy.with_topic event = true ->
  triple (stores_are d qs) (Legacy.handler env gwt event)
    (fun _ w =>
       stores_are d qs w \/
       exists q tp qd it,
         Legacy.extractQueryInfo env event = Ok (inl (q, Some tp)) /\
         find (has_key q tp) qs = Some qd /\ Legacy.runs q d < NumIntervals qd /\
         stores_are (d ++ [it]) qs w /\ Legacy.untagged q it /\ item_Topic it = Topic qd)
    (fun _ => stores_are d qs).
Proof.
  intros W. unfold Legacy.handler.
  destruct (Legacy.extractQueryInfo env event) as [[[q [tp|]]|res]|e] eqn:X.
  - eapply triple_consequence;
      [apply legacy_processQuery_spec | intros w H; exact H | | intros e w H; exact H].
    intros r w [H | (qd & it & H)]; [now left | right; now exists q, tp, qd, it].
  - now apply legacy_event_topic in X.
  - apply triple_ret. now left.
  - now apply triple_throw.
Qed.


Lemma untagged_is_no_run q q' it : Legacy.untagged q it -> main_runs q' [it] = 0.
Proof.
  intros (_ & I & _). unfold main_runs, tagged_main. cbn. rewrite I.
  now rewrite andb_false_r.
Qed.

(** X18: an invocation of the earlier version for an event that names its
    topic adds at most one record to the Result table and leaves the topic
    table alone.  When it fails nothing was stored; the record it stores
    carries the query id of the event, the topic of the topic record and
    neither [IsSubtopic] nor [MainTopic]. *)
Theorem legacy_stores_one_record_or_nothing env gwt event w :
  Legacy.with_topic event = true ->
  match Legacy.handler env gwt event w with
  | (Ok _, w') =>
      queries w' = queries w /\
      (data w' = data w \/
       exists q tp qd it,
         Legacy.extractQueryInfo env event = Ok (inl (q, Some tp)) /\
         find (has_key q tp) (queries w) = Some qd /\
         data w' = data w ++ [it] /\
         Legacy.untagged q it /\ item_Topic it = Topic qd)
  | (Throw _, w') => queries w' = queries w /\ data w' = data w
  end.
Proof.
  intros W.
  pose proof (legacy_handler_spec env gwt (data w) (queries w) event W w
                (conj eq_refl eq_refl)) as H.
  destruct (Legacy.handler env gwt event w) as [[r|e] w'].
  - destruct H as [[D Q] | (q & tp & qd & it & X & F & _ & [D Q] & U & T)].
    + split; [exact Q | now left].
    + split; [exact Q|]. right. now exists q, tp, qd, it.
  - destruct H as [D Q]. now split.
Qed.

Lemma legacy_stores_one_record_or_nothing_witness :
  match Legacy.handler Scenario.env Legacy.rejecting Legacy.keyed
                       (Scenario.fresh (Scenario.music 3)) with
  | (Ok _, w') =>
      queries w' = queries (Scenario.fresh (Scenario.music 3)) /\
      (data w' = data (Scenario.fresh (Scenario.music 3)) \/
       exists q tp qd it,
         Legacy.extractQueryInfo Scenario.env Legacy.keyed = Ok (inl (q, Some tp)) /\
         find (has_key q tp) (queries (Scenario.fresh (Scenario.music 3))) = Some qd /\
         data w' = data (Scenario.fresh (Scenario.music 3)) ++ [it] /\
         Legacy.untagged q it /\ item_Topic it = Topic qd)
  | (Throw _, w') =>
      queries w' = queries (Scenario.fresh (Scenario.music 3)) /\
      data w' = data (Scenario.fresh (Scenario.music 3))
  end.
Proof.
  apply (legacy_stores_one_record_or_nothing Scenario.env Legacy.rejecting Legacy.keyed
           (Scenario.fresh (Scenario.music 3))).
  reflexivity.
Defined.

(** X19: the records of the earlier version are not runs for the handler
    of [part_007]: whatever an invocation of the earlier version does, the
    number of main-topic runs that the current handler counts is the same
    after it as before, for every query. *)
Theorem legacy_records_are_not_counted env gwt event w q :
  Legacy.with_topic event = true ->
  main_runs q (data (snd (Legacy.handler env gwt event w))) = main_runs q (data w).
Proof.
  intros W.
  pose proof (legacy_handler_spec env gwt (data w) (queries w) event W w
                (conj eq_refl eq_refl)) as H.
  destruct (Legacy.handler env gwt event w) as [[r|e] w']; cbn [snd].
  - destruct H as [[D _] | (q1 & tp & qd & it & _ & _ & _ & [D _] & U & _)].
    + now rewrite D.
    + rewrite D, main_runs_app, (untagged_is_no_run q1 q it U). lia.
  - destruct H as [D _]. now rewrite D.
Qed.

Lemma legacy_records_are_not_counted_witness :
  main_runs 7 (data (snd (Legacy.handler Scenario.env Legacy.rejecting Legacy.keyed
                                         (Scenario.fresh (Scenario.music 3)))))
  = main_runs 7 (data (Scenario.fresh (Scenario.music 3))).
Proof.
  apply (legacy_records_are_not_counted Scenario.env Legacy.rejecting Legacy.keyed
           (Scenario.fresh (Scenario.music 3)) 7).
  reflexivity.
Defined.



(** *** The calls of an invocation *)

Lemma legacy_handler_calls env gwt event l0 :
  Legacy.with_topic event = true ->
  invariant (logged (fun c => only Legacy.services (service c) = true) l0)
            (Legacy.handler env gwt event).
Proof.
  intros W.
  assert (side : forall c w,
             only Legacy.services (service c) = true ->
             logged (fun c => only Legacy.services (service c) = true) l0 w ->
             logged (fun c => only Legacy.services (service c) = true) l0 (record_call c w))
    by (intros; now apply logged_record).
  unfold Legacy.handler.
  destruct (Legacy.extractQueryInfo env event) as [[[q [tp|]]|res]|e] eqn:X;
    [| now apply legacy_event_topic in X | apply inv_ret | apply inv_throw].
  unfold Legacy.processQuery, Legacy.getQueryDetails, send_QueriesGet, deleteSchedule,
    Legacy.checkRunCount, Legacy.send_DataScanCount, authenticate, Legacy.analyzeInterval,
    Legacy.searchPosts, Legacy.storeAnalysisResults, Legacy.getNextDataId,
    send_CounterUpdate, send_DataPut.
  cbn zeta.
  repeat first
    [ apply inv_mapM; intros p _; unfold scorePost
    | progress unfold deleteSchedule
    | inv_step ltac:(first [ intros w0 Hw0; apply side; [reflexivity | exact Hw0]
                           | intros t0 w0 Hw0; exact Hw0 ]) ].
Qed.

(** X21: an invocation of the earlier version calls the topic table, the
    scan of the Result table, the schedule, the login, the feed search,
    the sentiment scorer, the id counter and the Result table, and
    nothing else: it sends no notification, subscribes no address,
    extracts no key phrases and never calls the subtopic registry. *)
Theorem legacy_never_notifies env gwt event w :
  Legacy.with_topic event = true ->
  exists new,
    log (snd (Legacy.handler env gwt event w)) = new ++ log w /\
    Forall (fun c => only Legacy.services (service c) = true) new /\
    calls_to [SvcPublish; SvcSubscribe; SvcKeyPhrases; SvcGetSubtopics; SvcAddSubtopic] new
      = [].
Proof.
  intros W.
  pose proof (legacy_handler_calls env gwt event (log w) W) as H.
  apply (invariant_run _ _ w) in H; [|exists []; split; [reflexivity | constructor]].
  destruct H as (new & L & F). exists new. split; [exact L|]. split; [exact F|].
  clear L. induction F as [|c new Hc _ IH]; [reflexivity|].
  unfold calls_to in *. cbn [filter]. rewrite IH.
  destruct c; cbn in Hc |- *; try reflexivity; discriminate.
Qed.

Lemma legacy_never_notifies_witness :
  exists new,
    log (snd (Legacy.handler Scenario.env Legacy.rejecting Legacy.keyed
                             (Scenario.fresh (Scenario.music 1)))) =
      new ++ log (Scenario.fresh (Scenario.music 1)) /\
    Forall (fun c => only Legacy.services (service c) = true) new /\
    calls_to [SvcPublish; SvcSubscribe; SvcKeyPhrases; SvcGetSubtopics; SvcAddSubtopic] new
      = [].
Proof.
  apply (legacy_never_notifies Scenario.env Legacy.rejecting Legacy.keyed
           (Scenario.fresh (Scenario.music 1))).
  reflexivity.
Defined.

(** *** An interval of the earlier version *)

Lemma legacy_interval_run env event qd q rc w :
  DATA_TABLE_NAME env = true ->
  fault env (List.length (log w)) (SearchPosts (Topic qd) (PostsToAnalyze qd)) = None ->
  (forall t, fault env t (CounterUpdate DATA_COUNTER_NAME) = None) ->
  (forall t, counter_reply_numeric env t = true) ->
  (forall t it, fault env t (DataPut it) = None) ->
  let posts := posts_found env (List.length (log w)) (Topic qd) (PostsToAnalyze qd) in
  exists ps dataId createdAt time w',
    let summary := Legacy.summarize q (Topic qd) time ps in
    let it := Legacy.item dataId createdAt summary in
    Legacy.analyzeInterval env event qd q rc w =
      (Ok (if isScheduledEvent event then None
           else Some {| Legacy.statusCode := 200; Legacy.body := Legacy.Summary summary |}),
       w') /\
    map reply_of (filter counted ps) = successfully_scored env (S (List.length (log w))) posts /\
    data w' = data w ++ [it] /\
    log w' = (if rc + 1 >=? NumIntervals qd then [SchedulerDelete q] else []) ++
             DataPut it :: CounterUpdate DATA_COUNTER_NAME ::
             rev (scoring_calls posts) ++
             SearchPosts (Topic qd) (PostsToAnalyze qd) :: log w.
Proof.
  intros HD HS HC HN HP posts.
  unfold Legacy.analyzeInterval, Legacy.searchPosts. cbn zeta.
  unfold bind at 1, try_catch at 1, request at 1. rewrite HS. fold posts.
  set (w1 := record_call (SearchPosts (Topic qd) (PostsToAnalyze qd)) w).
  destruct (mapM_scorePost_spec env posts w1) as (ps & w2 & E & (SQ & SD & SC) & R).
  pose proof (mapM_scorePost_log env posts w1) as L. rewrite E in L. cbn [snd] in L.
  unfold bind at 1. rewrite E. unfold bind at 1, Date_now at 1.
  set (time := now env (List.length (log w2))).
  set (summary := Legacy.summarize q (Topic qd) time ps).
  unfold Legacy.storeAnalysisResults. rewrite HD. cbn [negb].
  unfold Legacy.getNextDataId, send_CounterUpdate, send_DataPut, Date_now.
  unfold bind, try_catch, request. rewrite HC, HN.
  unfold ret at 1. cbv beta iota. cbn [log record_call set_counter counter].
  rewrite HP. cbv beta iota.
  set (dataId := match counter w2 with Some c => c | None => 0 end + 1).
  set (createdAt := now env (S (List.length (log w2)))).
  exists ps, dataId, createdAt, time.
  assert (D1 : data w2 = data w) by (rewrite SD; reflexivity).
  assert (L1 : log w2 = rev (scoring_calls posts) ++
                        SearchPosts (Topic qd) (PostsToAnalyze qd) :: log w)
    by (rewrite L; reflexivity).
  unfold deleteSchedule, try_catch, request, ret.
  destruct (rc + 1 >=? NumIntervals qd);
    [destruct (fault env _ (SchedulerDelete q))|];
    destruct (isScheduledEvent event);
    (eexists; split; [reflexivity|]; split; [exact R|]; split;
     [ cbn [data append_item record_call set_counter]; now rewrite D1
     | cbn [log append_item record_call set_counter app];
       first [ exact (f_equal (fun l => _ :: _ :: l) L1)
             | exact (f_equal (fun l => _ :: _ :: _ :: l) L1) ] ]).
Qed.

(** X22: when the feed search, the id counter and the Result table work,
    an interval of the earlier version always ends with one new record,
    even when no post was found or scored: the record counts the
    successfully scored posts, by label, and its four averages are 0 when
    there is none.  (The handler of [part_007] stores nothing in that
    case.) *)
Theorem legacy_records_every_interval env event qd q rc w :
  DATA_TABLE_NAME env = true ->
  fault env (List.length (log w)) (SearchPosts (Topic qd) (PostsToAnalyze qd)) = None ->
  (forall t, fault env t (CounterUpdate DATA_COUNTER_NAME) = None) ->
  (forall t, counter_reply_numeric env t = true) ->
  (forall t it, fault env t (DataPut it) = None) ->
  let scored :=
    successfully_scored env (S (List.length (log w)))
      (posts_found env (List.length (log w)) (Topic qd) (PostsToAnalyze qd)) in
  exists it res w',
    Legacy.analyzeInterval env event qd q rc w = (Ok res, w') /\
    data w' = data w ++ [it] /\
    Legacy.untagged q it /\ item_Topic it = Topic qd /\
    PostsAnalyzed it = Z.of_nat (List.length scored) /\
    PositivePosts it = label_count "POSITIVE" scored /\
    NegativePosts it = label_count "NEGATIVE" scored /\
    NeutralPosts it = label_count "NEUTRAL" scored /\
    MixedPosts it = label_count "MIXED" scored /\
    (scored = [] ->
     AvgPositiveScore it = 0%Q /\ AvgNegativeScore it = 0%Q /\
     AvgNeutralScore it = 0%Q /\ AvgMixedScore it = 0%Q).
Proof.
  intros HD HS HC HN HP scored.
  destruct (legacy_interval_run env event qd q rc w HD HS HC HN HP)
    as (ps & dataId & createdAt & time & w' & E & R & D & _).
  fold scored in R.
  pose proof (tally_fold ps tally0) as T. cbn zeta in T. rewrite R in T.
  cbn [tally0 analyzedCount n_positive n_negative n_neutral n_mixed] in T.
  destruct T as (T1 & T2 & T3 & T4 & T5 & _).
  eexists _, _, w'. split; [exact E|]. split; [exact D|].
  unfold Legacy.item, Legacy.summarize, Legacy.untagged.
  cbn [item_QueryID IsSubtopic MainTopic item_Topic PostsAnalyzed PositivePosts NegativePosts
       NeutralPosts MixedPosts AvgPositiveScore AvgNegativeScore AvgNeutralScore
       AvgMixedScore queryId topic totalPostsAnalyzed positivePosts negativePosts
       neutralPosts mixedPosts avgPositiveScore avgNegativeScore avgNeutralScore
       avgMixedScore].
  rewrite T1, T2, T3, T4, T5. cbn [Z.add].
  split; [repeat split|]. do 6 (split; [reflexivity|]).
  intros Z0. rewrite Z0. repeat split.
Qed.

Lemma legacy_records_every_interval_witness :
  exists it res w',
    Legacy.analyzeInterval Scenario.quiet_env Legacy.keyed (Scenario.music 3) 7 0
                           (Scenario.logged_in (Scenario.fresh (Scenario.music 3)))
      = (Ok res, w') /\
    data w' = [it] /\ PostsAnalyzed it = 0 /\ AvgPositiveScore it = 0%Q.
Proof.
  destruct (legacy_records_every_interval Scenario.quiet_env Legacy.keyed (Scenario.music 3)
              7 0 (Scenario.logged_in (Scenario.fresh (Scenario.music 3))))
    as (it & res & w' & E & D & _ & _ & P & _ & _ & _ & _ & A);
    try reflexivity.
  exists it, res, w'. split; [exact E|]. split; [exact D|]. split; [exact P|].
  now destruct (A eq_refl).
Defined.

(** X23: the calls of such an interval, in order: the feed search, one
    scoring call for each post that has text, the id counter and the
    write of the record; the schedule is deleted after them exactly when
    the run count read at entry plus one reaches the number of intervals,
    whether or not its deletion succeeds. *)
Theorem legacy_calls_of_an_interval env event qd q rc w :
  DATA_TABLE_NAME env = true ->
  fault env (List.length (log w)) (SearchPosts (Topic qd) (PostsToAnalyze qd)) = None ->
  (forall t, fault env t (CounterUpdate DATA_COUNTER_NAME) = None) ->
  (forall t, counter_reply_numeric env t = true) ->
  (forall t it, fault env t (DataPut it) = None) ->
  let posts := posts_found env (List.length (log w)) (Topic qd) (PostsToAnalyze qd) in
  exists it,
    rev (firstn (List.length (log (snd (Legacy.analyzeInterval env event qd q rc w)))
                 - List.length (log w))
                (log (snd (Legacy.analyzeInterval env event qd q rc w)))) =
      SearchPosts (Topic qd) (PostsToAnalyze qd) :: scoring_calls posts ++
      [CounterUpdate DATA_COUNTER_NAME; DataPut it] ++
      (if NumIntervals qd <=? rc + 1 then [SchedulerDelete q] else []).
Proof.
  intros HD HS HC HN HP posts.
  destruct (legacy_interval_run env event qd q rc w HD HS HC HN HP)
    as (ps & dataId & createdAt & time & w' & E & _ & _ & L).
  cbn zeta in E, L. rewrite E. cbn [snd]. fold posts in L.
  eexists. rewrite Z.geb_leb in L.
  set (tail := if NumIntervals qd <=? rc + 1 then [SchedulerDelete q] else []) in *.
  match type of L with
  | _ = tail ++ ?a :: ?b :: rev ?s ++ ?c :: log w =>
      assert (L' : log w' = (tail ++ a :: b :: rev s ++ [c]) ++ log w)
        by (rewrite L, <- !app_assoc; cbn; now rewrite <- !app_assoc)
  end.
  rewrite L', length_app, Nat.add_sub, firstn_app, Nat.sub_diag, firstn_all, firstn_O,
    app_nil_r.
  rewrite rev_app_distr. cbn [rev]. rewrite !rev_app_distr, rev_involutive. cbn [rev app].
  rewrite <- !app_assoc. cbn [app].
  assert (RT : rev tail = tail) by (subst tail; now destruct (_ <=? _)).
  rewrite RT. reflexivity.
Qed.

Lemma legacy_calls_of_an_interval_witness :
  exists it,
    rev (Scenario.calls_since
           (Scenario.logged_in (Scenario.fresh (Scenario.music 1)))
           (snd (Legacy.analyzeInterval Scenario.env Legacy.keyed (Scenario.music 1) 7 0
                   (Scenario.logged_in (Scenario.fresh (Scenario.music 1)))))) =
      [SearchPosts (JS.lit "Music") 10;
       DetectSentiment (JS.lit "I love the Music tour");
       DetectSentiment (JS.lit "music rocks");
       CounterUpdate DATA_COUNTER_NAME; DataPut it; SchedulerDelete 7].
Proof.
  destruct (legacy_calls_of_an_interval Scenario.env Legacy.keyed (Scenario.music 1) 7 0
              (Scenario.logged_in (Scenario.fresh (Scenario.music 1))))
    as (it & E); try reflexivity.
  exists it. exact E.
Defined.

(** *** The events of the two versions *)

(** X24: the current handler reads an event as the earlier version did:
    an event from which the earlier version takes a query id and a topic
    gives the current handler the same query id and the same topic hint,
    and a scheduled event without query id is rejected by both with the
    same error.  What the earlier version answers with status 400 is an
    event that is not a scheduled event. *)
Theorem legacy_events_still_accepted env event :
  match Legacy.extractQueryInfo env event with
  | Ok (inl info) => extractQueryInfo env event = Ok (Some info)
  | Ok (inr result) => Legacy.statusCode result = 400 /\ isScheduledEvent event = false
  | Throw e => extractQueryInfo env event = Throw e
  end.
Proof.
  destruct event as [[queryId|] topicFromEvent | [[queryIdParam [tp|]]|] | ];
    cbn [Legacy.extractQueryInfo extractQueryInfo isScheduledEvent];
    try reflexivity; try (split; reflexivity).
  destruct (JS.truthy tp); [|split; reflexivity].
  destruct queryIdParam as [p|]; [|split; reflexivity].
  destruct (JS.truthy p); [|split; reflexivity].
  destruct (parseInt10 env p); [reflexivity | split; reflexivity].
Qed.
